(** * The fusion manager of the shuttle tracker (package [api])

    A shallow embedding of [fusionManager]: the goroutine that owns the
    subscriptions, the client registry, the tracks and the bus-button
    counter, the reader goroutine of each client, the debug snapshot, the
    callback of the ETA manager and the HTTP handlers.

    - Go maps are [gmap]s; a lookup of a missing key yields the zero value
      (a nil slice, a nil pointer).
    - [*fusionClient] is a location in a store of client objects; the
      registry and the reader of a client share that location.
    - [[]fusionPosition] is a slice header (pointer, length, capacity) over
      a store of backing arrays, so that [append], [make] and [copy] keep
      their sharing behaviour.
    - [[]string] subscriber lists are held by value: a list is only reached
      through its map entry, which is overwritten by every update.
    - [json.Marshal], [Conn.WriteMessage], [time.Now] and the growth policy
      of [append] belong to the environment.
    - every call of the environment is recorded in a trace.
    - an HTTP handler is known by the calls it makes on its
      [http.ResponseWriter]; whether a write on it fails belongs to the
      environment of the handlers. *)

From stdpp Require Import gmap strings list fin_maps pretty.
From Stdlib Require Import ZArith Ascii.

Local Open Scope Z_scope.

(** ** Data *)

(** [float64] values are carried around and never computed with: they are
    kept as their IEEE-754 bit pattern. *)
Definition float64 := Z.

(** [time.Time], as nanoseconds since the zero time; [IsZero] is [= 0]. *)
Definition Time := Z.

(** The identity of a [*websocket.Conn]. *)
Definition Conn := nat.

(** Addresses of heap objects. *)
Definition loc := nat.

Definition bytes := list Init.Byte.byte.

(** The structs of the package. A field carries a prefix where a field of
    that name exists in another struct ([Topic], [Latitude], [msg]) or the
    name is taken in Rocq ([id]); [Time_] is the field [Time]. *)
Record fusionMessageSubscribe := { fms_Topic : string }.

Record fusionMessageUnsubscribe := { fmu_Topic : string }.

(** [Speed] and [Heading] are [*float64], nil when unknown. The cell behind
    such a pointer is written once, by the decoder, before the position
    reaches the manager, and no code writes through the pointer: the field
    is held by value, as a string is. *)
Record fusionPosition := {
  Latitude : float64;
  Longitude : float64;
  Speed : option float64;
  Heading : option float64;
  Track : string;
  Time_ : Time
}.

Record fusionBusButton := {
  fbb_Latitude : float64;
  fbb_Longitude : float64
}.

(** [conn] is a pointer: nil in the clients of a snapshot. *)
Record fusionClient := {
  fc_id : string;
  fc_conn : option Conn;
  fc_lastMessageTime : Time;
  fc_userAgent : string
}.

(** The values that travel as [interface{}]: the [msg] of a
    [clientMessage] and of a [serverMessage], and the [Message] of an
    envelope. [VOpaque] stands for a value of a type declared outside the
    package ([eta.VehicleETA]), named by a token. *)
Inductive value :=
| VSubscribe (fms : fusionMessageSubscribe)
| VUnsubscribe (fmu : fusionMessageUnsubscribe)
| VPosition (fp : fusionPosition)
| VBusButton (fbb : fusionBusButton)
| VEnvelope (Type_ : string) (Message : value)
| VOpaque (token : nat).

Record clientMessage := { clientID : string; cm_msg : value }.

Record serverMessage := { topic : string; sm_msg : value }.

(** A slice header over the store of backing arrays. The offset into the
    array is always 0 in this program. *)
Record slice := { ptr : option loc; len : nat; cap : nat }.

Definition nil_slice : slice := {| ptr := None; len := 0; cap := 0 |}.

(** [Clients] is a slice of structs and [Tracks] a slice of slices: the
    outer slices are made by [processDebug] for the snapshot alone and are
    lists here; the inner slices are slice headers. *)
Record fusionManagerDebug := {
  dbg_clients : list fusionClient;
  dbg_tracks : list slice;
  dbg_busButtonCount : Z
}.

(** The internal state of [fusionManager] (the fields below the channels). *)
Record fusionManager := {
  subscriptions : gmap string (list string);
  clients : gmap string loc;
  tracks : gmap string slice;
  busButtonCount : Z
}.

Inductive level := LvlWarn | LvlError.

(** What the code does to the world: a call of [json.Marshal], a call of
    [WriteMessage] on a connection, a line of the log (its text, without
    the fields), the start of the reader of a client. *)
Inductive event :=
| EvMarshal (v : value)
| EvWrite (c : Conn) (b : bytes)
| EvLog (lvl : level) (msg : string)
| EvGo (client : loc).

(** What the program does not decide. [json_Marshal] yields [None] for an
    error; [conn_WriteMessage] tells whether the write returned an error,
    given everything that happened before; [time_Now n] is the reading of
    the [n]-th call; [growslice old needed] is the capacity the runtime
    proposes when [append] must reallocate. *)
Record environment := {
  json_Marshal : value → option bytes;
  conn_WriteMessage : list event → Conn → bytes → bool;
  time_Now : nat → Time;
  growslice : nat → nat → nat
}.

(** The machine: the manager and the memory and history it runs in. *)
Record state := {
  fm : fusionManager;
  objects : gmap loc fusionClient;
  arrays : gmap loc (list fusionPosition);
  trace : list event;
  ticks : nat
}.

(** ** The monad of the manager's code: state, and a panic *)

(** A panic keeps the state it happened in: what was written before it was
    written. *)
Inductive result (A : Type) :=
| Done (a : A) (s : state)
| Panic (why : string) (s : state).
Arguments Done {A} a s.
Arguments Panic {A} why s.

Definition M (A : Type) : Type := state → result A.

#[export] Instance M_ret : MRet M := λ A a s, Done a s.

#[export] Instance M_bind : MBind M := λ A B f m s,
  match m s with
  | Done a s' => f a s'
  | Panic why s' => Panic why s'
  end.

Definition panic {A} (why : string) : M A := λ s, Panic why s.

(** The state a computation ends in, returned or panicked. *)
Definition final {A} (r : result A) : state :=
  match r with
  | Done _ s => s
  | Panic _ s => s
  end.

Definition get : M state := λ s, Done s s.

Definition getFM : M fusionManager := λ s, Done (fm s) s.

(** Updates of one component of the state. *)
Definition setFM (f : fusionManager) (s : state) : state :=
  {| fm := f; objects := objects s; arrays := arrays s;
     trace := trace s; ticks := ticks s |}.

Definition setObjects (o : gmap loc fusionClient) (s : state) : state :=
  {| fm := fm s; objects := o; arrays := arrays s;
     trace := trace s; ticks := ticks s |}.

Definition setArrays (a : gmap loc (list fusionPosition)) (s : state) : state :=
  {| fm := fm s; objects := objects s; arrays := a;
     trace := trace s; ticks := ticks s |}.

Definition logged (es : list event) (s : state) : state :=
  {| fm := fm s; objects := objects s; arrays := arrays s;
     trace := trace s ++ es; ticks := ticks s |}.

Definition ticked (s : state) : state :=
  {| fm := fm s; objects := objects s; arrays := arrays s;
     trace := trace s; ticks := S (ticks s) |}.

Definition putFM (f : fusionManager) : M unit := λ s, Done tt (setFM f s).

Definition putObject (l : loc) (c : fusionClient) : M unit := λ s,
  Done tt (setObjects (<[l := c]> (objects s)) s).

Definition putArray (l : loc) (a : list fusionPosition) : M unit := λ s,
  Done tt (setArrays (<[l := a]> (arrays s)) s).

Definition emit (e : event) : M unit := λ s, Done tt (logged [e] s).

Definition tick : M nat := λ s, Done (ticks s) (ticked s).

(** [for _, x := range l { body x }] *)
Fixpoint forM_ {A} (l : list A) (body : A → M unit) : M unit :=
  match l with
  | [] => mret tt
  | x :: l' => body x;; forM_ l' body
  end.

(** Field updates of the manager. *)
Definition setSubscriptions (m : gmap string (list string)) (f : fusionManager) :=
  {| subscriptions := m; clients := clients f; tracks := tracks f;
     busButtonCount := busButtonCount f |}.

Definition setClients (m : gmap string loc) (f : fusionManager) :=
  {| subscriptions := subscriptions f; clients := m; tracks := tracks f;
     busButtonCount := busButtonCount f |}.

Definition setTracks (m : gmap string slice) (f : fusionManager) :=
  {| subscriptions := subscriptions f; clients := clients f; tracks := m;
     busButtonCount := busButtonCount f |}.

Definition setBusButtonCount (n : Z) (f : fusionManager) :=
  {| subscriptions := subscriptions f; clients := clients f; tracks := tracks f;
     busButtonCount := n |}.

(** [uint64] arithmetic wraps. *)
Definition wrap64 (n : Z) : Z := n mod 2 ^ 64.

(** ** Slices of positions *)

Definition zeroPosition : fusionPosition :=
  {| Latitude := 0; Longitude := 0; Speed := None; Heading := None;
     Track := ""; Time_ := 0 |}.

(** The backing array of a slice; a nil slice has none. *)
Definition backing (s : state) (sl : slice) : list fusionPosition :=
  match ptr sl with
  | Some l => default [] (arrays s !! l)
  | None => []
  end.

(** The elements of a slice: [sl[0], ..., sl[len-1]]. *)
Definition elements_of (s : state) (sl : slice) : list fusionPosition :=
  take (len sl) (backing s sl).

(** A location no array lives at. *)
Definition new_array_loc (s : state) : loc := fresh (dom (arrays s)).

(** ** Subscriber lists *)

(** The first index at which [clientID] occurs, as the loops
    [for i, subbedClient := range subs { if subbedClient == clientID {...} }]
    find it. *)
Fixpoint index_of (clientID : string) (subs : list string) : option nat :=
  match subs with
  | [] => None
  | subbedClient :: rest =>
      if decide (subbedClient = clientID) then Some 0%nat
      else S <$> index_of clientID rest
  end.

(** [append(subs[:i], subs[i+1:]...)] *)
Definition cut (i : nat) (subs : list string) : list string :=
  take i subs ++ drop (S i) subs.

(** The body of the loop of [processRemoveClient] over the map: the entry
    of [topic] loses the first occurrence of [clientID], when it has one. *)
Definition dropSubscriber (clientID topic : string) (subs : list string)
    (m : gmap string (list string)) : gmap string (list string) :=
  match index_of clientID subs with
  | Some i => <[topic := cut i subs]> m
  | None => m
  end.

(** What the scan-and-cut of [handleMsgUnsubscribe] and
    [processRemoveClient] leaves of a list. *)
Definition afterCut (clientID : string) (subs : list string) : list string :=
  match index_of clientID subs with
  | Some i => cut i subs
  | None => subs
  end.

(** The list without [clientID], order kept. *)
Definition without (clientID : string) (subs : list string) : list string :=
  filter (λ x, x ≠ clientID) subs.

(** [fm.subscriptions[topic]]: a nil slice for a missing key. *)
Definition subscribers (f : fusionManager) (topic : string) : list string :=
  default [] (subscriptions f !! topic).

(** [newFusionManager]: empty maps, a zero counter. *)
Definition newFusionManager : fusionManager :=
  {| subscriptions := ∅; clients := ∅; tracks := ∅; busButtonCount := 0 |}.

Definition initial : state :=
  {| fm := newFusionManager; objects := ∅; arrays := ∅; trace := []; ticks := 0 |}.

(** What the loop of [run] receives from its five channels. *)
Inductive received :=
| RecvAddClient (c : loc)
| RecvRemoveClient (clientID : string)
| RecvClientMsg (cm : clientMessage)
| RecvServerMsg (sm : serverMessage)
| RecvDebug.

(** A [json.RawMessage], known by what [json.Unmarshal] makes of it at each
    of the four types a reader decodes it to ([None]: an error). *)
Record rawMessage := {
  asSubscribe : option fusionMessageSubscribe;
  asUnsubscribe : option fusionMessageUnsubscribe;
  asPosition : option fusionPosition;
  asBusButton : option fusionBusButton
}.

(** What one pass of the loop of [handleClient] gets from its connection:
    an error of [NextReader] (and whether it is an unexpected close), an
    envelope that does not decode, or a type and a raw message. *)
Inductive frame :=
| FrReadError (unexpected : bool)
| FrBadEnvelope
| FrEnvelope (messageType : string) (message : rawMessage).

(** What a pass of the reader sends, and on which channel. *)
Inductive sending :=
| SendNothing
| SendClientMsg (cm : clientMessage)
| SendRemoveClient (clientID : string).

Definition setTime (t : Time) (fp : fusionPosition) : fusionPosition :=
  {| Latitude := Latitude fp; Longitude := Longitude fp; Speed := Speed fp;
     Heading := Heading fp; Track := Track fp; Time_ := t |}.

Definition setLastMessageTime (t : Time) (c : fusionClient) : fusionClient :=
  {| fc_id := fc_id c; fc_conn := fc_conn c; fc_lastMessageTime := t;
     fc_userAgent := fc_userAgent c |}.

(** Reading through a [*fusionClient]; a nil pointer panics. *)
Definition deref (p : option loc) : M fusionClient := λ s,
  match p ≫= (λ l, objects s !! l) with
  | Some c => Done c s
  | None => Panic "nil pointer dereference" s
  end.

(** [for _, x := range l { ys = append(ys, body x) }] *)
Fixpoint mapM {A B} (body : A → M B) (l : list A) : M (list B) :=
  match l with
  | [] => mret []
  | x :: l' => y ← body x; ys ← mapM body l'; mret (y :: ys)
  end.

Section Manager.

Context (env : environment).

(** [time.Now()] *)
Definition now : M Time := n ← tick; mret (time_Now env n).

(** [json.Marshal(v)] *)
Definition marshal (v : value) : M (option bytes) :=
  emit (EvMarshal v);; mret (json_Marshal env v).

(** [c.WriteMessage(websocket.TextMessage, b)]; the result tells whether
    the write returned an error. *)
Definition writeMessage (c : Conn) (b : bytes) : M bool :=
  s ← get; emit (EvWrite c b);; mret (conn_WriteMessage env (trace s) c b).

(** What one delivery adds to the trace: the write, and a log line when
    the write fails. *)
Definition delivery (s : state) (c : Conn) (b : bytes) : list event :=
  EvWrite c b ::
  if conn_WriteMessage env (trace s) c b
  then [EvLog LvlError "unable to write"] else [].

Definition logError (msg : string) : M unit := emit (EvLog LvlError msg).

Definition logWarn (msg : string) : M unit := emit (EvLog LvlWarn msg).

(** [make([]fusionPosition, n)]: a new zeroed array. *)
Definition make_slice (n : nat) : M slice :=
  s ← get;
  let l := new_array_loc s in
  putArray l (replicate n zeroPosition);;
  mret {| ptr := Some l; len := n; cap := n |}.

(** [copy(dst, src)]: the first [min (len dst) (len src)] elements. *)
Definition copy_slice (dst src : slice) : M unit :=
  s ← get;
  match ptr dst with
  | Some l =>
      let n := Nat.min (len dst) (len src) in
      putArray l (take n (elements_of s src) ++ drop n (backing s dst))
  | None => mret tt
  end.

(** [append(sl, x)]: in place when the capacity allows it, into a new and
    larger array otherwise. *)
Definition append_slice (sl : slice) (x : fusionPosition) : M slice :=
  s ← get;
  if decide (len sl < cap sl)%nat then
    match ptr sl with
    | Some l =>
        putArray l (<[len sl := x]> (backing s sl));;
        mret {| ptr := Some l; len := S (len sl); cap := cap sl |}
    | None => panic "append: a nil slice with capacity"
    end
  else
    let needed := S (len sl) in
    let newcap := Nat.max needed (growslice env (cap sl) needed) in
    let l := new_array_loc s in
    putArray l (elements_of s sl ++ x :: replicate (newcap - needed) zeroPosition);;
    mret {| ptr := Some l; len := needed; cap := newcap |}.

(** The body of the delivery loop, the same in [processServerMessage] and
    in [handleMsgBusButton]. *)
Definition deliver (b : bytes) (clientID : string) : M unit :=
  f ← getFM;
  client ← deref (clients f !! clientID);
  match fc_conn client with
  | None => panic "nil pointer dereference"
  | Some c =>
      err ← writeMessage c b;
      if err : bool then logError "unable to write" else mret tt
  end.

Definition processAddClient (client : loc) : M unit :=
  c ← deref (Some client);
  f ← getFM;
  putFM (setClients (<[fc_id c := client]> (clients f)) f);;
  emit (EvGo client).

Definition processRemoveClient (clientID : string) : M unit :=
  f ← getFM;
  putFM (setSubscriptions
           (map_fold (dropSubscriber clientID) (subscriptions f) (subscriptions f)) f);;
  f ← getFM;
  putFM (setClients (delete clientID (clients f)) f).

Definition processServerMessage (sm : serverMessage) : M unit :=
  r ← marshal (sm_msg sm);
  match r with
  | None => logError "unable to marshal"
  | Some b =>
      f ← getFM;
      forM_ (subscribers f (topic sm)) (deliver b)
  end.

Definition handleMsgSubscribe (clientID : string) (fms : fusionMessageSubscribe) : M unit :=
  f ← getFM;
  let subs := subscribers f (fms_Topic fms) in
  match index_of clientID subs with
  | Some _ => mret tt
  | None =>
      putFM (setSubscriptions (<[fms_Topic fms := subs ++ [clientID]]> (subscriptions f)) f)
  end.

Definition handleMsgUnsubscribe (clientID : string) (fmu : fusionMessageUnsubscribe) : M unit :=
  f ← getFM;
  let subs := subscribers f (fmu_Topic fmu) in
  match index_of clientID subs with
  | Some i =>
      putFM (setSubscriptions (<[fmu_Topic fmu := cut i subs]> (subscriptions f)) f)
  | None => logWarn "client requested unsubscribe from topic it's not subscribed to"
  end.

Definition handleMsgPosition (fp : fusionPosition) : M unit :=
  t ← now;
  let fp := setTime t fp in
  f ← getFM;
  sl ← append_slice (default nil_slice (tracks f !! Track fp)) fp;
  putFM (setTracks (<[Track fp := sl]> (tracks f)) f).

Definition handleMsgBusButton (fbb : fusionBusButton) : M unit :=
  f ← getFM;
  putFM (setBusButtonCount (wrap64 (busButtonCount f + 1)) f);;
  let fme := VEnvelope "bus_button" (VBusButton fbb) in
  r ← marshal fme;
  match r with
  | None => logError "unable to marshal"
  | Some b =>
      f ← getFM;
      forM_ (subscribers f "bus_button") (deliver b)
  end.

Definition processMessage (cm : clientMessage) : M unit :=
  match cm_msg cm with
  | VSubscribe fms => handleMsgSubscribe (clientID cm) fms
  | VUnsubscribe fmu => handleMsgUnsubscribe (clientID cm) fmu
  | VPosition fp => handleMsgPosition fp
  | VBusButton fbb => handleMsgBusButton fbb
  | _ => logError "unknown message type"
  end.

(** The copy of a client that [processDebug] makes: no connection. *)
Definition debugClient (v : fusionClient) : fusionClient :=
  {| fc_id := fc_id v; fc_conn := None;
     fc_lastMessageTime := fc_lastMessageTime v; fc_userAgent := fc_userAgent v |}.

(** The body of the loop over [fm.clients], at one entry of the map. *)
Definition copyClient (kv : string * loc) : M fusionClient :=
  v ← deref (Some kv.2);
  mret (debugClient v).

(** The copy of a track that [processDebug] makes: [make], then [copy]. *)
Definition debugTrack (v : slice) : M slice :=
  newTrack ← make_slice (len v);
  copy_slice newTrack v;;
  mret newTrack.

(** The maps are walked in the order of [map_to_list]; Go leaves the order
    open, and nothing below depends on it. The result is what is sent on
    the channel of the request. *)
Definition processDebug : M fusionManagerDebug :=
  f ← getFM;
  cs ← mapM copyClient (map_to_list (clients f));
  ts ← mapM (λ kv, debugTrack kv.2) (map_to_list (tracks f));
  mret {| dbg_clients := cs; dbg_tracks := ts; dbg_busButtonCount := busButtonCount f |}.

(** One pass of the loop of [run]. *)
Definition run (r : received) : M (option fusionManagerDebug) :=
  match r with
  | RecvAddClient c => processAddClient c;; mret None
  | RecvRemoveClient clientID => processRemoveClient clientID;; mret None
  | RecvClientMsg cm => processMessage cm;; mret None
  | RecvServerMsg sm => processServerMessage sm;; mret None
  | RecvDebug => d ← processDebug; mret (Some d)
  end.

(** [sendToTopic], up to its send on [fm.serverMsg]: the message sent. *)
Definition sendToTopic (topic : string) (msg : value) : serverMessage :=
  {| topic := topic; sm_msg := msg |}.

(** [handleETA], the callback of the ETA manager. *)
Definition handleETA (eta : nat) : serverMessage :=
  let fme := VEnvelope "eta" (VOpaque eta) in
  sendToTopic "eta" fme.

(** One pass of the loop of [handleClient], up to its send. *)
Definition handleClient (client : loc) (fr : frame) : M sending :=
  match fr with
  | FrReadError unexpected =>
      (if unexpected then logError "unable to get reader" else mret tt);;
      c ← deref (Some client);
      mret (SendRemoveClient (fc_id c))
  | FrBadEnvelope =>
      c ← deref (Some client);
      t ← now;
      putObject client (setLastMessageTime t c);;
      logError "unable to decode message";;
      mret SendNothing
  | FrEnvelope messageType message =>
      c ← deref (Some client);
      t ← now;
      putObject client (setLastMessageTime t c);;
      if decide (messageType = "subscribe") then
        match asSubscribe message with
        | None => logError "unable to decode fusionMessageSubscribe";; mret SendNothing
        | Some fms => mret (SendClientMsg {| clientID := fc_id c; cm_msg := VSubscribe fms |})
        end
      else if decide (messageType = "unsubscribe") then
        match asUnsubscribe message with
        | None => logError "unable to decode fusionMessageUnsubscribe";; mret SendNothing
        | Some fmu => mret (SendClientMsg {| clientID := fc_id c; cm_msg := VUnsubscribe fmu |})
        end
      else if decide (messageType = "position") then
        match asPosition message with
        | None => logError "unable to decode fusionPosition";; mret SendNothing
        | Some fp =>
            t ← now;
            mret (SendClientMsg {| clientID := fc_id c; cm_msg := VPosition (setTime t fp) |})
        end
      else if decide (messageType = "bus_button") then
        match asBusButton message with
        | None => logError "unable to decode fusionBusButton";; mret SendNothing
        | Some fbb => mret (SendClientMsg {| clientID := fc_id c; cm_msg := VBusButton fbb |})
        end
      else
        logWarn "unknown message type";; mret SendNothing
  end.

(** [webSocketHandler] once the upgrade gave [conn] and [uuid.NewV1] gave
    [u1]: the new client object, which is then sent on [fm.addClient]. *)
Definition webSocketHandler (conn : Conn) (u1 userAgent : string) : M loc :=
  t ← now;
  s ← get;
  let c := fresh (dom (objects s)) in
  putObject c {| fc_id := u1; fc_conn := Some conn; fc_lastMessageTime := t;
                 fc_userAgent := userAgent |};;
  mret c.

End Manager.

(** ** Observations *)

(** What happened between two states of one run. *)
Definition since (s s' : state) : list event :=
  drop (length (trace s)) (trace s').

(** The write attempts of a piece of trace, in order. *)
Definition writes (tr : list event) : list (Conn * bytes) :=
  omap (λ e, match e with EvWrite c b => Some (c, b) | _ => None end) tr.

(** The values [json.Marshal] was called on. *)
Definition marshals (tr : list event) : list value :=
  omap (λ e, match e with EvMarshal v => Some v | _ => None end) tr.

(** What was written on one connection. *)
Definition writes_on (c : Conn) (tr : list event) : list bytes :=
  (filter (λ w, w.1 = c) (writes tr)).*2.

(** [fm.clients[clientID].conn], when nothing on the way is nil. *)
Definition connOf (s : state) (clientID : string) : option Conn :=
  l ← clients (fm s) !! clientID; c ← objects s !! l; fc_conn c.

(** The writes that deliver [b] to the clients [ids], in order. *)
Definition fanout (s : state) (b : bytes) (ids : list string) : list (Conn * bytes) :=
  omap (λ clientID, c ← connOf s clientID; Some (c, b)) ids.

(** The positions of a track: the elements of [fm.tracks[track]]. *)
Definition positions (s : state) (track : string) : list fusionPosition :=
  elements_of s (default nil_slice (tracks (fm s) !! track)).

(** ** Messages, and what they leave *)

(** The receipt times of [fps], handled one after the other from the
    [n]-th reading of the clock on. *)
Fixpoint stamped (env : environment) (n : nat) (fps : list fusionPosition) :
    list fusionPosition :=
  match fps with
  | [] => []
  | fp :: fps' => setTime (time_Now env n) fp :: stamped env (S n) fps'
  end.

(** The warning of [handleMsgUnsubscribe]. *)
Definition unsubscribe_warning : event :=
  EvLog LvlWarn "client requested unsubscribe from topic it's not subscribed to".

(** The envelope that [handleMsgBusButton] marshals, and the broadcast it
    amounts to. *)
Definition busButtonEnvelope (fbb : fusionBusButton) : value :=
  VEnvelope "bus_button" (VBusButton fbb).

Definition busButtonMessage (fbb : fusionBusButton) : serverMessage :=
  {| topic := "bus_button"; sm_msg := busButtonEnvelope fbb |}.

(** Bus-button messages of clients, as [run] receives them. *)
Definition busButtonEvents (evs : list (string * fusionBusButton)) : list received :=
  (λ e, RecvClientMsg {| clientID := e.1; cm_msg := VBusButton e.2 |}) <$> evs.

(** The writes of the broadcast of [v] to [topic], when it marshals. *)
Definition broadcastWrites (env : environment) (s : state) (topic : string)
    (v : value) : list (Conn * bytes) :=
  match json_Marshal env v with
  | Some b => fanout s b (subscribers (fm s) topic)
  | None => []
  end.

(** Position messages of clients, as [run] receives them. *)
Definition positionEvents (evs : list (string * fusionPosition)) : list received :=
  (λ e, RecvClientMsg {| clientID := e.1; cm_msg := VPosition e.2 |}) <$> evs.

(** ** Properties of states *)

(** No topic lists a client twice. *)
Definition subs_nodup (f : fusionManager) : Prop :=
  map_Forall (λ _ subs, NoDup subs) (subscriptions f).

(** Every subscriber of [topic] is registered and has a connection. *)
Definition wired (s : state) (topic : string) : Prop :=
  Forall (λ clientID, is_Some (connOf s clientID)) (subscribers (fm s) topic).

(** Every subscriber of every topic is a key of the registry. *)
Definition subs_registered (f : fusionManager) : Prop :=
  map_Forall (λ _ subs, Forall (λ clientID, is_Some (clients f !! clientID)) subs)
             (subscriptions f).

(** Two registered clients do not share a connection. *)
Definition conns_distinct (s : state) : Prop :=
  map_Forall (λ id1 _,
    map_Forall (λ id2 _,
      is_Some (connOf s id1) → connOf s id1 = connOf s id2 → id1 = id2)
      (clients (fm s)))
    (clients (fm s)).

(** Every pointer of the registry points to a client object. *)
Definition registry_ok (s : state) : Prop :=
  map_Forall (λ _ l, is_Some (objects s !! l)) (clients (fm s)).

(** A slice that is not nil, over an array of its capacity. *)
Definition slice_ok (s : state) (sl : slice) : Prop :=
  from_option (λ arr, length arr = cap sl ∧ (len sl ≤ cap sl)%nat) False
              (ptr sl ≫= (λ l, arrays s !! l)).

#[export] Instance slice_ok_dec s sl : Decision (slice_ok s sl).
Proof. unfold slice_ok. destruct (ptr sl ≫= _); simpl; apply _. Defined.

(** Every track is such a slice. *)
Definition tracks_ok (s : state) : Prop :=
  map_Forall (λ _ sl, slice_ok s sl) (tracks (fm s)).

(** No two tracks share an array. *)
Definition tracks_apart (s : state) : Prop :=
  map_Forall (λ k1 sl1,
    map_Forall (λ k2 sl2, ptr sl1 = ptr sl2 → k1 = k2) (tracks (fm s)))
    (tracks (fm s)).

(** The tracks are slices, each over an array of its own. *)
Definition tracks_wf (s : state) : Prop := tracks_ok s ∧ tracks_apart s.

(** No location of [held] is the array of a track, and each holds an array. *)
Definition apart (held : list loc) (s : state) : Prop :=
  Forall (λ l, is_Some (arrays s !! l)) held ∧
  map_Forall (λ _ sl, Forall (λ l, ptr sl ≠ Some l) held) (tracks (fm s)).

(** ** The specification's removal *)

(** Swap-delete, as the specification names the removal from a subscriber
    list: the last element takes the place of the removed one and the
    list gets shorter by one. *)
Definition swap_delete (i : nat) (subs : list string) : list string :=
  match last subs with
  | Some x => take (length subs - 1) (<[i := x]> subs)
  | None => subs
  end.

(** ** The goroutines *)

(** A goroutine that talks to the manager about one client object: the
    handler of the connection, blocked in its send on [fm.addClient]; the
    reader in [NextReader]; the reader blocked in a send on [fm.clientMsg];
    the reader blocked in its last send, on [fm.removeClient]. *)
Inductive goroutine :=
| Connecting
| Reading
| Sending (cm : clientMessage)
| Closing (clientID : string).

Record system := { machine : state; routines : gmap loc goroutine }.

(** The manager has just been made: no client, no goroutine but [run]. *)
Definition boot : system := {| machine := initial; routines := ∅ |}.

(** What can happen next: a connection is upgraded and its handler runs up
    to its send; the reader of a client gets a frame and runs one pass up
    to its send; [run] receives what the goroutine of a client is sending;
    [run] receives from [fm.serverMsg]; [run] receives from [fm.debug]. *)
Inductive action :=
| ActUpgrade (conn : Conn) (u1 userAgent : string)
| ActRead (client : loc) (fr : frame)
| ActReceive (client : loc)
| ActServer (sm : serverMessage)
| ActDebug.

(** [uuid.NewV1] gives an identifier, and the upgrade a connection, that no
    client object has. *)
Definition unused (s : state) (conn : Conn) (u1 : string) : Prop :=
  map_Forall (λ _ c, fc_id c ≠ u1 ∧ fc_conn c ≠ Some conn) (objects s).

(** Where a pass of the reader leaves the reader. *)
Definition afterSending (snd : sending) : goroutine :=
  match snd with
  | SendNothing => Reading
  | SendClientMsg cm => Sending cm
  | SendRemoveClient clientID => Closing clientID
  end.

Section System.

Context (env : environment).

(** The manager handles one message and goes back to its [select]; a panic
    ends the process. *)
Definition received_by_run (r : received) (sys : system)
    (after : gmap loc goroutine) : option system :=
  match run env r (machine sys) with
  | Done _ s' => Some {| machine := s'; routines := after |}
  | Panic _ _ => None
  end.

(** One step of the system; [None] when the action cannot happen in [sys]
    or ends the process. *)
Definition step (a : action) (sys : system) : option system :=
  match a with
  | ActUpgrade conn u1 userAgent =>
      if decide (unused (machine sys) conn u1) then
        match webSocketHandler env conn u1 userAgent (machine sys) with
        | Done c s' => Some {| machine := s'; routines := <[c := Connecting]> (routines sys) |}
        | Panic _ _ => None
        end
      else None
  | ActRead client fr =>
      match routines sys !! client with
      | Some Reading =>
          match handleClient env client fr (machine sys) with
          | Done snd s' =>
              Some {| machine := s'; routines := <[client := afterSending snd]> (routines sys) |}
          | Panic _ _ => None
          end
      | _ => None
      end
  | ActReceive client =>
      match routines sys !! client with
      | Some Connecting =>
          received_by_run (RecvAddClient client) sys (<[client := Reading]> (routines sys))
      | Some (Sending cm) =>
          received_by_run (RecvClientMsg cm) sys (<[client := Reading]> (routines sys))
      | Some (Closing clientID) =>
          received_by_run (RecvRemoveClient clientID) sys (delete client (routines sys))
      | _ => None
      end
  | ActServer sm => received_by_run (RecvServerMsg sm) sys (routines sys)
  | ActDebug => received_by_run RecvDebug sys (routines sys)
  end.

(** A schedule: the actions happen one after the other. *)
Fixpoint exec (acts : list action) (sys : system) : option system :=
  match acts with
  | [] => Some sys
  | a :: acts' => step a sys ≫= exec acts'
  end.

(** The states of the system that some schedule leads to. *)
Inductive reachable : system → Prop :=
| reachable_boot : reachable boot
| reachable_step sys a sys' :
    reachable sys → step a sys = Some sys' → reachable sys'.

(** The manager handles a sequence of messages; a panic ends it. *)
Fixpoint runs (rs : list received) : M unit :=
  match rs with
  | [] => mret tt
  | r :: rs' => run env r;; runs rs'
  end.

End System.

(** ** Invariants and what the proofs speak of *)

(** What the state of a goroutine says of its client object. *)
Definition attached (C : gmap string loc) (l : loc) (c : fusionClient)
    (g : goroutine) : Prop :=
  match g with
  | Connecting => True
  | Reading => C !! fc_id c = Some l
  | Sending cm => C !! fc_id c = Some l ∧ clientID cm = fc_id c
  | Closing clientID => C !! fc_id c = Some l ∧ clientID = fc_id c
  end.

(** The invariant that ties the subscriptions [S], the registry [C], the
    client objects [O] and the goroutines [R] together. *)
Record reg_inv (S : gmap string (list string)) (C : gmap string loc)
    (O : gmap loc fusionClient) (R : gmap loc goroutine) : Prop := {
  inv_nodup : map_Forall (λ _ subs, NoDup subs) S;
  inv_subs : map_Forall (λ _ subs, Forall (λ clientID, is_Some (C !! clientID)) subs) S;
  inv_registry : ∀ clientID l, C !! clientID = Some l →
    ∃ c g, O !! l = Some c ∧ fc_id c = clientID ∧ R !! l = Some g ∧ g ≠ Connecting;
  inv_routines : ∀ l g, R !! l = Some g → ∃ c, O !! l = Some c ∧ attached C l c g;
  inv_conn : ∀ l c, O !! l = Some c → is_Some (fc_conn c);
  inv_unique : ∀ l1 l2 c1 c2, O !! l1 = Some c1 → O !! l2 = Some c2 →
    fc_id c1 = fc_id c2 ∨ fc_conn c1 = fc_conn c2 → l1 = l2
}.

(** The invariant of the system: the registry invariant on the parts of
    its state, and tracks that are slices of their own arrays. *)
Definition sys_inv (sys : system) : Prop :=
  reg_inv (subscriptions (fm (machine sys))) (clients (fm (machine sys)))
          (objects (machine sys)) (routines sys) ∧
  tracks_wf (machine sys).

(** What the reader of the client at [c] may be sending. *)
Definition sent_by (c : fusionClient) (snd : sending) : Prop :=
  match snd with
  | SendNothing => True
  | SendClientMsg cm => clientID cm = fc_id c
  | SendRemoveClient clientID => clientID = fc_id c
  end.

(** The client object at [l], with identifier [clientID] and connection
    [conn], has left the system: nothing is registered under its
    identifier and no goroutine runs for it. *)
Definition retired (l : loc) (clientID : string) (conn : Conn) (sys : system) : Prop :=
  clients (fm (machine sys)) !! clientID = None ∧
  routines sys !! l = None ∧
  ∃ c, objects (machine sys) !! l = Some c ∧ fc_id c = clientID ∧ fc_conn c = Some conn.

(** The passes of [run] that handle a position. *)
Definition is_position (r : received) : bool :=
  match r with
  | RecvClientMsg cm => match cm_msg cm with VPosition _ => true | _ => false end
  | _ => false
  end.

(** The subscriptions and the registry after a pass of [run]. *)
Definition subscriptions_after (r : received) (f : fusionManager) :
    gmap string (list string) :=
  match r with
  | RecvRemoveClient clientID => afterCut clientID <$> subscriptions f
  | RecvClientMsg cm =>
      match cm_msg cm with
      | VSubscribe fms =>
          if decide (clientID cm ∈ subscribers f (fms_Topic fms)) then subscriptions f
          else <[fms_Topic fms := subscribers f (fms_Topic fms) ++ [clientID cm]]>
                 (subscriptions f)
      | VUnsubscribe fmu =>
          if decide (clientID cm ∈ subscribers f (fmu_Topic fmu))
          then <[fmu_Topic fmu := afterCut (clientID cm) (subscribers f (fmu_Topic fmu))]>
                 (subscriptions f)
          else subscriptions f
      | _ => subscriptions f
      end
  | _ => subscriptions f
  end.

Definition clients_after (r : received) (s : state) : gmap string loc :=
  match r with
  | RecvAddClient c =>
      match objects s !! c with
      | Some cl => <[fc_id cl := c]> (clients (fm s))
      | None => clients (fm s)
      end
  | RecvRemoveClient clientID => delete clientID (clients (fm s))
  | _ => clients (fm s)
  end.

(** What a copy of a track has to do with the track, between the state
    before the copies and the arrays after them. *)
Definition copied (s : state) (a : gmap loc (list fusionPosition))
    (v t : slice) : Prop :=
  ∃ l arr, ptr t = Some l ∧ len t = len v ∧ cap t = len v ∧
           arrays s !! l = None ∧ a !! l = Some arr ∧
           (slice_ok s v → arr = elements_of s v).

(** The array of a copy, when the copy was made of a well-formed track. *)
Definition copy_of (s s' : state) (v t : slice) : Prop :=
  ∃ l, ptr t = Some l ∧ len t = len v ∧
       arrays s !! l = None ∧ is_Some (arrays s' !! l) ∧
       elements_of s' t = elements_of s v.

(** ** An example run *)

(** An environment: marshalling fails on the bare opaque value, writes on
    connection 1 fail, the clock starts at 1000, and [append] doubles. *)
Definition example_env : environment := {|
  json_Marshal := λ v,
    match v with
    | VOpaque _ => None
    | _ => Some [Init.Byte.x7b; Init.Byte.x7d]
    end;
  conn_WriteMessage := λ _ c _, bool_decide (c = 1%nat);
  time_Now := λ n, (1000 + Z.of_nat n)%Z;
  growslice := λ old _, (2 * old)%nat
|}.

Definition example_subscribe (topic : string) : frame :=
  FrEnvelope "subscribe"
    {| asSubscribe := Some {| fms_Topic := topic |}; asUnsubscribe := None;
       asPosition := None; asBusButton := None |}.

Definition example_position (track : string) (lat lon clientTime : Z) : fusionPosition :=
  {| Latitude := lat; Longitude := lon; Speed := None; Heading := None;
     Track := track; Time_ := clientTime |}.

Definition example_frame (fp : fusionPosition) : frame :=
  FrEnvelope "position"
    {| asSubscribe := None; asUnsubscribe := None;
       asPosition := Some fp; asBusButton := None |}.

(** Three clients connect; all subscribe to "eta", the first two also to
    "bus_button"; the third reports two positions of one track. *)
Definition example_actions : list action :=
  [ ActUpgrade 1%nat "u1" "agent one"; ActReceive 0%nat;
    ActUpgrade 2%nat "u2" "agent two"; ActReceive 1%nat;
    ActUpgrade 3%nat "u3" "agent three"; ActReceive 2%nat;
    ActRead 0%nat (example_subscribe "eta"); ActReceive 0%nat;
    ActRead 1%nat (example_subscribe "eta"); ActReceive 1%nat;
    ActRead 2%nat (example_subscribe "eta"); ActReceive 2%nat;
    ActRead 0%nat (example_subscribe "bus_button"); ActReceive 0%nat;
    ActRead 1%nat (example_subscribe "bus_button"); ActReceive 1%nat;
    ActRead 2%nat (example_frame (example_position "t1" 42 73 0)); ActReceive 2%nat;
    ActRead 2%nat (example_frame (example_position "t1" 43 74 5)); ActReceive 2%nat ].

Definition example_system : system :=
  default boot (exec example_env example_actions boot).

Definition example_state : state := machine example_system.

(** The same system once the reader of the first client has met a read
    error and is about to send its last message. *)
Definition example_closing : system :=
  default boot (exec example_env [ActRead 0%nat (FrReadError true)] example_system).

Definition example_button : fusionBusButton :=
  {| fbb_Latitude := 42; fbb_Longitude := 73 |}.

(** A broadcast to the subscribers of "bus_button". *)
Definition example_message : serverMessage :=
  {| topic := "bus_button"; sm_msg := VEnvelope "bus_button" (VBusButton example_button) |}.

(** ** The HTTP handlers *)

(** What a handler does to its [http.ResponseWriter]: a write by
    [fmt.Fprint] or [fmt.Fprintf] (the text), [w.Header().Set], an [Encode]
    of the tracks by a [json.Encoder] on [w], [http.Error] (the status
    code; the message is the text of the error at hand). *)
Inductive call :=
| Fprint (text : string)
| HeaderSet (key val : string)
| Encode (v : list (list fusionPosition))
| HttpError (code : nat).

(** What the handlers do not decide: whether a write or an encoding on [w]
    returns an error, given the calls made on [w] before it, and the text
    of [Time.Format(time.RFC3339)]. *)
Record httpEnvironment := {
  Fprint_err : list call → string → bool;
  Encode_err : list call → list (list fusionPosition) → bool;
  time_Format : Time → string
}.

(** The code of a handler: code of the package that also calls [w]. *)
Definition W (A : Type) : Type := list call → M (A * list call).

#[export] Instance W_ret : MRet W := λ A a w s, Done (a, w) s.

#[export] Instance W_bind : MBind W := λ A B f m w s,
  match m w s with
  | Done aw s' => f aw.1 aw.2 s'
  | Panic why s' => Panic why s'
  end.

Definition lift {A} (m : M A) : W A := λ w s,
  match m s with
  | Done a s' => Done (a, w) s'
  | Panic why s' => Panic why s'
  end.

Definition StatusInternalServerError : nat := 500.

Definition LF : string := String "010"%char "".

Definition TAB : string := String "009"%char "".

(** [debugInfo]: the request goes to [run] on [fm.debug], and [run] answers
    it on the channel of the request with the snapshot of [processDebug]. *)
Definition debugInfo : M fusionManagerDebug := processDebug.

Section Http.

Context (env : environment) (henv : httpEnvironment).

(** [fmt.Fprint(w, text)] and [fmt.Fprintf(w, ...)] with [text] the
    formatted text; the result tells whether the write returned an error. *)
Definition fprint (text : string) : W bool := λ w s,
  Done (Fprint_err henv w text, w ++ [Fprint text]) s.

(** [w.Header().Set(key, val)] *)
Definition headerSet (key val : string) : W unit := λ w s,
  Done (tt, w ++ [HeaderSet key val]) s.

(** [enc.Encode(v)] for an encoder on [w]. *)
Definition encode (v : list (list fusionPosition)) : W bool := λ w s,
  Done (Encode_err henv w v, w ++ [Encode v]) s.

(** [http.Error(w, err.Error(), code)] *)
Definition httpError (code : nat) : W unit := λ w s,
  Done (tt, w ++ [HttpError code]) s.

(** The line of a client in the debug page. *)
Definition clientLine (client : fusionClient) : string :=
  time_Format henv (fc_lastMessageTime client) +:+ TAB +:+ fc_userAgent client +:+ LF.

(** The loop of [debugHandler] over [fmDebug.clients]. *)
Fixpoint writeClients (cs : list fusionClient) : W unit :=
  match cs with
  | [] => mret tt
  | client :: cs' =>
      err ← fprint (clientLine client);
      if err : bool then lift (logError "unable to write response")
      else writeClients cs'
  end.

(** [numPositions], as the loop over [fmDebug.tracks] adds it up. Lengths
    of slices are far from the bounds of [int]. *)
Definition numPositions (ts : list slice) : nat :=
  foldl (λ n track, n + len track)%nat 0%nat ts.

Definition debugHandler : W unit :=
  err ← fprint ("fusionManager debug" +:+ LF +:+ LF);
  if err : bool then lift (logError "unable to write response") else
  fmDebug ← lift debugInfo;
  err ← fprint (pretty (length (dbg_tracks fmDebug)) +:+ " tracks" +:+ LF);
  if err : bool then lift (logError "unable to write response") else
  err ← fprint (pretty (numPositions (dbg_tracks fmDebug)) +:+ " positions" +:+ LF);
  if err : bool then lift (logError "unable to write response") else
  err ← fprint (pretty (dbg_busButtonCount fmDebug) +:+ " bus buttons" +:+ LF +:+ LF);
  if err : bool then lift (logError "unable to write response") else
  err ← fprint (pretty (length (dbg_clients fmDebug)) +:+ " clients:" +:+ LF);
  if err : bool then lift (logError "unable to write response") else
  writeClients (dbg_clients fmDebug).

(** The encoder reads the positions through the slices of the snapshot. *)
Definition exportHandler : W unit :=
  headerSet "Content-Type" "application/json";;
  fmDebug ← lift debugInfo;
  s ← lift get;
  err ← encode (elements_of s <$> dbg_tracks fmDebug);
  if err : bool then
    lift (logError "unable to encode");;
    httpError StatusInternalServerError
  else mret tt.

(** The whole of [webSocketHandler], from what [upgrader.Upgrade] and
    [uuid.NewV1] give ([None]: an error) and from [r.UserAgent()]; the
    result is the client that is sent on [fm.addClient], if any. *)
Definition webSocketHandler_request (upgrade : option Conn) (newV1 : option string)
    (userAgent : string) : W (option loc) :=
  match upgrade with
  | None =>
      lift (logError "unable to upgrade connection");;
      httpError StatusInternalServerError;;
      mret None
  | Some conn =>
      match newV1 with
      | None =>
          lift (logError "unable to generate UUID");;
          httpError StatusInternalServerError;;
          mret None
      | Some u1 =>
          c ← lift (webSocketHandler env conn u1 userAgent);
          mret (Some c)
      end
  end.

End Http.

(** ** What the further properties speak of *)

(** [processRemoveClient] when the loop over [fm.subscriptions] meets the
    topics in the order of [order]. *)
Definition processRemoveClient_in (order : list (string * list string))
    (clientID : string) : M unit :=
  f ← getFM;
  putFM (setSubscriptions
           (foldl (λ m kv, dropSubscriber clientID kv.1 kv.2 m) (subscriptions f) order) f);;
  f ← getFM;
  putFM (setClients (delete clientID (clients f)) f).

(** The messages of clients that [processMessage] has a case for. *)
Definition handled (v : value) : bool :=
  match v with
  | VSubscribe _ | VUnsubscribe _ | VPosition _ | VBusButton _ => true
  | _ => false
  end.

(** The passes of [run] that reach a delivery loop. *)
Definition is_broadcast (r : received) : bool :=
  match r with
  | RecvServerMsg _ => true
  | RecvClientMsg cm => match cm_msg cm with VBusButton _ => true | _ => false end
  | _ => false
  end.

(** The client a pass of [run] is about, if any. *)
Definition subject (r : received) : option string :=
  match r with
  | RecvRemoveClient clientID => Some clientID
  | RecvClientMsg cm => Some (clientID cm)
  | _ => None
  end.

(** What a delivery loop over [ids] may add to the trace. *)
Definition delivery_event (s : state) (b : bytes) (ids : list string) (e : event) : Prop :=
  (∃ clientID c, clientID ∈ ids ∧ connOf s clientID = Some c ∧ e = EvWrite c b) ∨
  e = EvLog LvlError "unable to write".

(** The example system with a fourth client that is connected and not yet
    registered. *)
Definition example_connecting : system :=
  default boot (exec example_env [ActUpgrade 4%nat "u4" "agent four"] example_system).

(** A state with a subscriber that is not registered. *)
Definition example_ghost : state :=
  final (handleMsgSubscribe "u3" {| fms_Topic := "bus_button" |}
           (final (handleMsgSubscribe "ghost" {| fms_Topic := "bus_button" |}
                     example_state))).

(** The error line of the default case of [processMessage]. *)
Definition unknown_type_error : event := EvLog LvlError "unknown message type".

(** An envelope of a type that the readers do not know. *)
Definition example_unknown : frame :=
  FrEnvelope "hello"
    {| asSubscribe := None; asUnsubscribe := None; asPosition := None;
       asBusButton := None |}.

(** The actions that can happen in [sys]: a connection and an identifier
    that are new, a frame for a reader that is reading, a receive from a
    goroutine that is sending; [run] can always receive from the server
    and the debug channels. *)
Definition enabled (a : action) (sys : system) : Prop :=
  match a with
  | ActUpgrade conn u1 _ => unused (machine sys) conn u1
  | ActRead client _ => routines sys !! client = Some Reading
  | ActReceive client => ∃ g, routines sys !! client = Some g ∧ g ≠ Reading
  | ActServer _ | ActDebug => True
  end.

(** The example state with its counter one short of the end of [uint64]. *)
Definition example_full : state :=
  setFM (setBusButtonCount (2 ^ 64 - 1) (fm example_state)) example_state.

(** The title of the debug page, and the texts that follow it for a
    snapshot. *)
Definition debugTitle : string := "fusionManager debug" +:+ LF +:+ LF.

Definition debugLines (henv : httpEnvironment) (d : fusionManagerDebug) : list string :=
  [ pretty (length (dbg_tracks d)) +:+ " tracks" +:+ LF;
    pretty (numPositions (dbg_tracks d)) +:+ " positions" +:+ LF;
    pretty (dbg_busButtonCount d) +:+ " bus buttons" +:+ LF +:+ LF;
    pretty (length (dbg_clients d)) +:+ " clients:" +:+ LF ] ++
  (clientLine henv <$> dbg_clients d).

(** Writes of [texts] on [w], one after the other, up to the first that
    returns an error: the calls on [w] after them, and whether one failed. *)
Fixpoint attempts (henv : httpEnvironment) (w : list call) (texts : list string) :
    list call * bool :=
  match texts with
  | [] => (w, false)
  | text :: texts' =>
      if Fprint_err henv w text then (w ++ [Fprint text], true)
      else attempts henv (w ++ [Fprint text]) texts'
  end.

(** The error line of [debugHandler]. *)
Definition response_error : event := EvLog LvlError "unable to write response".

(** Writers for the example: one that takes every write, one that fails at
    the third write, one whose encoder fails. *)
Definition example_henv : httpEnvironment :=
  {| Fprint_err := λ _ _, false; Encode_err := λ _ _, false;
     time_Format := λ t, pretty t |}.

Definition example_henv_short : httpEnvironment :=
  {| Fprint_err := λ w _, bool_decide (length w = 2%nat); Encode_err := λ _ _, true;
     time_Format := λ t, pretty t |}.

(** The readers only send what [processMessage] has a case for, and the
    default case has never run. *)
Definition known_inv (sys : system) : Prop :=
  (∀ l cm, routines sys !! l = Some (Sending cm) → handled (cm_msg cm) = true) ∧
  (unknown_type_error ∉ trace (machine sys)).

(** * Proofs *)

Local Open Scope nat_scope.

(** ** Subscriber lists *)

Lemma index_of_None clientID subs :
  index_of clientID subs = None ↔ clientID ∉ subs.
Proof.
  induction subs as [|x subs IH]; simpl.
  - split; [intros _; apply not_elem_of_nil | done].
  - case_decide as Hx.
    + subst. split; [done | intros []; left].
    + rewrite fmap_None, IH, not_elem_of_cons.
      split; [intros ?; split; [congruence | done] | by intros [_ ?]].
Qed.

Lemma index_of_Some clientID subs i :
  index_of clientID subs = Some i →
  ∃ l1 l2, subs = l1 ++ clientID :: l2 ∧ (clientID ∉ l1) ∧ length l1 = i ∧
           cut i subs = l1 ++ l2.
Proof.
  revert i. induction subs as [|x subs IH]; intros i; simpl; [done|].
  case_decide as Hx.
  - intros [= <-]. subst. exists [], subs. split_and!; [done | apply not_elem_of_nil | done |].
    unfold cut. simpl. by rewrite drop_0.
  - intros Hi. apply fmap_Some in Hi as (j & Hj & ->).
    destruct (IH _ Hj) as (l1 & l2 & -> & Hl1 & Hlen & Hcut).
    exists (x :: l1), l2. split_and!.
    + done.
    + rewrite not_elem_of_cons. split; [congruence | done].
    + simpl. by rewrite Hlen.
    + unfold cut in *. simpl. by rewrite Hcut.
Qed.

Lemma index_of_is_Some clientID subs :
  clientID ∈ subs → is_Some (index_of clientID subs).
Proof.
  intros Hin. destruct (index_of clientID subs) eqn:E; [eauto|].
  by apply index_of_None in E.
Qed.

Lemma without_absent clientID subs : clientID ∉ subs → without clientID subs = subs.
Proof.
  unfold without. induction subs as [|x subs IH]; [done|].
  rewrite not_elem_of_cons. intros [Hx Hs].
  rewrite filter_cons_True by congruence. by rewrite IH.
Qed.

Lemma without_split clientID l1 l2 :
  NoDup (l1 ++ clientID :: l2) →
  without clientID (l1 ++ clientID :: l2) = l1 ++ l2.
Proof.
  intros Hnd. apply NoDup_app in Hnd as (_ & Hl1 & Hnd).
  apply NoDup_cons in Hnd as [Hl2 _].
  unfold without. rewrite filter_app, filter_cons_False by naive_solver.
  fold (without clientID l1). fold (without clientID l2).
  rewrite !without_absent; [done | done |].
  intros Hin. apply (Hl1 _ Hin). left.
Qed.

Lemma afterCut_without clientID subs :
  NoDup subs → afterCut clientID subs = without clientID subs.
Proof.
  intros Hnd. unfold afterCut. destruct (index_of clientID subs) as [i|] eqn:E.
  - apply index_of_Some in E as (l1 & l2 & -> & _ & _ & ->).
    by rewrite without_split.
  - apply index_of_None in E. by rewrite without_absent.
Qed.

Lemma afterCut_sublist clientID subs : sublist (afterCut clientID subs) subs.
Proof.
  unfold afterCut. destruct (index_of clientID subs) as [i|] eqn:E; [|done].
  apply index_of_Some in E as (l1 & l2 & -> & _ & _ & ->).
  apply sublist_app; [done|]. by apply sublist_cons.
Qed.

Lemma afterCut_Forall (P : string → Prop) clientID subs :
  Forall P subs → Forall P (afterCut clientID subs).
Proof.
  unfold afterCut. destruct (index_of clientID subs) as [i|] eqn:E; [|done].
  apply index_of_Some in E as (l1 & l2 & -> & _ & _ & ->).
  rewrite !Forall_app, Forall_cons. tauto.
Qed.

Lemma afterCut_NoDup clientID subs : NoDup subs → NoDup (afterCut clientID subs).
Proof. intros Hnd. eapply sublist_NoDup; [done | apply afterCut_sublist]. Qed.

(** The loop of [processRemoveClient] over the map cuts every entry. *)
Lemma dropSubscriber_fold clientID (acc m : gmap string (list string)) topic :
  map_fold (dropSubscriber clientID) acc m !! topic =
    match m !! topic with
    | Some subs =>
        match index_of clientID subs with
        | Some i => Some (cut i subs)
        | None => acc !! topic
        end
    | None => acc !! topic
    end.
Proof.
  revert topic.
  apply (map_fold_weak_ind (λ r m', ∀ topic, r !! topic =
    match m' !! topic with
    | Some subs =>
        match index_of clientID subs with
        | Some i => Some (cut i subs)
        | None => acc !! topic
        end
    | None => acc !! topic
    end)); clear m.
  - intros topic. by rewrite lookup_empty.
  - intros k subs m r Hk IH topic. unfold dropSubscriber.
    destruct (decide (k = topic)) as [->|Hne].
    + rewrite lookup_insert_eq. specialize (IH topic). rewrite Hk in IH.
      destruct (index_of clientID subs); [by rewrite lookup_insert_eq | done].
    + rewrite (lookup_insert_ne m) by done. rewrite <- IH.
      destruct (index_of clientID subs); [by rewrite lookup_insert_ne | done].
Qed.

Lemma dropSubscriber_all clientID (m : gmap string (list string)) :
  map_fold (dropSubscriber clientID) m m = afterCut clientID <$> m.
Proof.
  apply map_eq. intros topic. rewrite dropSubscriber_fold, lookup_fmap.
  unfold afterCut. destruct (m !! topic) as [subs|]; simpl; [|done].
  by destruct (index_of clientID subs).
Qed.

(** ** Loops *)

Lemma bind_eq {A B} (m : M A) (k : A → M B) s :
  (m ≫= k) s = match m s with Done a s' => k a s' | Panic w s' => Panic w s' end.
Proof. done. Qed.

Lemma mapM_cons {A B} (body : A → M B) x l s :
  mapM body (x :: l) s =
  match body x s with
  | Done y s' =>
      match mapM body l s' with
      | Done ys s'' => Done (y :: ys) s''
      | Panic w s'' => Panic w s''
      end
  | Panic w s' => Panic w s'
  end.
Proof. done. Qed.

Lemma mapM_fmap {A B C} (f : A → B) (g : B → M C) l s :
  mapM (λ x, g (f x)) l s = mapM g (f <$> l) s.
Proof.
  revert s. induction l as [|x l IH]; intros s; [done|].
  rewrite fmap_cons, !mapM_cons. destruct (g (f x) s); [|done]. by rewrite IH.
Qed.

(** ** Traces *)

Lemma logged_logged tr1 tr2 s : logged tr2 (logged tr1 s) = logged (tr1 ++ tr2) s.
Proof. unfold logged. simpl. by rewrite app_assoc. Qed.

Lemma logged_nil s : logged [] s = s.
Proof. destruct s. unfold logged. simpl. by rewrite app_nil_r. Qed.

Lemma since_logged tr s : since s (logged tr s) = tr.
Proof. unfold since, logged. simpl. by rewrite drop_app_length. Qed.

Lemma writes_app tr1 tr2 : writes (tr1 ++ tr2) = writes tr1 ++ writes tr2.
Proof. apply omap_app. Qed.

Lemma marshals_app tr1 tr2 : marshals (tr1 ++ tr2) = marshals tr1 ++ marshals tr2.
Proof. apply omap_app. Qed.

Lemma writes_on_app c tr1 tr2 :
  writes_on c (tr1 ++ tr2) = writes_on c tr1 ++ writes_on c tr2.
Proof. unfold writes_on. by rewrite writes_app, filter_app, fmap_app. Qed.

Lemma writes_on_none conn tr :
  Forall (λ w, w.1 ≠ conn) (writes tr) → writes_on conn tr = [].
Proof.
  unfold writes_on. generalize (writes tr) as ws. intros ws Hall.
  induction Hall as [|w ws Hw _ IH]; [done|].
  by rewrite filter_cons_False.
Qed.

Lemma connOf_registered s clientID conn :
  connOf s clientID = Some conn → is_Some (clients (fm s) !! clientID).
Proof. unfold connOf. destruct (clients (fm s) !! clientID); [by eexists | done]. Qed.

(** ** The delivery loop *)

Section Delivery.

Context (env : environment).

Lemma deliver_wired b clientID s c :
  connOf s clientID = Some c →
  deliver env b clientID s = Done tt (logged (delivery env s c b) s).
Proof.
  unfold connOf, deliver, deref, delivery. intros Hc.
  unfold mbind, M_bind, getFM at 1. simpl.
  destruct (clients (fm s) !! clientID) as [l|]; simpl in *; [|done].
  destruct (objects s !! l) as [cl|]; simpl in *; [|done].
  rewrite Hc. unfold writeMessage, mbind, M_bind, get, emit, mret, M_ret. simpl.
  destruct (conn_WriteMessage env (trace s) c b); [|done].
  unfold logError, emit. by rewrite logged_logged.
Qed.

Lemma deliver_unwired b clientID s :
  connOf s clientID = None →
  deliver env b clientID s = Panic "nil pointer dereference" s.
Proof.
  unfold connOf, deliver, deref. intros Hc.
  unfold mbind, M_bind, getFM at 1. simpl.
  destruct (clients (fm s) !! clientID) as [l|]; simpl in *; [|done].
  destruct (objects s !! l) as [cl|]; simpl in *; [|done].
  by rewrite Hc.
Qed.

Lemma writes_delivery s c b : writes (delivery env s c b) = [(c, b)].
Proof. unfold delivery. by destruct (conn_WriteMessage _ _ _ _). Qed.

Lemma marshals_delivery s c b : marshals (delivery env s c b) = [].
Proof. unfold delivery. by destruct (conn_WriteMessage _ _ _ _). Qed.

(** With every client of the list connected, the loop returns, and writes
    once to each, in the order of the list, whatever the writes answer. *)
Lemma deliver_all b ids s :
  Forall (λ clientID, is_Some (connOf s clientID)) ids →
  ∃ tr, forM_ ids (deliver env b) s = Done tt (logged tr s) ∧
        writes tr = fanout s b ids ∧ marshals tr = [].
Proof.
  revert s. induction ids as [|clientID ids IH]; intros s Hall.
  - exists []. by rewrite logged_nil.
  - apply Forall_cons in Hall as [[c Hc] Hall].
    destruct (IH (logged (delivery env s c b) s)) as (tr & Hrun & Hw & Hm).
    { done. }
    exists (delivery env s c b ++ tr). split_and!.
    + simpl. unfold mbind, M_bind at 1. rewrite (deliver_wired _ _ _ c) by done.
      rewrite Hrun. by rewrite logged_logged.
    + rewrite writes_app, writes_delivery, Hw. unfold fanout. simpl.
      rewrite Hc. simpl. done.
    + by rewrite marshals_app, marshals_delivery, Hm.
Qed.

(** In any case, and up to a panic, the loop only writes to connections of
    clients of the list. *)
Lemma deliver_any b ids s :
  ∃ tr, final (forM_ ids (deliver env b) s) = logged tr s ∧
        Forall (λ w, ∃ clientID, clientID ∈ ids ∧ connOf s clientID = Some w.1) (writes tr) ∧
        marshals tr = [].
Proof.
  revert s. induction ids as [|clientID ids IH]; intros s.
  - exists []. simpl. by rewrite logged_nil.
  - simpl. unfold mbind, M_bind at 1.
    destruct (connOf s clientID) as [c|] eqn:Hc.
    + rewrite (deliver_wired _ _ _ c) by done.
      destruct (IH (logged (delivery env s c b) s)) as (tr & Hrun & Hw & Hm).
      exists (delivery env s c b ++ tr). rewrite Hrun, logged_logged. split_and!.
      * done.
      * rewrite writes_app, writes_delivery. apply Forall_app. split.
        -- apply Forall_singleton. exists clientID. split; [left | done].
        -- eapply Forall_impl; [exact Hw|]. intros w (i & Hi & Hci).
           exists i. split; [by right | done].
      * by rewrite marshals_app, marshals_delivery, Hm.
    + rewrite deliver_unwired by done. exists []. simpl. by rewrite logged_nil.
Qed.

Lemma processServerMessage_marshalled sm s b :
  json_Marshal env (sm_msg sm) = Some b →
  processServerMessage env sm s =
    forM_ (subscribers (fm s) (topic sm)) (deliver env b)
          (logged [EvMarshal (sm_msg sm)] s).
Proof.
  intros Hb. unfold processServerMessage, marshal, emit, getFM, mbind, M_bind, mret, M_ret.
  simpl. by rewrite Hb.
Qed.

Lemma processServerMessage_unmarshalled sm s :
  json_Marshal env (sm_msg sm) = None →
  processServerMessage env sm s =
    Done tt (logged [EvMarshal (sm_msg sm); EvLog LvlError "unable to marshal"] s).
Proof.
  intros Hb. unfold processServerMessage, marshal, emit, logError, emit, mbind, M_bind, mret, M_ret.
  simpl. rewrite Hb. by rewrite logged_logged.
Qed.

(** [handleMsgBusButton] is the increment followed by the code of
    [processServerMessage]. *)
Lemma handleMsgBusButton_unfold fbb s :
  handleMsgBusButton env fbb s =
    processServerMessage env
      {| topic := "bus_button"; sm_msg := VEnvelope "bus_button" (VBusButton fbb) |}
      (setFM (setBusButtonCount (wrap64 (busButtonCount (fm s) + 1)) (fm s)) s).
Proof. done. Qed.

End Delivery.

(** ** Slices *)

Section Slices.

Context (env : environment).

Lemma slice_ok_inv s sl :
  slice_ok s sl →
  ∃ l arr, ptr sl = Some l ∧ arrays s !! l = Some arr ∧
           length arr = cap sl ∧ len sl ≤ cap sl.
Proof.
  unfold slice_ok. destruct (ptr sl) as [l|]; simpl; [|done].
  destruct (arrays s !! l) as [arr|] eqn:E; simpl; [|done].
  intros [? ?]. by exists l, arr.
Qed.

Lemma slice_ok_intro s sl l arr :
  ptr sl = Some l → arrays s !! l = Some arr →
  length arr = cap sl → len sl ≤ cap sl → slice_ok s sl.
Proof. unfold slice_ok. intros -> Harr ? ?. simpl. by rewrite Harr. Qed.

Lemma elements_of_eq s sl l arr :
  ptr sl = Some l → arrays s !! l = Some arr →
  elements_of s sl = take (len sl) arr.
Proof. unfold elements_of, backing. intros -> ->. done. Qed.

Lemma elements_of_length s sl : slice_ok s sl → length (elements_of s sl) = len sl.
Proof.
  intros (l & arr & Hp & Ha & Hlen & Hle)%slice_ok_inv.
  rewrite (elements_of_eq _ _ l arr) by done. rewrite length_take. lia.
Qed.

Lemma new_array_loc_fresh s : arrays s !! new_array_loc s = None.
Proof. apply not_elem_of_dom. unfold new_array_loc. apply is_fresh. Qed.

(** [append] writes one array, the one of the slice it returns, which is
    the array of its argument or a new one; the slice it returns holds the
    elements of its argument, then the new element. *)
Lemma append_slice_spec sl x s :
  slice_ok s sl ∨ sl = nil_slice →
  ∃ l arr sl',
    append_slice env sl x s = Done sl' (setArrays (<[l := arr]> (arrays s)) s) ∧
    ptr sl' = Some l ∧ length arr = cap sl' ∧ len sl' = S (len sl) ∧
    len sl' ≤ cap sl' ∧
    take (len sl') arr = elements_of s sl ++ [x] ∧
    (ptr sl = Some l ∨ arrays s !! l = None).
Proof.
  intros Hsl. unfold append_slice, mbind, M_bind, get, putArray, mret, M_ret. simpl.
  case_decide as Hcap.
  - destruct Hsl as [Hok| ->]; [|simpl in Hcap; lia].
    apply slice_ok_inv in Hok as (l & arr & Hp & Ha & Hlen & Hle).
    rewrite Hp. unfold backing. rewrite Hp, Ha. simpl.
    eexists l, _, _. split; [reflexivity|]. simpl. split_and!.
    + done.
    + by rewrite length_insert.
    + done.
    + lia.
    + rewrite (elements_of_eq _ _ l arr) by done.
      destruct (lookup_lt_is_Some_2 arr (len sl)) as [y Hy]; [lia|].
      rewrite (take_S_r _ _ x).
      * by rewrite take_insert_ge by lia.
      * apply list_lookup_insert_eq. lia.
    + by left.
  - eexists (new_array_loc s), _, _. split; [reflexivity|]. simpl.
    assert (length (elements_of s sl) = len sl) as Hlen.
    { destruct Hsl as [Hok| ->]; [by apply elements_of_length | done]. }
    split_and!.
    + done.
    + rewrite length_app. simpl. rewrite length_replicate, Hlen. lia.
    + done.
    + lia.
    + rewrite <- Hlen at 1. rewrite (cons_middle x), app_assoc.
      replace (S (length (elements_of s sl))) with (length (elements_of s sl ++ [x])).
      * by rewrite take_app_length.
      * rewrite length_app. simpl. lia.
    + right. apply new_array_loc_fresh.
Qed.

End Slices.

(** ** Positions *)

Section Positions.

Context (env : environment).

Lemma tracks_ok_lookup s k sl :
  tracks_ok s → tracks (fm s) !! k = Some sl → slice_ok s sl.
Proof. intros Hok Hk. exact (Hok k sl Hk). Qed.

Lemma tracks_apart_lookup s k1 k2 sl1 sl2 :
  tracks_apart s →
  tracks (fm s) !! k1 = Some sl1 → tracks (fm s) !! k2 = Some sl2 →
  ptr sl1 = ptr sl2 → k1 = k2.
Proof. intros Hap H1 H2. exact (Hap k1 sl1 H1 k2 sl2 H2). Qed.

Lemma tracks_wf_initial : tracks_wf initial.
Proof. split; apply map_Forall_empty. Qed.

Lemma track_slice_ok s k :
  tracks_ok s →
  slice_ok s (default nil_slice (tracks (fm s) !! k)) ∨
  default nil_slice (tracks (fm s) !! k) = nil_slice.
Proof.
  intros Hok. destruct (tracks (fm s) !! k) as [sl|] eqn:E; simpl.
  - left. by eapply tracks_ok_lookup.
  - by right.
Qed.

(** One position: the clock is read once, the track of the position gets
    the position with that reading at its end, and no other track changes. *)
Lemma handleMsgPosition_spec fp s :
  tracks_wf s →
  ∃ s', handleMsgPosition env fp s = Done tt s' ∧
        tracks_wf s' ∧
        positions s' (Track fp) =
          positions s (Track fp) ++ [setTime (time_Now env (ticks s)) fp] ∧
        (∀ k, k ≠ Track fp → positions s' k = positions s k) ∧
        ticks s' = S (ticks s) ∧ trace s' = trace s ∧ objects s' = objects s ∧
        subscriptions (fm s') = subscriptions (fm s) ∧
        clients (fm s') = clients (fm s) ∧
        busButtonCount (fm s') = busButtonCount (fm s) ∧
        dom (tracks (fm s')) = {[Track fp]} ∪ dom (tracks (fm s)).
Proof.
  intros [Hok Hap].
  set (fp' := setTime (time_Now env (ticks s)) fp).
  set (sl := default nil_slice (tracks (fm s) !! Track fp)).
  destruct (append_slice_spec env sl fp' (ticked s))
    as (l & arr & sl' & Happ & Hp & Hlen & Hl & Hle & Htake & Hwhere).
  { apply (track_slice_ok s (Track fp) Hok). }
  eexists. split.
  { unfold handleMsgPosition, now, tick, mbind, M_bind, getFM, mret, M_ret. simpl.
    fold fp' sl. rewrite Happ. unfold putFM. reflexivity. }
  simpl.
  assert (∀ k sl2, k ≠ Track fp → tracks (fm s) !! k = Some sl2 → ptr sl2 ≠ Some l)
    as Hother.
  { intros k sl2 Hk Hsl2 Heq.
    pose proof (tracks_ok_lookup _ _ _ Hok Hsl2) as (l2 & arr2 & Hp2 & Ha2 & _)%slice_ok_inv.
    destruct Hwhere as [Hsame|Hfresh].
    - unfold sl in Hsame. destruct (tracks (fm s) !! Track fp) as [sl1|] eqn:E1; [|done].
      simpl in Hsame. apply Hk.
      eapply (tracks_apart_lookup s k (Track fp)); [done | done | done | congruence].
    - simpl in Hfresh. congruence. }
  split_and!; try done.
  - split.
    + intros k sl2. simpl. destruct (decide (k = Track fp)) as [->|Hk].
      * rewrite lookup_insert_eq. intros [= <-].
        apply (slice_ok_intro _ _ l arr); simpl; [done | by rewrite lookup_insert_eq | done | done].
      * rewrite lookup_insert_ne by done. intros Hsl2.
        pose proof (tracks_ok_lookup _ _ _ Hok Hsl2) as (l2 & arr2 & Hp2 & Ha2 & ? & ?)%slice_ok_inv.
        apply (slice_ok_intro _ _ l2 arr2); simpl; [done | | done | done].
        rewrite lookup_insert_ne; [done|]. intros ->. by apply (Hother k sl2).
    + intros k1 sl1 H1 k2 sl2 H2 Hpp. simpl in H1, H2.
      destruct (decide (k1 = Track fp)) as [->|Hk1];
        destruct (decide (k2 = Track fp)) as [->|Hk2]; [done | | |].
      * rewrite lookup_insert_eq in H1. rewrite lookup_insert_ne in H2 by done.
        injection H1 as <-. exfalso. apply (Hother k2 sl2); [done | done | congruence].
      * rewrite lookup_insert_eq in H2. rewrite lookup_insert_ne in H1 by done.
        injection H2 as <-. exfalso. apply (Hother k1 sl1); [done | done | congruence].
      * rewrite lookup_insert_ne in H1, H2 by done. by eapply (tracks_apart_lookup s k1 k2).
  - unfold positions. simpl. rewrite lookup_insert_eq. simpl.
    rewrite (elements_of_eq _ _ l arr); simpl; [| done | by rewrite lookup_insert_eq].
    rewrite Htake. done.
  - intros k Hk. unfold positions. simpl. rewrite lookup_insert_ne by done.
    destruct (tracks (fm s) !! k) as [sl2|] eqn:E; simpl; [|done].
    pose proof (tracks_ok_lookup _ _ _ Hok E) as (l2 & arr2 & Hp2 & Ha2 & ? & ?)%slice_ok_inv.
    rewrite (elements_of_eq _ _ l2 arr2), (elements_of_eq s _ l2 arr2); simpl; try done.
    rewrite lookup_insert_ne; [done|]. intros ->. by apply (Hother k sl2).
  - simpl. by rewrite dom_insert_L.
Qed.

(** Positions handled one after the other: every track gets its own, in
    the order of arrival, each with the reading of the clock at its turn. *)
Lemma runs_positions evs s :
  tracks_wf s →
  ∃ s', runs env (positionEvents evs) s = Done tt s' ∧
        tracks_wf s' ∧
        ticks s' = ticks s + length evs ∧
        dom (tracks (fm s')) = list_to_set (Track <$> evs.*2) ∪ dom (tracks (fm s)) ∧
        ∀ k, positions s' k =
             positions s k ++ filter (λ p, Track p = k) (stamped env (ticks s) evs.*2).
Proof.
  revert s. induction evs as [|[clientID fp] evs IH]; intros s Hwf.
  - exists s. split_and!; [done | done | simpl; lia | simpl; by rewrite union_empty_l_L |].
    intros k. simpl. by rewrite filter_nil, app_nil_r.
  - destruct (handleMsgPosition_spec fp s Hwf)
      as (s1 & Hrun & Hwf1 & Hk & Hnk & Hticks & _ & _ & _ & _ & _ & Hdom).
    destruct (IH s1 Hwf1) as (s' & Hruns & Hwf' & Hticks' & Hdom' & Hpos).
    exists s'. split_and!.
    + simpl. unfold mbind, M_bind.
      change (processMessage env _ s) with (handleMsgPosition env fp s).
      rewrite Hrun. exact Hruns.
    + done.
    + rewrite Hticks', Hticks. simpl. lia.
    + rewrite Hdom', Hdom.
      change (list_to_set (Track <$> ((clientID, fp) :: evs).*2) : gset string)
        with ({[Track fp]} ∪ list_to_set (Track <$> evs.*2) : gset string).
      generalize (list_to_set (Track <$> evs.*2) : gset string). intros L.
      rewrite (union_comm_L {[Track fp]} L). by rewrite (assoc_L (∪)).
    + intros k. rewrite Hpos, Hticks. simpl.
      destruct (decide (Track fp = k)) as [<-|Hne].
      * rewrite Hk, filter_cons_True by done. by rewrite <- app_assoc.
      * rewrite Hnk by done. by rewrite filter_cons_False by done.
Qed.

End Positions.

(** ** What each handler does to the state *)

Section Handlers.

Context (env : environment).

Lemma setArrays_same s : setArrays (arrays s) s = s.
Proof. by destruct s. Qed.

Lemma subscribers_insert topic l m f topic' :
  subscribers (setSubscriptions (<[topic := l]> m) f) topic' =
  if decide (topic = topic') then l else default [] (m !! topic').
Proof.
  unfold subscribers. simpl. case_decide as H.
  - subst. by rewrite lookup_insert_eq.
  - by rewrite lookup_insert_ne.
Qed.

Lemma subs_nodup_subscribers f :
  subs_nodup f ↔ ∀ topic, NoDup (subscribers f topic).
Proof.
  unfold subs_nodup, subscribers. split.
  - intros H topic. destruct (subscriptions f !! topic) as [l|] eqn:E; simpl.
    + by apply (H topic).
    + constructor.
  - intros H topic l E. specialize (H topic). by rewrite E in H.
Qed.

Lemma handleMsgSubscribe_absent clientID fms s :
  clientID ∉ subscribers (fm s) (fms_Topic fms) →
  handleMsgSubscribe clientID fms s =
    Done tt (setFM (setSubscriptions
                      (<[fms_Topic fms := subscribers (fm s) (fms_Topic fms) ++ [clientID]]>
                         (subscriptions (fm s))) (fm s)) s).
Proof.
  intros H%index_of_None. unfold handleMsgSubscribe, mbind, M_bind, getFM. simpl.
  by rewrite H.
Qed.

Lemma handleMsgSubscribe_present clientID fms s :
  clientID ∈ subscribers (fm s) (fms_Topic fms) →
  handleMsgSubscribe clientID fms s = Done tt s.
Proof.
  intros [i H]%index_of_is_Some. unfold handleMsgSubscribe, mbind, M_bind, getFM. simpl.
  by rewrite H.
Qed.

Lemma handleMsgUnsubscribe_absent clientID fmu s :
  clientID ∉ subscribers (fm s) (fmu_Topic fmu) →
  handleMsgUnsubscribe clientID fmu s =
    Done tt (logged [EvLog LvlWarn
      "client requested unsubscribe from topic it's not subscribed to"] s).
Proof.
  intros H%index_of_None. unfold handleMsgUnsubscribe, mbind, M_bind, getFM. simpl.
  by rewrite H.
Qed.

Lemma handleMsgUnsubscribe_present clientID fmu s :
  clientID ∈ subscribers (fm s) (fmu_Topic fmu) →
  handleMsgUnsubscribe clientID fmu s =
    Done tt (setFM (setSubscriptions
                      (<[fmu_Topic fmu := afterCut clientID (subscribers (fm s) (fmu_Topic fmu))]>
                         (subscriptions (fm s))) (fm s)) s).
Proof.
  intros [i H]%index_of_is_Some. unfold handleMsgUnsubscribe, mbind, M_bind, getFM. simpl.
  unfold afterCut. by rewrite H.
Qed.

Lemma processRemoveClient_eq clientID s :
  processRemoveClient clientID s =
    Done tt (setFM (setClients (delete clientID (clients (fm s)))
                      (setSubscriptions (afterCut clientID <$> subscriptions (fm s)) (fm s))) s).
Proof.
  unfold processRemoveClient, mbind, M_bind, getFM, putFM. simpl.
  by rewrite dropSubscriber_all.
Qed.

Lemma processAddClient_eq client c s :
  objects s !! client = Some c →
  processAddClient client s =
    Done tt (logged [EvGo client]
               (setFM (setClients (<[fc_id c := client]> (clients (fm s))) (fm s)) s)).
Proof.
  intros H. unfold processAddClient, mbind, M_bind, deref, getFM, putFM, emit. simpl.
  by rewrite H.
Qed.

Lemma processAddClient_nil client s :
  objects s !! client = None →
  processAddClient client s = Panic "nil pointer dereference" s.
Proof.
  intros H. unfold processAddClient, mbind, M_bind, deref. simpl. by rewrite H.
Qed.

(** A broadcast changes nothing but the trace, however it ends. *)
Lemma processServerMessage_any sm s :
  ∃ tr, final (processServerMessage env sm s) = logged tr s ∧
        Forall (λ w, ∃ clientID, clientID ∈ subscribers (fm s) (topic sm) ∧
                                 connOf s clientID = Some w.1) (writes tr).
Proof.
  destruct (json_Marshal env (sm_msg sm)) as [b|] eqn:Hb.
  - rewrite (processServerMessage_marshalled _ _ _ b) by done.
    destruct (deliver_any env b (subscribers (fm s) (topic sm))
                (logged [EvMarshal (sm_msg sm)] s)) as (tr & Hfin & Hw & _).
    exists ([EvMarshal (sm_msg sm)] ++ tr). rewrite Hfin, logged_logged. split; [done|].
    rewrite writes_app. simpl. exact Hw.
  - rewrite processServerMessage_unmarshalled by done. eexists. split; [done|].
    simpl. constructor.
Qed.

(** [append], however it ends. *)
Lemma append_slice_any sl x s :
  (∃ w, append_slice env sl x s = Panic w s) ∨
  (∃ l arr sl',
     append_slice env sl x s = Done sl' (setArrays (<[l := arr]> (arrays s)) s) ∧
     ptr sl' = Some l ∧ (ptr sl = Some l ∨ arrays s !! l = None)).
Proof.
  unfold append_slice, mbind, M_bind, get, putArray, mret, M_ret, panic. simpl.
  case_decide.
  - destruct (ptr sl) as [l|] eqn:Hp.
    + right. eexists l, _, _. split; [reflexivity|]. simpl. split; [done | by left].
    + left. by eexists.
  - right. eexists _, _, _. split; [reflexivity|]. simpl.
    split; [done | right; apply new_array_loc_fresh].
Qed.

(** [handleMsgPosition], however it ends. *)
Lemma handleMsgPosition_any fp s :
  (∃ w, handleMsgPosition env fp s = Panic w (ticked s)) ∨
  (∃ l arr sl',
     handleMsgPosition env fp s =
       Done tt (setFM (setTracks (<[Track fp := sl']> (tracks (fm s))) (fm s))
                  (setArrays (<[l := arr]> (arrays s)) (ticked s))) ∧
     ptr sl' = Some l ∧
     (ptr (default nil_slice (tracks (fm s) !! Track fp)) = Some l ∨
      arrays s !! l = None)).
Proof.
  unfold handleMsgPosition, now, tick, mbind, M_bind, getFM, mret, M_ret. simpl.
  set (fp' := setTime _ fp). set (sl := default nil_slice _).
  destruct (append_slice_any sl fp' (ticked s))
    as [[w Hw] | (l & arr & sl' & Happ & Hp & Hwhere)].
  - left. exists w. by rewrite Hw.
  - right. exists l, arr, sl'. rewrite Happ. done.
Qed.

End Handlers.

(** ** The snapshot *)

Section Snapshot.

(** Arrays that stay where they are keep the slices over them. *)
Lemma elements_of_weaken s s' sl :
  arrays s ⊆ arrays s' → slice_ok s sl →
  slice_ok s' sl ∧ elements_of s' sl = elements_of s sl.
Proof.
  intros Hsub (l & arr & Hp & Ha & ? & ?)%slice_ok_inv.
  pose proof (lookup_weaken _ _ _ _ Ha Hsub) as Ha'.
  split.
  - by apply (slice_ok_intro _ _ l arr).
  - by rewrite (elements_of_eq s' _ l arr), (elements_of_eq s _ l arr).
Qed.

(** The copy of one track: a new array, filled with the elements. *)
Lemma debugTrack_eq v s :
  ∃ arr,
    debugTrack v s =
      Done {| ptr := Some (new_array_loc s); len := len v; cap := len v |}
           (setArrays (<[new_array_loc s := arr]> (arrays s)) s) ∧
    (slice_ok s v → arr = elements_of s v).
Proof.
  unfold debugTrack, make_slice, copy_slice, mbind, M_bind, get, putArray, mret, M_ret.
  simpl.
  set (s1 := setArrays (<[new_array_loc s := replicate (len v) zeroPosition]> (arrays s)) s).
  eexists. split.
  { rewrite insert_insert_eq. reflexivity. }
  assert (backing s1 {| ptr := Some (new_array_loc s); len := len v; cap := len v |}
          = replicate (len v) zeroPosition) as ->.
  { unfold backing, s1. simpl. by rewrite lookup_insert_eq. }
  rewrite Nat.min_id. intros Hok.
  destruct (elements_of_weaken s s1 v) as [_ ->]; [|done|].
  { unfold s1. simpl. apply insert_subseteq, new_array_loc_fresh. }
  rewrite drop_ge by (rewrite length_replicate; lia).
  rewrite app_nil_r. apply take_ge. rewrite elements_of_length by done. lia.
Qed.

(** The loop over the tracks: it only adds arrays, one for each track. *)
Lemma debugTracks_spec (vs : list slice) s :
  ∃ ts a,
    mapM debugTrack vs s = Done ts (setArrays a s) ∧
    arrays s ⊆ a ∧
    Forall2 (copied s a) vs ts ∧
    NoDup (ptr <$> ts).
Proof.
  revert s. induction vs as [|v vs IH]; intros s.
  - exists [], (arrays s). rewrite setArrays_same. split_and!; [done | done | constructor | constructor].
  - destruct (debugTrack_eq v s) as (arr & Hrun & Harr).
    set (s1 := setArrays (<[new_array_loc s := arr]> (arrays s)) s) in *.
    assert (arrays s ⊆ arrays s1) as Hsub.
    { unfold s1. simpl. apply insert_subseteq, new_array_loc_fresh. }
    destruct (IH s1) as (ts & a & Hruns & Hsub1 & Hall & Hnd).
    exists ({| ptr := Some (new_array_loc s); len := len v; cap := len v |} :: ts), a.
    split_and!.
    + simpl. unfold mbind, M_bind at 1. rewrite Hrun.
      unfold mbind, M_bind at 1. rewrite Hruns. done.
    + by etrans.
    + constructor.
      * exists (new_array_loc s), arr. simpl. split_and!; try done.
        -- apply new_array_loc_fresh.
        -- eapply lookup_weaken; [|exact Hsub1]. unfold s1. simpl. apply lookup_insert_eq.
      * eapply Forall2_impl; [exact Hall|]. intros v' t (l & arr' & ? & ? & ? & Hnone & ? & Hel).
        exists l, arr'. split_and!; try done.
        -- destruct (arrays s !! l) as [x|] eqn:E; [|done].
           by rewrite (lookup_weaken _ _ _ _ E Hsub) in Hnone.
        -- intros Hok. destruct (elements_of_weaken s s1 v' Hsub Hok) as [Hok1 <-].
           by apply Hel.
    + simpl. apply NoDup_cons. split; [|done].
      intros Hin. apply list_elem_of_fmap in Hin as (t & Hpt & Hin).
      apply list_elem_of_lookup in Hin as [i Hi].
      destruct (Forall2_lookup_r _ _ _ _ _ Hall Hi) as (v' & _ & (l & arr' & Hl & _ & _ & Hnone & _)).
      rewrite Hl in Hpt. injection Hpt as <-.
      unfold s1 in Hnone. simpl in Hnone. by rewrite lookup_insert_eq in Hnone.
Qed.

(** The loop over the registry: it changes nothing, and copies what is
    not the connection. *)
Lemma copyClient_eq kv s :
  copyClient kv s =
  match objects s !! kv.2 with
  | Some v => Done (debugClient v) s
  | None => Panic "nil pointer dereference" s
  end.
Proof.
  unfold copyClient, deref. rewrite bind_eq. simpl. by destruct (objects s !! kv.2).
Qed.

Lemma debugClients_spec (kvs : list (string * loc)) s :
  Forall (λ kv, is_Some (objects s !! kv.2)) kvs →
  ∃ cs,
    mapM copyClient kvs s = Done cs s ∧
    Forall2 (λ kv c, ∃ v, objects s !! kv.2 = Some v ∧ c = debugClient v) kvs cs.
Proof.
  induction kvs as [|kv kvs IH]; intros Hall.
  - exists []. split; [done | constructor].
  - apply Forall_cons in Hall as [[v Hv] Hall].
    destruct (IH Hall) as (cs & Hrun & Hcs).
    exists (debugClient v :: cs). split.
    + by rewrite mapM_cons, copyClient_eq, Hv, Hrun.
    + constructor; [by exists v | done].
Qed.

Lemma debugClients_any (kvs : list (string * loc)) s :
  final (mapM copyClient kvs s) = s.
Proof.
  induction kvs as [|kv kvs IH]; [done|].
  rewrite mapM_cons, copyClient_eq.
  destruct (objects s !! kv.2) as [v|]; [|done].
  by destruct (mapM copyClient kvs s).
Qed.

Lemma processDebug_unfold s :
  processDebug s =
  match mapM copyClient (map_to_list (clients (fm s))) s with
  | Done cs s1 =>
      match mapM debugTrack (map_to_list (tracks (fm s))).*2 s1 with
      | Done ts s2 =>
          Done {| dbg_clients := cs; dbg_tracks := ts;
                  dbg_busButtonCount := busButtonCount (fm s) |} s2
      | Panic w s2 => Panic w s2
      end
  | Panic w s1 => Panic w s1
  end.
Proof.
  unfold processDebug. rewrite bind_eq. unfold getFM at 1. rewrite bind_eq.
  destruct (mapM copyClient _ s) as [cs s1|]; [|done].
  rewrite bind_eq. by rewrite (mapM_fmap snd debugTrack).
Qed.

(** The snapshot, however it ends: arrays are added, nothing else changes. *)
Lemma processDebug_any s :
  ∃ a, final (processDebug s) = setArrays a s ∧ arrays s ⊆ a.
Proof.
  rewrite processDebug_unfold.
  pose proof (debugClients_any (map_to_list (clients (fm s))) s) as Hcs.
  destruct (mapM copyClient _ s) as [cs s'|w s'] eqn:E; simpl in Hcs; subst s'.
  - destruct (debugTracks_spec (map_to_list (tracks (fm s))).*2 s) as (ts & a & Hrun & Hsub & _).
    rewrite Hrun. simpl. by exists a.
  - exists (arrays s). by rewrite setArrays_same.
Qed.

End Snapshot.

(** ** One pass of [run] *)

Section Run.

Context (env : environment).

Lemma final_then {A B} (m : M A) (b : B) s : final ((m;; mret b) s) = final (m s).
Proof. rewrite bind_eq. by destruct (m s). Qed.

Lemma final_run r s :
  final (run env r s) =
  match r with
  | RecvAddClient c => final (processAddClient c s)
  | RecvRemoveClient clientID => final (processRemoveClient clientID s)
  | RecvClientMsg cm => final (processMessage env cm s)
  | RecvServerMsg sm => final (processServerMessage env sm s)
  | RecvDebug => final (processDebug s)
  end.
Proof.
  destruct r; unfold run; try apply final_then.
  rewrite bind_eq. by destruct (processDebug s).
Qed.

(** The handlers that leave the subscriptions alone. *)
Lemma processAddClient_subscriptions c s :
  subscriptions (fm (final (processAddClient c s))) = subscriptions (fm s).
Proof.
  destruct (objects s !! c) as [cl|] eqn:E.
  - by rewrite (processAddClient_eq _ cl).
  - by rewrite processAddClient_nil.
Qed.

Lemma processServerMessage_fm sm s :
  fm (final (processServerMessage env sm s)) = fm s.
Proof. destruct (processServerMessage_any env sm s) as (tr & -> & _). done. Qed.

Lemma handleMsgBusButton_subscriptions fbb s :
  subscriptions (fm (final (handleMsgBusButton env fbb s))) = subscriptions (fm s).
Proof. by rewrite handleMsgBusButton_unfold, processServerMessage_fm. Qed.

Lemma handleMsgPosition_subscriptions fp s :
  subscriptions (fm (final (handleMsgPosition env fp s))) = subscriptions (fm s).
Proof.
  destruct (handleMsgPosition_any env fp s) as [[w ->] | (l & arr & sl' & -> & _)]; done.
Qed.

Lemma processDebug_fm s : fm (final (processDebug s)) = fm s.
Proof. destruct (processDebug_any s) as (a & -> & _). done. Qed.

(** Every pass of [run] keeps the subscriber lists free of repetitions. *)
Lemma run_subs_nodup r s :
  subs_nodup (fm s) → subs_nodup (fm (final (run env r s))).
Proof.
  intros Hnd. rewrite final_run. destruct r as [c|clientID|[clientID msg]|sm|].
  - unfold subs_nodup. by rewrite processAddClient_subscriptions.
  - rewrite processRemoveClient_eq. unfold subs_nodup. simpl.
    apply map_Forall_fmap. eapply map_Forall_impl; [exact Hnd|].
    intros topic subs Hsubs. by apply afterCut_NoDup.
  - pose proof (proj1 (subs_nodup_subscribers _) Hnd) as Hnd'.
    destruct msg as [fms|fmu|fp|fbb|ty m|tok]; unfold processMessage; simpl.
    + destruct (decide (clientID ∈ subscribers (fm s) (fms_Topic fms))) as [Hin|Hout].
      * by rewrite handleMsgSubscribe_present.
      * rewrite handleMsgSubscribe_absent by done. unfold subs_nodup. simpl.
        apply map_Forall_insert_2; [|done].
        apply NoDup_app. split_and!.
        -- apply Hnd'.
        -- intros x Hx Hx'. apply list_elem_of_singleton in Hx'. by subst.
        -- apply NoDup_singleton.
    + destruct (decide (clientID ∈ subscribers (fm s) (fmu_Topic fmu))) as [Hin|Hout].
      * rewrite handleMsgUnsubscribe_present by done. unfold subs_nodup. simpl.
        apply map_Forall_insert_2; [|done]. apply afterCut_NoDup, Hnd'.
      * by rewrite handleMsgUnsubscribe_absent.
    + unfold subs_nodup. by rewrite handleMsgPosition_subscriptions.
    + unfold subs_nodup. by rewrite handleMsgBusButton_subscriptions.
    + done.
    + done.
  - by rewrite processServerMessage_fm.
  - by rewrite processDebug_fm.
Qed.

(** The same of a sequence of passes. *)
Lemma runs_subs_nodup rs s :
  subs_nodup (fm s) → subs_nodup (fm (final (runs env rs s))).
Proof.
  revert s. induction rs as [|r rs IH]; intros s Hnd; [done|].
  simpl. rewrite bind_eq. pose proof (run_subs_nodup r s Hnd) as H1.
  destruct (run env r s) as [a s1|w s1]; simpl in *; [by apply IH | done].
Qed.

End Run.

(** ** What [run] does to the arrays *)

Section Memory.

Context (env : environment).

(** The other passes keep the tracks and only add arrays. *)
Lemma run_quiet r s :
  is_position r = false →
  tracks (fm (final (run env r s))) = tracks (fm s) ∧
  arrays s ⊆ arrays (final (run env r s)).
Proof.
  intros Hr. rewrite final_run. destruct r as [c|clientID|[clientID msg]|sm|].
  - destruct (objects s !! c) as [cl|] eqn:E.
    + by rewrite (processAddClient_eq _ cl).
    + by rewrite processAddClient_nil.
  - by rewrite processRemoveClient_eq.
  - destruct msg as [fms|fmu|fp|fbb|ty m|tok]; unfold processMessage; simpl.
    + destruct (decide (clientID ∈ subscribers (fm s) (fms_Topic fms))).
      * by rewrite handleMsgSubscribe_present.
      * by rewrite handleMsgSubscribe_absent.
    + destruct (decide (clientID ∈ subscribers (fm s) (fmu_Topic fmu))).
      * by rewrite handleMsgUnsubscribe_present.
      * by rewrite handleMsgUnsubscribe_absent.
    + done.
    + rewrite handleMsgBusButton_unfold.
      destruct (processServerMessage_any env
        {| topic := "bus_button"; sm_msg := VEnvelope "bus_button" (VBusButton fbb) |}
        (setFM (setBusButtonCount (wrap64 (busButtonCount (fm s) + 1)) (fm s)) s))
        as (tr & -> & _). done.
    + done.
    + done.
  - destruct (processServerMessage_any env sm s) as (tr & -> & _). done.
  - destruct (processDebug_any s) as (a & -> & Hsub). done.
Qed.

(** A pass of [run] either keeps the tracks and only adds arrays, or puts
    one slice into the tracks and writes the array of that slice, which is
    the array of the slice it replaces or a new one. *)
Lemma run_memory r s :
  (tracks (fm (final (run env r s))) = tracks (fm s) ∧
   arrays s ⊆ arrays (final (run env r s))) ∨
  (∃ k l arr sl',
     tracks (fm (final (run env r s))) = <[k := sl']> (tracks (fm s)) ∧
     arrays (final (run env r s)) = <[l := arr]> (arrays s) ∧
     ptr sl' = Some l ∧
     (ptr (default nil_slice (tracks (fm s) !! k)) = Some l ∨ arrays s !! l = None)).
Proof.
  destruct (is_position r) eqn:Hr; [|left; by apply run_quiet].
  destruct r as [c|clientID|[clientID msg]|sm|]; try done.
  destruct msg as [fms|fmu|fp|fbb|ty m|tok]; try done.
  rewrite final_run. unfold processMessage. simpl.
  destruct (handleMsgPosition_any env fp s) as [[w ->] | (l & arr & sl' & -> & Hp & Hw)].
  - by left.
  - right. by exists (Track fp), l, arr, sl'.
Qed.

(** Arrays that no track uses are out of the reach of [run]. *)
Lemma run_keeps held r s :
  apart held s →
  apart held (final (run env r s)) ∧
  Forall (λ l, arrays (final (run env r s)) !! l = arrays s !! l) held.
Proof.
  intros [Hheld Hap].
  destruct (run_memory r s) as [[Htr Hsub] | (k & l & arr & sl' & Htr & Harr & Hp & Hw)].
  - assert (Forall (λ l, arrays (final (run env r s)) !! l = arrays s !! l) held) as Hkept.
    { eapply Forall_impl; [exact Hheld|]. intros l [x Hx]. simpl.
      rewrite Hx. by eapply lookup_weaken. }
    split; [|done]. split.
    + apply Forall_forall. intros l Hl.
      rewrite (proj1 (Forall_forall _ _) Hkept l Hl).
      by apply (proj1 (Forall_forall _ _) Hheld).
    + by rewrite Htr.
  - assert (Forall (λ h, h ≠ l) held) as Hne.
    { apply Forall_forall. intros h Hh ->.
      destruct Hw as [Hlive|Hnew].
      - destruct (tracks (fm s) !! k) as [sl|] eqn:E; simpl in Hlive; [|done].
        by apply (proj1 (Forall_forall _ _) (Hap k sl E) l Hh).
      - destruct (proj1 (Forall_forall _ _) Hheld l Hh) as [x Hx]. congruence. }
    assert (Forall (λ l, arrays (final (run env r s)) !! l = arrays s !! l) held) as Hkept.
    { eapply Forall_impl; [exact Hne|]. intros h Hh. simpl.
      rewrite Harr. by rewrite lookup_insert_ne. }
    split; [|done]. split.
    + apply Forall_forall. intros h Hh.
      rewrite (proj1 (Forall_forall _ _) Hkept h Hh).
      by apply (proj1 (Forall_forall _ _) Hheld).
    + rewrite Htr. apply map_Forall_insert_2; [|done].
      eapply Forall_impl; [exact Hne|]. intros h Hh. simpl. congruence.
Qed.

Lemma runs_keeps held rs s :
  apart held s →
  Forall (λ l, arrays (final (runs env rs s)) !! l = arrays s !! l) held.
Proof.
  revert s. induction rs as [|r rs IH]; intros s Hap.
  - by apply Forall_forall.
  - simpl. rewrite bind_eq. destruct (run_keeps held r s Hap) as [Hap1 Hkept].
    destruct (run env r s) as [a s1|w s1]; simpl in *; [|done].
    specialize (IH s1 Hap1).
    apply Forall_forall. intros l Hl.
    rewrite (proj1 (Forall_forall _ _) IH l Hl).
    by apply (proj1 (Forall_forall _ _) Hkept).
Qed.

End Memory.

(** ** The registry, the readers and the subscriber lists *)

Section Registry.

Context (S : gmap string (list string)) (C : gmap string loc)
        (O : gmap loc fusionClient) (R : gmap loc goroutine).

Lemma reg_inv_boot : reg_inv ∅ ∅ ∅ ∅.
Proof.
  split; try apply map_Forall_empty; intros *; by rewrite lookup_empty.
Qed.

(** A new client object, and the handler of its connection. *)
Lemma reg_upgrade c0 conn u1 t userAgent :
  reg_inv S C O R → O !! c0 = None →
  map_Forall (λ _ c, fc_id c ≠ u1 ∧ fc_conn c ≠ Some conn) O →
  reg_inv S C
    (<[c0 := {| fc_id := u1; fc_conn := Some conn; fc_lastMessageTime := t;
                fc_userAgent := userAgent |}]> O)
    (<[c0 := Connecting]> R).
Proof.
  intros [Hnd Hsubs Hreg Hrout Hconn Huniq] Hc0 Hunused. split; try done.
  - intros clientID l Hl. destruct (Hreg _ _ Hl) as (c & g & Hc & Hid & Hg & Hne).
    assert (l ≠ c0) by congruence.
    exists c, g. by rewrite !lookup_insert_ne.
  - intros l g. destruct (decide (l = c0)) as [->|Hne].
    + rewrite !lookup_insert_eq. intros [= <-]. by eexists.
    + rewrite !lookup_insert_ne by done. apply Hrout.
  - intros l c. destruct (decide (l = c0)) as [->|Hne].
    + rewrite lookup_insert_eq. intros [= <-]. by eexists.
    + rewrite lookup_insert_ne by done. apply Hconn.
  - intros l1 l2 c1 c2.
    destruct (decide (l1 = c0)) as [->|Hne1]; destruct (decide (l2 = c0)) as [->|Hne2];
      [done | | |].
    + rewrite lookup_insert_eq, lookup_insert_ne by done. intros [= <-] H2. simpl.
      destruct (Hunused _ _ H2) as [Hi Hc]. intros [?|?]; congruence.
    + rewrite lookup_insert_eq, lookup_insert_ne by done. intros H1 [= <-]. simpl.
      destruct (Hunused _ _ H1) as [Hi Hc]. intros [?|?]; congruence.
    + rewrite !lookup_insert_ne by done. apply Huniq.
Qed.

(** A pass of a reader: the object keeps its identifier and connection,
    and what the reader sends carries the identifier. *)
Lemma reg_touch l c c' g' :
  reg_inv S C O R → O !! l = Some c → R !! l = Some Reading →
  fc_id c' = fc_id c → fc_conn c' = fc_conn c →
  g' ≠ Connecting → (C !! fc_id c = Some l → attached C l c' g') →
  reg_inv S C (<[l := c']> O) (<[l := g']> R).
Proof.
  intros [Hnd Hsubs Hreg Hrout Hconn Huniq] Hc Hg Hid Hcn Hg' Hatt. split; try done.
  - intros clientID l1 Hl1. destruct (Hreg _ _ Hl1) as (c1 & g1 & Hc1 & Hid1 & Hg1 & Hne).
    destruct (decide (l1 = l)) as [->|Hl].
    + exists c', g'. rewrite !lookup_insert_eq. split_and!; [done | congruence | done | done].
    + exists c1, g1. by rewrite !lookup_insert_ne.
  - intros l1 g1. destruct (decide (l1 = l)) as [->|Hl].
    + rewrite !lookup_insert_eq. intros [= <-]. exists c'. split; [done|].
      apply Hatt. destruct (Hrout _ _ Hg) as (c0 & Hc0 & Ha). simpl in Ha. congruence.
    + rewrite !lookup_insert_ne by done. apply Hrout.
  - intros l1 c1. destruct (decide (l1 = l)) as [->|Hl].
    + rewrite lookup_insert_eq. intros [= <-]. rewrite Hcn. by eapply Hconn.
    + rewrite lookup_insert_ne by done. apply Hconn.
  - intros l1 l2 c1 c2.
    destruct (decide (l1 = l)) as [->|Hne1]; destruct (decide (l2 = l)) as [->|Hne2];
      [done | | |].
    + rewrite lookup_insert_eq, lookup_insert_ne by done. intros [= <-] H2.
      rewrite Hid, Hcn. by apply Huniq.
    + rewrite lookup_insert_eq, lookup_insert_ne by done. intros H1 [= <-].
      rewrite Hid, Hcn. by apply Huniq.
    + rewrite !lookup_insert_ne by done. apply Huniq.
Qed.

(** [processAddClient]: the client object enters the registry and its
    reader starts. *)
Lemma reg_add l c :
  reg_inv S C O R → R !! l = Some Connecting → O !! l = Some c →
  reg_inv S (<[fc_id c := l]> C) O (<[l := Reading]> R).
Proof.
  intros [Hnd Hsubs Hreg Hrout Hconn Huniq] Hg Hc. split; try done.
  - eapply map_Forall_impl; [exact Hsubs|]. intros topic subs Hall. simpl in *.
    eapply Forall_impl; [exact Hall|]. intros clientID [l1 Hl1]. simpl.
    destruct (decide (fc_id c = clientID)) as [->|Hne].
    + rewrite lookup_insert_eq. by eexists.
    + rewrite lookup_insert_ne by done. by eexists.
  - intros clientID l1. destruct (decide (fc_id c = clientID)) as [<-|Hne].
    + rewrite lookup_insert_eq. intros [= <-]. exists c, Reading.
      by rewrite lookup_insert_eq.
    + rewrite lookup_insert_ne by done. intros Hl1.
      destruct (Hreg _ _ Hl1) as (c1 & g1 & Hc1 & Hid1 & Hg1 & Hne1).
      assert (l1 ≠ l) by congruence.
      exists c1, g1. by rewrite lookup_insert_ne.
  - intros l1 g1. destruct (decide (l1 = l)) as [->|Hl].
    + rewrite lookup_insert_eq. intros [= <-]. exists c. split; [done|].
      simpl. by rewrite lookup_insert_eq.
    + rewrite lookup_insert_ne by done. intros Hg1.
      destruct (Hrout _ _ Hg1) as (c1 & Hc1 & Ha). exists c1. split; [done|].
      assert (fc_id c ≠ fc_id c1) as Hids.
      { intros Heq. apply Hl. symmetry. eapply Huniq; [exact Hc | exact Hc1 | by left]. }
      destruct g1; simpl in *; [done | ..]; by rewrite lookup_insert_ne.
Qed.

(** A message was received from the reader of a client and changed
    neither the subscriptions nor the registry. *)
Lemma reg_received l cm :
  reg_inv S C O R → R !! l = Some (Sending cm) →
  reg_inv S C O (<[l := Reading]> R).
Proof.
  intros [Hnd Hsubs Hreg Hrout Hconn Huniq] Hg. split; try done.
  - intros clientID l1 Hl1. destruct (Hreg _ _ Hl1) as (c1 & g1 & Hc1 & Hid1 & Hg1 & Hne).
    destruct (decide (l1 = l)) as [->|Hl].
    + exists c1, Reading. by rewrite lookup_insert_eq.
    + exists c1, g1. by rewrite lookup_insert_ne.
  - intros l1 g1. destruct (decide (l1 = l)) as [->|Hl].
    + rewrite lookup_insert_eq. intros [= <-].
      destruct (Hrout _ _ Hg) as (c1 & Hc1 & Ha & _). by exists c1.
    + rewrite lookup_insert_ne by done. apply Hrout.
Qed.

(** The sender of a message is registered under the identifier the
    message carries. *)
Lemma reg_sender l cm :
  reg_inv S C O R → R !! l = Some (Sending cm) → C !! clientID cm = Some l.
Proof.
  intros [_ _ _ Hrout _ _] Hg. destruct (Hrout _ _ Hg) as (c & _ & Ha & Hid).
  by rewrite Hid.
Qed.

(** A subscription of a registered client. *)
Lemma reg_subscribe clientID topic :
  reg_inv S C O R → is_Some (C !! clientID) →
  clientID ∉ default [] (S !! topic) →
  reg_inv (<[topic := default [] (S !! topic) ++ [clientID]]> S) C O R.
Proof.
  intros [Hnd Hsubs Hreg Hrout Hconn Huniq] Hin Hout. split; try done.
  - apply map_Forall_insert_2; [|done]. apply NoDup_app. split_and!.
    + destruct (S !! topic) as [subs|] eqn:E; simpl; [by apply (Hnd topic) | constructor].
    + intros x Hx Hx'. apply list_elem_of_singleton in Hx'. by subst.
    + apply NoDup_singleton.
  - apply map_Forall_insert_2; [|done]. apply Forall_app. split.
    + destruct (S !! topic) as [subs|] eqn:E; simpl; [by apply (Hsubs topic) | constructor].
    + by apply Forall_singleton.
Qed.

(** Cutting a client out of a list. *)
Lemma reg_unsubscribe clientID topic :
  reg_inv S C O R →
  reg_inv (<[topic := afterCut clientID (default [] (S !! topic))]> S) C O R.
Proof.
  intros [Hnd Hsubs Hreg Hrout Hconn Huniq]. split; try done.
  - apply map_Forall_insert_2; [|done]. apply afterCut_NoDup.
    destruct (S !! topic) as [subs|] eqn:E; simpl; [by apply (Hnd topic) | constructor].
  - apply map_Forall_insert_2; [|done].
    apply afterCut_Forall.
    destruct (S !! topic) as [subs|] eqn:E; simpl; [by apply (Hsubs topic) | constructor].
Qed.

(** [processRemoveClient], received from the reader of the client at its
    end: the client leaves every list and the registry. *)
Lemma reg_remove l clientID :
  reg_inv S C O R → R !! l = Some (Closing clientID) →
  reg_inv (afterCut clientID <$> S) (delete clientID C) O (delete l R).
Proof.
  intros [Hnd Hsubs Hreg Hrout Hconn Huniq] Hg.
  destruct (Hrout _ _ Hg) as (c & Hc & Hcl & ->).
  split; try done.
  - apply map_Forall_fmap. eapply map_Forall_impl; [exact Hnd|].
    intros topic subs Hs. by apply afterCut_NoDup.
  - apply map_Forall_fmap. intros topic subs Hs. simpl.
    rewrite afterCut_without by (by apply (Hnd topic)).
    apply Forall_forall. intros x [Hx Hin]%list_elem_of_filter.
    rewrite lookup_delete_ne by done.
    by apply (proj1 (Forall_forall _ _) (Hsubs topic subs Hs)).
  - intros id1 l1 [Hid1 Hl1]%lookup_delete_Some.
    destruct (Hreg _ _ Hl1) as (c1 & g1 & Hc1 & Hi1 & Hg1 & Hne).
    assert (l1 ≠ l) as Hl by (intros ->; congruence).
    exists c1, g1. by rewrite lookup_delete_ne.
  - intros l1 g1 [Hl Hg1]%lookup_delete_Some.
    destruct (Hrout _ _ Hg1) as (c1 & Hc1 & Ha). exists c1. split; [done|].
    assert (fc_id c ≠ fc_id c1) as Hids.
    { intros Heq. apply Hl. eapply Huniq; [exact Hc | exact Hc1 | by left]. }
    destruct g1; simpl in *; [done | ..]; by rewrite lookup_delete_ne.
Qed.

(** Every subscriber has a connection, and no two registered clients
    share one. *)
Lemma reg_connected clientID l :
  reg_inv S C O R → C !! clientID = Some l →
  ∃ c conn, O !! l = Some c ∧ fc_conn c = Some conn.
Proof.
  intros [_ _ Hreg _ Hconn _] Hl.
  destruct (Hreg _ _ Hl) as (c & g & Hc & _). destruct (Hconn _ _ Hc) as [conn Hcn].
  by exists c, conn.
Qed.

End Registry.

(** ** The system *)

Section SystemInvariant.

Context (env : environment).

(** A pass of a reader touches its client object, the clock and the log. *)
Lemma handleClient_shape l fr s snd s' c :
  objects s !! l = Some c →
  handleClient env l fr s = Done snd s' →
  fm s' = fm s ∧ arrays s' = arrays s ∧ sent_by c snd ∧
  (∃ tr, trace s' = trace s ++ tr ∧ writes tr = []) ∧
  ∃ c', objects s' = <[l := c']> (objects s) ∧
        fc_id c' = fc_id c ∧ fc_conn c' = fc_conn c.
Proof.
  intros Hc. unfold handleClient, deref, now, tick, putObject, logError, logWarn, emit.
  unfold mbind, M_bind, mret, M_ret.
  destruct fr as [unexpected| |messageType message].
  - destruct unexpected; simpl; rewrite Hc; intros [= <- <-]; simpl;
      (split_and!; [done | done | done | | exists c; by rewrite insert_id]).
    + by eexists.
    + exists []. by rewrite app_nil_r.
  - simpl. rewrite Hc. intros [= <- <-]. simpl.
    split_and!; [done | done | done | by eexists | by eexists].
  - simpl. rewrite Hc.
    repeat case_decide; repeat case_match; intros [= <- <-]; simpl;
      (split_and!; [done | done | done | | by eexists]);
      first [ by eexists | exists []; by rewrite app_nil_r ].
Qed.

Lemma webSocketHandler_eq conn u1 userAgent s :
  webSocketHandler env conn u1 userAgent s =
    Done (fresh (dom (objects s)))
      (setObjects (<[fresh (dom (objects s)) :=
                      {| fc_id := u1; fc_conn := Some conn;
                         fc_lastMessageTime := time_Now env (ticks s);
                         fc_userAgent := userAgent |}]> (objects s)) (ticked s)).
Proof. done. Qed.

Lemma tracks_wf_grow s s' :
  tracks (fm s') = tracks (fm s) → arrays s ⊆ arrays s' →
  tracks_wf s → tracks_wf s'.
Proof.
  intros Htr Hsub [Hok Hap]. split.
  - unfold tracks_ok. rewrite Htr. intros k sl Hk.
    by destruct (elements_of_weaken s s' sl Hsub (Hok k sl Hk)).
  - unfold tracks_apart. by rewrite Htr.
Qed.

(** A pass of [run] keeps the tracks well formed. *)
Lemma run_tracks_wf r s : tracks_wf s → tracks_wf (final (run env r s)).
Proof.
  intros Hwf. destruct (is_position r) eqn:Hr.
  - destruct r as [c|clientID|[clientID msg]|sm|]; try done.
    destruct msg as [fms|fmu|fp|fbb|ty m|tok]; try done.
    rewrite final_run. unfold processMessage. simpl.
    destruct (handleMsgPosition_spec env fp s Hwf) as (s' & -> & Hwf' & _). done.
  - destruct (run_quiet env r s Hr) as [Htr Hsub]. by apply (tracks_wf_grow s).
Qed.

Lemma run_view r s :
  subscriptions (fm (final (run env r s))) = subscriptions_after r (fm s) ∧
  clients (fm (final (run env r s))) = clients_after r s ∧
  objects (final (run env r s)) = objects s.
Proof.
  rewrite final_run.
  destruct r as [c|clientID|[clientID msg]|sm|]; unfold subscriptions_after, clients_after.
  - destruct (objects s !! c) as [cl|] eqn:E.
    + by rewrite (processAddClient_eq _ cl).
    + by rewrite processAddClient_nil.
  - by rewrite processRemoveClient_eq.
  - destruct msg as [fms|fmu|fp|fbb|ty m|tok]; unfold processMessage; simpl.
    + case_decide.
      * by rewrite handleMsgSubscribe_present.
      * by rewrite handleMsgSubscribe_absent.
    + case_decide.
      * by rewrite handleMsgUnsubscribe_present.
      * by rewrite handleMsgUnsubscribe_absent.
    + destruct (handleMsgPosition_any env fp s) as [[w ->] | (l & arr & sl' & -> & _)]; done.
    + rewrite handleMsgBusButton_unfold.
      destruct (processServerMessage_any env
        {| topic := "bus_button"; sm_msg := VEnvelope "bus_button" (VBusButton fbb) |}
        (setFM (setBusButtonCount (wrap64 (busButtonCount (fm s) + 1)) (fm s)) s))
        as (tr & -> & _). done.
    + done.
    + done.
  - destruct (processServerMessage_any env sm s) as (tr & -> & _). done.
  - destruct (processDebug_any s) as (a & -> & Hsub). done.
Qed.

Lemma received_by_run_Some r sys after sys' :
  received_by_run env r sys after = Some sys' →
  final (run env r (machine sys)) = machine sys' ∧ routines sys' = after ∧
  ∃ a, run env r (machine sys) = Done a (machine sys').
Proof.
  unfold received_by_run. destruct (run env r (machine sys)) as [a s'|] eqn:E; [|done].
  intros [= <-]. simpl. split_and!; [done | done | by exists a].
Qed.

(** Every step of the system keeps its invariant. *)
Lemma step_inv a sys sys' : sys_inv sys → step env a sys = Some sys' → sys_inv sys'.
Proof.
  intros [Hreg Hwf]. destruct sys as [s R]. simpl in *.
  destruct a as [conn u1 userAgent|l fr|l|sm|]; unfold step; cbn [machine routines].
  - case_decide as Hunused; [|done]. rewrite webSocketHandler_eq. intros [= <-].
    split; simpl.
    + apply reg_upgrade; [done | | done].
      apply not_elem_of_dom, is_fresh.
    + by apply (tracks_wf_grow s).
  - destruct (R !! l) as [[| | |]|] eqn:Hl; try done.
    destruct (inv_routines _ _ _ _ Hreg _ _ Hl) as (c & Hc & Ha).
    destruct (handleClient env l fr s) as [snd s'|] eqn:Hrun; [|done].
    intros [= <-].
    destruct (handleClient_shape _ _ _ _ _ _ Hc Hrun)
      as (Hfm & Harr & Hsent & _ & c' & Hobj & Hid & Hcn).
    split; simpl.
    + rewrite Hfm, Hobj. apply (reg_touch _ _ _ _ l c); try done.
      * by destruct snd.
      * intros Hcl. destruct snd; simpl in *; rewrite ?Hid; done.
    + apply (tracks_wf_grow s); [by rewrite Hfm | by rewrite Harr | done].
  - destruct (R !! l) as [[|  |cm|clientID]|] eqn:Hl; try done.
    + intros (Hfin & Hrout & _)%received_by_run_Some. cbn [machine routines] in *.
      destruct (inv_routines _ _ _ _ Hreg _ _ Hl) as (c & Hc & _).
      destruct (run_view (RecvAddClient l) s) as (Hs & Hcl & Ho).
      rewrite Hfin in Hs, Hcl, Ho. simpl in Hs, Hcl. rewrite Hc in Hcl.
      split.
      * rewrite Hs, Hcl, Ho, Hrout. by apply reg_add.
      * rewrite <- Hfin. by apply run_tracks_wf.
    + intros (Hfin & Hrout & _)%received_by_run_Some. cbn [machine routines] in *.
      destruct (run_view (RecvClientMsg cm) s) as (Hs & Hcl & Ho).
      rewrite Hfin in Hs, Hcl, Ho. simpl in Hs, Hcl.
      pose proof (reg_sender _ _ _ _ _ _ Hreg Hl) as Hsender.
      split.
      * rewrite Hs, Hcl, Ho, Hrout. destruct (cm_msg cm) as [fms|fmu|fp|fbb|ty m|tok].
        -- case_decide.
           ++ by eapply reg_received.
           ++ eapply reg_received; [|done]. apply reg_subscribe; [done | by eexists | done].
        -- case_decide.
           ++ eapply reg_received; [|done]. by apply reg_unsubscribe.
           ++ by eapply reg_received.
        -- by eapply reg_received.
        -- by eapply reg_received.
        -- by eapply reg_received.
        -- by eapply reg_received.
      * rewrite <- Hfin. by apply run_tracks_wf.
    + intros (Hfin & Hrout & _)%received_by_run_Some. cbn [machine routines] in *.
      destruct (run_view (RecvRemoveClient clientID) s) as (Hs & Hcl & Ho).
      rewrite Hfin in Hs, Hcl, Ho. simpl in Hs, Hcl.
      split.
      * rewrite Hs, Hcl, Ho, Hrout. by apply reg_remove.
      * rewrite <- Hfin. by apply run_tracks_wf.
  - intros (Hfin & Hrout & _)%received_by_run_Some. cbn [machine routines] in *.
    destruct (run_view (RecvServerMsg sm) s) as (Hs & Hcl & Ho).
    rewrite Hfin in Hs, Hcl, Ho. simpl in Hs, Hcl.
    split.
    + by rewrite Hs, Hcl, Ho, Hrout.
    + rewrite <- Hfin. by apply run_tracks_wf.
  - intros (Hfin & Hrout & _)%received_by_run_Some. cbn [machine routines] in *.
    destruct (run_view RecvDebug s) as (Hs & Hcl & Ho).
    rewrite Hfin in Hs, Hcl, Ho. simpl in Hs, Hcl.
    split.
    + by rewrite Hs, Hcl, Ho, Hrout.
    + rewrite <- Hfin. by apply run_tracks_wf.
Qed.

(** What a pass of [run] adds to the trace: writes go to connections of
    registered clients. *)
Lemma run_trace r s :
  ∃ tr, trace (final (run env r s)) = trace s ++ tr ∧
        Forall (λ w, ∃ clientID, connOf s clientID = Some w.1) (writes tr).
Proof.
  assert (∀ s' : state, trace s' = trace s →
            ∃ tr, trace s' = trace s ++ tr ∧
                  Forall (λ w, ∃ clientID, connOf s clientID = Some w.1) (writes tr))
    as Hsame.
  { intros s' ->. exists []. rewrite app_nil_r. split; [done | constructor]. }
  assert (∀ sm (s1 : state), trace s1 = trace s → objects s1 = objects s →
            clients (fm s1) = clients (fm s) →
            ∃ tr, trace (final (processServerMessage env sm s1)) = trace s ++ tr ∧
                  Forall (λ w, ∃ clientID, connOf s clientID = Some w.1) (writes tr))
    as Hcast.
  { intros sm s1 Ht Ho Hc. destruct (processServerMessage_any env sm s1) as (tr & -> & Hw).
    exists tr. simpl. rewrite Ht. split; [done|].
    eapply Forall_impl; [exact Hw|]. intros w (clientID & _ & Hconn).
    exists clientID. unfold connOf in *. by rewrite Ho, Hc in Hconn. }
  rewrite final_run. destruct r as [c|clientID|[clientID msg]|sm|].
  - destruct (objects s !! c) as [cl|] eqn:E.
    + rewrite (processAddClient_eq _ cl) by done. exists [EvGo c]. split; [done | constructor].
    + rewrite processAddClient_nil by done. by apply Hsame.
  - rewrite processRemoveClient_eq. by apply Hsame.
  - destruct msg as [fms|fmu|fp|fbb|ty m|tok]; unfold processMessage; simpl.
    + destruct (decide (clientID ∈ subscribers (fm s) (fms_Topic fms))).
      * rewrite handleMsgSubscribe_present by done. by apply Hsame.
      * rewrite handleMsgSubscribe_absent by done. by apply Hsame.
    + destruct (decide (clientID ∈ subscribers (fm s) (fmu_Topic fmu))).
      * rewrite handleMsgUnsubscribe_present by done. by apply Hsame.
      * rewrite handleMsgUnsubscribe_absent by done.
        exists [unsubscribe_warning]. split; [done | constructor].
    + destruct (handleMsgPosition_any env fp s) as [[w ->] | (l & arr & sl' & -> & _)];
        by apply Hsame.
    + rewrite handleMsgBusButton_unfold. by apply Hcast.
    + eexists. split; [reflexivity | constructor].
    + eexists. split; [reflexivity | constructor].
  - by apply Hcast.
  - destruct (processDebug_any s) as (a & -> & _). by apply Hsame.
Qed.

(** A connection of a client that has left is the connection of no
    registered client. *)
Lemma retired_unregistered l clientID conn sys id' :
  sys_inv sys → retired l clientID conn sys →
  connOf (machine sys) id' ≠ Some conn.
Proof.
  intros [Hreg _] (Hcl & Hrout & c & Hc & Hid & Hconn) Hc'.
  destruct (connOf_registered _ _ _ Hc') as [l' Hl'].
  destruct (inv_registry _ _ _ _ Hreg _ _ Hl') as (c' & g & Ho' & _ & Hg & _).
  assert (l' = l) as ->.
  { apply (inv_unique _ _ _ _ Hreg l' l c' c Ho' Hc). right.
    unfold connOf in Hc'. rewrite Hl' in Hc'. simpl in Hc'. rewrite Ho' in Hc'.
    simpl in Hc'. congruence. }
  congruence.
Qed.

Lemma retired_spared l clientID conn sys tr :
  sys_inv sys → retired l clientID conn sys →
  Forall (λ w, ∃ id', connOf (machine sys) id' = Some w.1) (writes tr) →
  writes_on conn tr = [].
Proof.
  intros Hinv Hret Hw. apply writes_on_none.
  eapply Forall_impl; [exact Hw|]. intros w [id' Hc] Heq. simpl in *. subst.
  by eapply retired_unregistered.
Qed.

(** A client that has left stays out, and no step writes on the
    connection it had. *)
Lemma retired_step l clientID conn a sys sys' :
  sys_inv sys → retired l clientID conn sys →
  step env a sys = Some sys' →
  retired l clientID conn sys' ∧
  ∃ tr, trace (machine sys') = trace (machine sys) ++ tr ∧ writes_on conn tr = [].
Proof.
  intros Hinv Hret. pose proof Hinv as [Hreg _].
  pose proof Hret as (Hcl & Hrout & c & Hc & Hid & Hconn).
  destruct sys as [s R]. cbn [machine routines] in *.
  destruct a as [conn' u1 userAgent|l' fr|l'|sm|]; unfold step; cbn [machine routines].
  - case_decide as Hunused; [|done]. rewrite webSocketHandler_eq. intros [= <-].
    assert (l ≠ fresh (dom (objects s))) as Hne.
    { intros ->. pose proof (is_fresh (dom (objects s))) as Hf.
      apply Hf. apply elem_of_dom. by eexists. }
    split.
    + split_and!; cbn [machine routines]; simpl.
      * done.
      * by rewrite lookup_insert_ne.
      * exists c. by rewrite lookup_insert_ne.
    + exists []. simpl. by rewrite app_nil_r.
  - destruct (R !! l') as [[| | |]|] eqn:Hl'; try done.
    assert (l ≠ l') as Hne by congruence.
    destruct (inv_routines _ _ _ _ Hreg _ _ Hl') as (c' & Hc' & _).
    destruct (handleClient env l' fr s) as [snd s'|] eqn:Hrun; [|done].
    intros [= <-].
    destruct (handleClient_shape _ _ _ _ _ _ Hc' Hrun)
      as (Hfm & _ & _ & (tr & Htr & Hw) & c'' & Hobj & _).
    split.
    + split_and!; cbn [machine routines].
      * by rewrite Hfm.
      * by rewrite lookup_insert_ne.
      * exists c. rewrite Hobj. by rewrite lookup_insert_ne.
    + exists tr. split; [done|]. unfold writes_on. by rewrite Hw.
  - destruct (R !! l') as [g|] eqn:Hl'; [|done].
    assert (l ≠ l') as Hne by congruence.
    assert (∀ r after,
              after !! l = None →
              clients_after r s !! clientID = None →
              received_by_run env r {| machine := s; routines := R |} after = Some sys' →
              retired l clientID conn sys' ∧
              ∃ tr, trace (machine sys') = trace s ++ tr ∧ writes_on conn tr = [])
      as Hrecv.
    { intros r after Hafter Hcl' (Hfin & Hrout' & _)%received_by_run_Some.
      cbn [machine routines] in *.
      destruct (run_view r s) as (_ & Hclients & Hobjs).
      destruct (run_trace r s) as (tr & Htr & Hw).
      rewrite Hfin in Hclients, Hobjs, Htr. split.
      - split_and!.
        + by rewrite Hclients.
        + by rewrite Hrout'.
        + exists c. by rewrite Hobjs.
      - exists tr. split; [done|].
        by apply (retired_spared l clientID conn {| machine := s; routines := R |}). }
    destruct g as [| |cm|clientID'].
    + apply Hrecv; [by rewrite lookup_insert_ne|]. simpl.
      destruct (objects s !! l') as [c'|] eqn:Hc'; [|done].
      rewrite lookup_insert_ne; [done|]. intros Heq. apply Hne.
      apply (inv_unique _ _ _ _ Hreg l l' c c' Hc Hc'). left. congruence.
    + done.
    + apply Hrecv; [by rewrite lookup_insert_ne | done].
    + apply Hrecv; [by rewrite lookup_delete_ne|]. simpl.
      apply lookup_delete_None. by right.
  - intros (Hfin & Hrout' & _)%received_by_run_Some. cbn [machine routines] in *.
    destruct (run_view (RecvServerMsg sm) s) as (_ & Hclients & Hobjs).
    destruct (run_trace (RecvServerMsg sm) s) as (tr & Htr & Hw).
    rewrite Hfin in Hclients, Hobjs, Htr. split.
    + split_and!.
      * by rewrite Hclients.
      * by rewrite Hrout'.
      * exists c. by rewrite Hobjs.
    + exists tr. split; [done|].
      by apply (retired_spared l clientID conn {| machine := s; routines := R |}).
  - intros (Hfin & Hrout' & _)%received_by_run_Some. cbn [machine routines] in *.
    destruct (run_view RecvDebug s) as (_ & Hclients & Hobjs).
    destruct (run_trace RecvDebug s) as (tr & Htr & Hw).
    rewrite Hfin in Hclients, Hobjs, Htr. split.
    + split_and!.
      * by rewrite Hclients.
      * by rewrite Hrout'.
      * exists c. by rewrite Hobjs.
    + exists tr. split; [done|].
      by apply (retired_spared l clientID conn {| machine := s; routines := R |}).
Qed.

Lemma sys_inv_boot : sys_inv boot.
Proof. split; [apply reg_inv_boot | apply tracks_wf_initial]. Qed.

(** The invariant holds in every state the system reaches. *)
Lemma reachable_inv sys : reachable env sys → sys_inv sys.
Proof.
  induction 1 as [|sys a sys' _ IH Hstep]; [apply sys_inv_boot|].
  by apply (step_inv a sys).
Qed.

Lemma exec_reachable acts sys sys' :
  reachable env sys → exec env acts sys = Some sys' → reachable env sys'.
Proof.
  revert sys. induction acts as [|a acts IH]; intros sys Hsys; simpl.
  - by intros [= <-].
  - destruct (step env a sys) as [sys1|] eqn:E; simpl; [|done].
    apply IH. by eapply reachable_step.
Qed.

Lemma retired_exec l clientID conn acts sys sys' :
  reachable env sys → retired l clientID conn sys →
  exec env acts sys = Some sys' →
  retired l clientID conn sys' ∧
  ∃ tr, trace (machine sys') = trace (machine sys) ++ tr ∧ writes_on conn tr = [].
Proof.
  revert sys. induction acts as [|a acts IH]; intros sys Hreach Hret; simpl.
  - intros [= <-]. split; [done|]. exists []. by rewrite app_nil_r.
  - destruct (step env a sys) as [sys1|] eqn:E; simpl; [|done].
    intros Hexec.
    destruct (retired_step l clientID conn a sys sys1 (reachable_inv sys Hreach) Hret E)
      as (Hret1 & tr1 & Htr1 & Hw1).
    destruct (IH sys1 (reachable_step env sys a sys1 Hreach E) Hret1 Hexec)
      as (Hret' & tr2 & Htr2 & Hw2).
    split; [done|]. exists (tr1 ++ tr2). split.
    + by rewrite Htr2, Htr1, app_assoc.
    + by rewrite writes_on_app, Hw1, Hw2.
Qed.

(** The manager receives the last send of a reader: the client has left. *)
Lemma closing_retires sys l clientID :
  sys_inv sys → routines sys !! l = Some (Closing clientID) →
  ∃ sys1 conn,
    step env (ActReceive l) sys = Some sys1 ∧
    processRemoveClient clientID (machine sys) = Done tt (machine sys1) ∧
    connOf (machine sys) clientID = Some conn ∧
    retired l clientID conn sys1.
Proof.
  intros [Hreg _] Hl.
  destruct (inv_routines _ _ _ _ Hreg _ _ Hl) as (c & Hc & Hcl & ->).
  destruct (inv_conn _ _ _ _ Hreg _ _ Hc) as [conn Hconn].
  unfold step, received_by_run. rewrite Hl.
  unfold run. rewrite bind_eq, processRemoveClient_eq.
  eexists _, conn. split; [reflexivity|]. cbn [machine routines]. split_and!.
  - done.
  - unfold connOf. rewrite Hcl. simpl. by rewrite Hc.
  - split_and!; cbn [machine routines]; simpl.
    + apply lookup_delete_eq.
    + apply lookup_delete_eq.
    + by exists c.
Qed.

Lemma since_app s s' tr : trace s' = trace s ++ tr → since s s' = tr.
Proof. unfold since. intros ->. by rewrite drop_app_length. Qed.

End SystemInvariant.

(** ** Who a broadcast writes to *)

Section Fanout.

Context (env : environment).

Lemma conns_distinct_inj s id1 id2 conn :
  conns_distinct s →
  connOf s id1 = Some conn → connOf s id2 = Some conn → id1 = id2.
Proof.
  intros Hd H1 H2.
  destruct (connOf_registered _ _ _ H1) as [l1 Hl1].
  destruct (connOf_registered _ _ _ H2) as [l2 Hl2].
  apply (Hd id1 l1 Hl1 id2 l2 Hl2); [by eexists | congruence].
Qed.

Lemma fanout_cons s b x ids :
  fanout s b (x :: ids) =
  match connOf s x with
  | Some c => (c, b) :: fanout s b ids
  | None => fanout s b ids
  end.
Proof. unfold fanout. simpl. by destruct (connOf s x). Qed.

Lemma fanout_length s b ids :
  Forall (λ clientID, is_Some (connOf s clientID)) ids →
  length (fanout s b ids) = length ids.
Proof.
  induction 1 as [|clientID ids [c Hc] _ IH]; [done|].
  rewrite fanout_cons, Hc. simpl. by rewrite IH.
Qed.

(** What the fan-out writes on the connection of one client: the message,
    once, when the client is in the list, and nothing when it is not. *)
Lemma fanout_on s b ids clientID conn :
  conns_distinct s → NoDup ids →
  connOf s clientID = Some conn →
  (filter (λ w, w.1 = conn) (fanout s b ids)).*2 =
  if decide (clientID ∈ ids) then [b] else [].
Proof.
  intros Hd Hnd Hc. induction Hnd as [|x ids Hx Hnd IH].
  - done.
  - rewrite fanout_cons. destruct (connOf s x) as [cx|] eqn:Hcx.
    + destruct (decide (cx = conn)) as [->|Hne].
      * assert (x = clientID) as -> by (by eapply conns_distinct_inj).
        rewrite filter_cons_True by done. rewrite fmap_cons.
        rewrite decide_True by left. rewrite decide_False in IH by done.
        by rewrite IH.
      * rewrite filter_cons_False by done. rewrite IH.
        assert (x ≠ clientID) by congruence.
        destruct (decide (clientID ∈ ids)).
        -- rewrite decide_True; [done | by right].
        -- rewrite decide_False; [done|]. rewrite not_elem_of_cons. by split.
    + assert (x ≠ clientID) by congruence. rewrite IH.
      destruct (decide (clientID ∈ ids)).
      * rewrite decide_True; [done | by right].
      * rewrite decide_False; [done|]. rewrite not_elem_of_cons. by split.
Qed.

(** A broadcast to wired subscribers: one marshalling, then the fan-out. *)
Lemma processServerMessage_wired sm s b :
  json_Marshal env (sm_msg sm) = Some b →
  wired s (topic sm) →
  ∃ tr, processServerMessage env sm s = Done tt (logged (EvMarshal (sm_msg sm) :: tr) s) ∧
        writes tr = fanout s b (subscribers (fm s) (topic sm)) ∧
        marshals tr = [].
Proof.
  intros Hb Hw. rewrite (processServerMessage_marshalled _ _ _ b) by done.
  destruct (deliver_all env b (subscribers (fm s) (topic sm))
              (logged [EvMarshal (sm_msg sm)] s)) as (tr & Hrun & Hwr & Hm).
  { exact Hw. }
  exists tr. by rewrite Hrun, logged_logged.
Qed.

End Fanout.

(** ** The example run is a run *)

Lemma example_reachable : reachable example_env example_system.
Proof.
  apply (exec_reachable example_env example_actions boot).
  - apply reachable_boot.
  - vm_compute. reflexivity.
Qed.

Lemma filter_eq_once (x : string) l :
  NoDup l → x ∈ l → filter (λ y, y = x) l = [x].
Proof.
  induction 1 as [|y l Hy Hnd IH]; [by intros ?%elem_of_nil|].
  intros [->|Hin]%elem_of_cons.
  - rewrite filter_cons_True by done. f_equal.
    clear IH Hnd. induction l as [|z l IH]; [done|].
    apply not_elem_of_cons in Hy as [Hz Hl].
    rewrite filter_cons_False by congruence. by apply IH.
  - rewrite filter_cons_False by (intros ->; done). by apply IH.
Qed.

Lemma run_subscribe env clientID fms s :
  run env (RecvClientMsg {| clientID := clientID; cm_msg := VSubscribe fms |}) s =
  match handleMsgSubscribe clientID fms s with
  | Done _ s' => Done None s'
  | Panic w s' => Panic w s'
  end.
Proof. done. Qed.

(** A broadcast, however it ends, writes nothing on a connection that no
    subscriber of the topic has. *)
Lemma broadcast_spares env s sm conn :
  Forall (λ clientID, connOf s clientID ≠ Some conn) (subscribers (fm s) (topic sm)) →
  writes_on conn (since s (final (processServerMessage env sm s))) = [].
Proof.
  intros Hall. destruct (processServerMessage_any env sm s) as (tr & -> & Hw).
  rewrite since_logged. apply writes_on_none.
  eapply Forall_impl; [exact Hw|]. intros w (clientID & Hin & Hc) Heq. simpl in *.
  apply (proj1 (Forall_forall _ _) Hall clientID Hin). congruence.
Qed.

Lemma afterCut_split clientID l1 l2 :
  clientID ∉ l1 → afterCut clientID (l1 ++ clientID :: l2) = l1 ++ l2.
Proof.
  intros Hout. unfold afterCut.
  destruct (index_of clientID (l1 ++ clientID :: l2)) as [i|] eqn:E.
  - apply index_of_Some in E as (k1 & k2 & Heq & Hk1 & _ & ->).
    revert k1 Heq Hk1. induction l1 as [|x l1 IH]; intros k1 Heq Hk1.
    + destruct k1 as [|y k1]; simpl in *.
      * by injection Heq as <-.
      * injection Heq as <- _. exfalso. apply Hk1. left.
    + apply not_elem_of_cons in Hout as [Hx Hout].
      destruct k1 as [|y k1]; simpl in *.
      * injection Heq as -> _. done.
      * injection Heq as <- Heq. apply not_elem_of_cons in Hk1 as [_ Hk1].
        f_equal. by apply IH.
  - apply index_of_None in E. exfalso. apply E.
    apply elem_of_app. right. left.
Qed.

(** ** Bus buttons *)

Section BusButtons.

Context (env : environment).

Lemma setBusButtonCount_same s :
  setFM (setBusButtonCount (busButtonCount (fm s)) (fm s)) s = s.
Proof. destruct s as [[] ? ? ? ?]. done. Qed.

(** One bus button, with the subscribers of "bus_button" wired: the
    counter goes up, the envelope is marshalled once and fanned out. *)
Lemma handleMsgBusButton_wired fbb s :
  wired s "bus_button" →
  ∃ tr,
    handleMsgBusButton env fbb s =
      Done tt (logged tr (setFM (setBusButtonCount
                                   (wrap64 (busButtonCount (fm s) + 1)) (fm s)) s)) ∧
    marshals tr = [busButtonEnvelope fbb] ∧
    writes tr = broadcastWrites env s "bus_button" (busButtonEnvelope fbb).
Proof.
  intros Hw. rewrite handleMsgBusButton_unfold. unfold broadcastWrites.
  set (s1 := setFM _ s).
  destruct (json_Marshal env (busButtonEnvelope fbb)) as [b|] eqn:Hb.
  - destruct (processServerMessage_wired env (busButtonMessage fbb) s1 b Hb Hw)
      as (tr & Hrun & Hwr & Hm).
    eexists. split; [exact Hrun|]. split.
    + change (marshals ([EvMarshal (busButtonEnvelope fbb)] ++ tr) = [busButtonEnvelope fbb]).
      by rewrite marshals_app, Hm.
    + change (writes ([EvMarshal (busButtonEnvelope fbb)] ++ tr) =
              fanout s b (subscribers (fm s) "bus_button")).
      by rewrite writes_app, Hwr.
  - eexists. split.
    + by apply (processServerMessage_unmarshalled env (busButtonMessage fbb) s1).
    + done.
Qed.

Lemma run_busButton clientID fbb s :
  run env (RecvClientMsg {| clientID := clientID; cm_msg := VBusButton fbb |}) s =
  match handleMsgBusButton env fbb s with
  | Done _ s' => Done None s'
  | Panic w s' => Panic w s'
  end.
Proof. done. Qed.

Lemma wrap64_small n : (0 ≤ n < 2 ^ 64)%Z → wrap64 n = n.
Proof. intros H. unfold wrap64. by apply Z.mod_small. Qed.

(** Bus buttons handled one after the other. *)
Lemma runs_busButtons evs s :
  wired s "bus_button" →
  (0 ≤ busButtonCount (fm s))%Z →
  (busButtonCount (fm s) + Z.of_nat (length evs) < 2 ^ 64)%Z →
  ∃ tr,
    runs env (busButtonEvents evs) s =
      Done tt (logged tr (setFM (setBusButtonCount
                 (busButtonCount (fm s) + Z.of_nat (length evs))%Z (fm s)) s)) ∧
    marshals tr = (λ e, busButtonEnvelope e.2) <$> evs ∧
    writes tr =
      mjoin ((λ e, broadcastWrites env s "bus_button" (busButtonEnvelope e.2)) <$> evs).
Proof.
  revert s. induction evs as [|[clientID fbb] evs IH]; intros s Hw H0 Hmax.
  - exists []. simpl. rewrite Z.add_0_r, setBusButtonCount_same, logged_nil. done.
  - simpl in Hmax.
    destruct (handleMsgBusButton_wired fbb s Hw) as (tr1 & Hrun1 & Hm1 & Hw1).
    rewrite wrap64_small in Hrun1 by lia.
    set (s1 := logged tr1 _) in Hrun1.
    destruct (IH s1) as (tr & Hrun & Hm & Hwr).
    { exact Hw. }
    { simpl. lia. }
    { simpl. lia. }
    exists (tr1 ++ tr). split_and!.
    + change (runs env (busButtonEvents ((clientID, fbb) :: evs)) s) with
        ((run env (RecvClientMsg {| clientID := clientID; cm_msg := VBusButton fbb |});;
          runs env (busButtonEvents evs)) s).
      rewrite bind_eq, run_busButton, Hrun1, Hrun.
      unfold s1, logged, setFM, setBusButtonCount. simpl. f_equal. f_equal.
      * f_equal. lia.
      * by rewrite app_assoc.
    + rewrite marshals_app, Hm1, Hm. done.
    + rewrite writes_app, Hw1, Hwr. done.
Qed.

End BusButtons.

Lemma fanout_lookup s b ids i clientID :
  Forall (λ clientID, is_Some (connOf s clientID)) ids →
  ids !! i = Some clientID →
  ∃ conn, connOf s clientID = Some conn ∧ fanout s b ids !! i = Some (conn, b).
Proof.
  intros Hall. revert i. induction Hall as [|x ids [c Hc] _ IH]; intros i; [done|].
  rewrite fanout_cons, Hc. destruct i as [|i]; simpl.
  - intros [= <-]. by exists c.
  - apply IH.
Qed.

Lemma stamped_nonzero env n fps :
  (∀ n, time_Now env n ≠ 0%Z) → Forall (λ p, Time_ p ≠ 0%Z) (stamped env n fps).
Proof.
  intros Hclock. revert n. induction fps as [|fp fps IH]; intros n; simpl.
  - constructor.
  - constructor; [apply Hclock | apply IH].
Qed.

Lemma stamped_payload env n fps :
  Forall2 (λ fp p, p = setTime (Time_ p) fp) fps (stamped env n fps).
Proof.
  revert n. induction fps as [|fp fps IH]; intros n; simpl; constructor; [done | apply IH].
Qed.

Lemma stamped_length env n fps : length (stamped env n fps) = length fps.
Proof. revert n. induction fps as [|fp fps IH]; intros n; simpl; [done | by rewrite IH]. Qed.

Lemma stamped_filter_all env n fps k :
  Forall (λ fp, Track fp = k) fps →
  filter (λ p, Track p = k) (stamped env n fps) = stamped env n fps.
Proof.
  intros Hall. revert n. induction Hall as [|fp fps Hfp _ IH]; intros n; simpl; [done|].
  rewrite filter_cons_True by done. by rewrite IH.
Qed.

(** ** The snapshot, in well-formed states *)

Lemma elements_of_same s1 s2 t l :
  ptr t = Some l → arrays s1 !! l = arrays s2 !! l →
  elements_of s1 t = elements_of s2 t.
Proof. unfold elements_of, backing. intros -> ->. done. Qed.

Lemma copied_copy_of s a (kvs : list (string * slice)) ts :
  Forall2 (copied s a) kvs.*2 ts →
  Forall (λ kv, slice_ok s kv.2) kvs →
  Forall2 (λ kv t, copy_of s (setArrays a s) kv.2 t) kvs ts.
Proof.
  revert ts. induction kvs as [|[k v] kvs IH]; intros ts Hts Hok.
  - inversion Hts. constructor.
  - rewrite fmap_cons in Hts. inversion Hts as [|? t ? ts' Hvt Hrest]; subst.
    apply Forall_cons in Hok as [Hv Hok]. simpl in Hv.
    constructor; [|by apply IH].
    destruct Hvt as (l & arr & Hp & Hlen & Hcap & Hnone & Ha & Harr). simpl in *.
    exists l. split_and!; try done.
    rewrite (elements_of_eq (setArrays a s) t l arr) by done.
    rewrite (Harr Hv), Hlen. apply take_ge. by rewrite elements_of_length.
Qed.

Lemma processDebug_spec s :
  registry_ok s → tracks_ok s →
  ∃ cs ts a,
    processDebug s =
      Done {| dbg_clients := cs; dbg_tracks := ts;
              dbg_busButtonCount := busButtonCount (fm s) |} (setArrays a s) ∧
    arrays s ⊆ a ∧
    Forall2 (λ kv c, ∃ v, objects s !! kv.2 = Some v ∧ c = debugClient v)
            (map_to_list (clients (fm s))) cs ∧
    Forall2 (λ kv t, copy_of s (setArrays a s) kv.2 t) (map_to_list (tracks (fm s))) ts ∧
    NoDup (ptr <$> ts).
Proof.
  intros Hreg Htr. rewrite processDebug_unfold.
  destruct (debugClients_spec (map_to_list (clients (fm s))) s) as (cs & -> & Hcs).
  { apply map_Forall_to_list in Hreg. eapply Forall_impl; [exact Hreg|]. by intros [k l]. }
  destruct (debugTracks_spec (map_to_list (tracks (fm s))).*2 s) as (ts & a & -> & Hsub & Hts & Hnd).
  exists cs, ts, a. split_and!; try done.
  apply copied_copy_of; [done|].
  apply map_Forall_to_list in Htr. eapply Forall_impl; [exact Htr|]. by intros [k v].
Qed.

(** ** What the invariant gives *)

Section Reachable.

Context (env : environment).

Lemma inv_connOf sys clientID l :
  sys_inv sys → clients (fm (machine sys)) !! clientID = Some l →
  is_Some (connOf (machine sys) clientID).
Proof.
  intros [Hreg _] Hl.
  destruct (reg_connected _ _ _ _ _ _ Hreg Hl) as (c & conn & Hc & Hconn).
  exists conn. unfold connOf. rewrite Hl. simpl. rewrite Hc. done.
Qed.

Lemma inv_wired sys topic : sys_inv sys → wired (machine sys) topic.
Proof.
  intros Hinv. pose proof Hinv as [Hreg _]. unfold wired, subscribers.
  destruct (subscriptions (fm (machine sys)) !! topic) as [subs|] eqn:E; simpl; [|constructor].
  eapply Forall_impl; [exact (inv_subs _ _ _ _ Hreg topic subs E)|].
  intros clientID [l Hl]. by eapply inv_connOf.
Qed.

Lemma inv_conns_distinct sys : sys_inv sys → conns_distinct (machine sys).
Proof.
  intros [Hreg _] id1 l1 Hl1 id2 l2 Hl2 [conn Hc1] Heq.
  destruct (inv_registry _ _ _ _ Hreg _ _ Hl1) as (c1 & g1 & Ho1 & Hid1 & _).
  destruct (inv_registry _ _ _ _ Hreg _ _ Hl2) as (c2 & g2 & Ho2 & Hid2 & _).
  assert (l1 = l2) as ->.
  { apply (inv_unique _ _ _ _ Hreg l1 l2 c1 c2 Ho1 Ho2). right.
    unfold connOf in *. rewrite Hl1, Hl2 in *. simpl in *.
    by rewrite Ho1, Ho2 in *. }
  congruence.
Qed.

Lemma inv_registry_ok sys : sys_inv sys → registry_ok (machine sys).
Proof.
  intros [Hreg _] clientID l Hl.
  destruct (inv_registry _ _ _ _ Hreg _ _ Hl) as (c & g & Ho & _). by exists c.
Qed.

Lemma wrap64_range n : (0 ≤ wrap64 n < 2 ^ 64)%Z.
Proof. unfold wrap64. apply Z.mod_pos_bound. lia. Qed.

(** A pass of [run] leaves the counter or adds one to it, in [uint64]. *)
Lemma run_counter r s :
  busButtonCount (fm (final (run env r s))) = busButtonCount (fm s) ∨
  busButtonCount (fm (final (run env r s))) = wrap64 (busButtonCount (fm s) + 1).
Proof.
  rewrite final_run. destruct r as [c|clientID|[clientID msg]|sm|].
  - left. destruct (objects s !! c) as [cl|] eqn:E.
    + by rewrite (processAddClient_eq _ cl).
    + by rewrite processAddClient_nil.
  - left. by rewrite processRemoveClient_eq.
  - destruct msg as [fms|fmu|fp|fbb|ty m|tok]; unfold processMessage; simpl.
    + left. destruct (decide (clientID ∈ subscribers (fm s) (fms_Topic fms))).
      * by rewrite handleMsgSubscribe_present.
      * by rewrite handleMsgSubscribe_absent.
    + left. destruct (decide (clientID ∈ subscribers (fm s) (fmu_Topic fmu))).
      * by rewrite handleMsgUnsubscribe_present.
      * by rewrite handleMsgUnsubscribe_absent.
    + left.
      destruct (handleMsgPosition_any env fp s) as [[w ->] | (l & arr & sl' & -> & _)]; done.
    + right. by rewrite handleMsgBusButton_unfold, processServerMessage_fm.
    + by left.
    + by left.
  - left. by rewrite processServerMessage_fm.
  - left. by rewrite processDebug_fm.
Qed.

(** The counter stays a [uint64]. *)
Lemma reachable_counter sys :
  reachable env sys → (0 ≤ busButtonCount (fm (machine sys)) < 2 ^ 64)%Z.
Proof.
  induction 1 as [|sys a sys' Hreach IH Hstep]; [simpl; lia|].
  pose proof (reachable_inv env sys Hreach) as [Hreg _].
  assert (∀ r after, received_by_run env r sys after = Some sys' →
            (0 ≤ busButtonCount (fm (machine sys')) < 2 ^ 64)%Z) as Hrecv.
  { intros r after (Hfin & _)%received_by_run_Some.
    destruct (run_counter r (machine sys)) as [Hc|Hc]; rewrite Hfin in Hc; rewrite Hc;
      [done | apply wrap64_range]. }
  destruct a as [conn u1 userAgent|l fr|l|sm|]; unfold step in Hstep.
  - case_decide; [|done]. rewrite webSocketHandler_eq in Hstep. by injection Hstep as <-.
  - destruct (routines sys !! l) as [[| | |]|] eqn:Hl; try done.
    destruct (inv_routines _ _ _ _ Hreg _ _ Hl) as (c & Hc & _).
    destruct (handleClient env l fr (machine sys)) as [snd s'|] eqn:Hrun; [|done].
    injection Hstep as <-.
    destruct (handleClient_shape _ _ _ _ _ _ _ Hc Hrun) as (Hfm & _). simpl. by rewrite Hfm.
  - destruct (routines sys !! l) as [[| | |]|]; try done; by eapply Hrecv.
  - by eapply Hrecv.
  - by eapply Hrecv.
Qed.

(** The states the system reaches meet what the theorems on single
    handlers assume. *)
Lemma reachable_well_formed sys :
  reachable env sys →
  subs_nodup (fm (machine sys)) ∧
  subs_registered (fm (machine sys)) ∧
  (∀ topic, wired (machine sys) topic) ∧
  conns_distinct (machine sys) ∧
  registry_ok (machine sys) ∧
  tracks_wf (machine sys) ∧
  (0 ≤ busButtonCount (fm (machine sys)) < 2 ^ 64)%Z.
Proof.
  intros Hreach. pose proof (reachable_inv env sys Hreach) as Hinv.
  pose proof Hinv as [Hreg Hwf]. split_and!.
  - apply (inv_nodup _ _ _ _ Hreg).
  - apply (inv_subs _ _ _ _ Hreg).
  - intros topic. by apply inv_wired.
  - by apply inv_conns_distinct.
  - by apply inv_registry_ok.
  - done.
  - by apply reachable_counter.
  - by apply reachable_counter.
Qed.

Lemma broadcast_returns sm s :
  wired s (topic sm) → ∃ s', processServerMessage env sm s = Done tt s'.
Proof.
  intros Hw. destruct (json_Marshal env (sm_msg sm)) as [b|] eqn:Hb.
  - destruct (processServerMessage_wired env sm s b Hb Hw) as (tr & -> & _). by eexists.
  - rewrite processServerMessage_unmarshalled by done. by eexists.
Qed.

End Reachable.

(** * The claims *)

(** A decidable property of a closed term holds when its decision
    procedure says so. *)
Ltac by_computation :=
  refine (bool_decide_unpack _ _); vm_compute; exact I.

(** C1. A broadcast of payload [P] to topic [T] marshals [P] once and then
    writes the marshalled bytes once to the connection of each subscriber
    of [T], in the order of the list; a registered client that is not
    subscribed to [T] is written nothing. *)
Theorem broadcast_reaches_each_subscriber_once env s sm b :
  json_Marshal env (sm_msg sm) = Some b →
  NoDup (subscribers (fm s) (topic sm)) →
  wired s (topic sm) →
  conns_distinct s →
  ∃ s',
    processServerMessage env sm s = Done tt s' ∧
    fm s' = fm s ∧
    marshals (since s s') = [sm_msg sm] ∧
    writes (since s s') = fanout s b (subscribers (fm s) (topic sm)) ∧
    length (writes (since s s')) = length (subscribers (fm s) (topic sm)) ∧
    ∀ clientID conn,
      connOf s clientID = Some conn →
      writes_on conn (since s s') =
      if decide (clientID ∈ subscribers (fm s) (topic sm)) then [b] else [].
Proof.
  intros Hb Hnd Hwired Hdistinct.
  destruct (processServerMessage_wired env sm s b Hb Hwired) as (tr & Hrun & Hw & Hm).
  eexists. split; [exact Hrun|]. rewrite since_logged.
  change (EvMarshal (sm_msg sm) :: tr) with ([EvMarshal (sm_msg sm)] ++ tr).
  split_and!.
  - done.
  - by rewrite marshals_app, Hm.
  - by rewrite writes_app, Hw.
  - rewrite writes_app, Hw. simpl. by apply fanout_length.
  - intros clientID conn Hc. unfold writes_on. rewrite writes_app, Hw. simpl.
    by apply fanout_on.
Qed.

Lemma broadcast_reaches_each_subscriber_once_witness :
  ∃ s',
    processServerMessage example_env example_message example_state = Done tt s' ∧
    fm s' = fm example_state ∧
    marshals (since example_state s') = [sm_msg example_message] ∧
    writes (since example_state s') =
      fanout example_state [Init.Byte.x7b; Init.Byte.x7d]
             (subscribers (fm example_state) (topic example_message)) ∧
    length (writes (since example_state s')) =
      length (subscribers (fm example_state) (topic example_message)) ∧
    ∀ clientID conn,
      connOf example_state clientID = Some conn →
      writes_on conn (since example_state s') =
      if decide (clientID ∈ subscribers (fm example_state) (topic example_message))
      then [[Init.Byte.x7b; Init.Byte.x7d]] else [].
Proof.
  apply (broadcast_reaches_each_subscriber_once example_env example_state example_message).
  - reflexivity.
  - by_computation.
  - by_computation.
  - by_computation.
Defined.

(** C2. In every state the system reaches, no topic lists a client twice;
    every pass of [run] and every step of the system keep it so; and
    subscribing a client twice to a topic returns both times, the second
    time without any change, and leaves the client in the list of the topic
    exactly once. *)
Theorem subscribers_are_listed_once env sys :
  reachable env sys →
  subs_nodup (fm (machine sys)) ∧
  (∀ r, subs_nodup (fm (final (run env r (machine sys))))) ∧
  (∀ a sys', step env a sys = Some sys' → subs_nodup (fm (machine sys'))) ∧
  (∀ clientID fms,
     ∃ s1,
       run env (RecvClientMsg {| clientID := clientID; cm_msg := VSubscribe fms |})
           (machine sys) = Done None s1 ∧
       run env (RecvClientMsg {| clientID := clientID; cm_msg := VSubscribe fms |})
           s1 = Done None s1 ∧
       NoDup (subscribers (fm s1) (fms_Topic fms)) ∧
       filter (λ x, x = clientID) (subscribers (fm s1) (fms_Topic fms)) = [clientID]).
Proof.
  intros Hreach.
  assert (subs_nodup (fm (machine sys))) as Hnd.
  { apply (inv_nodup _ _ _ _ (proj1 (reachable_inv env sys Hreach))). }
  split_and!.
  - done.
  - intros r. by apply run_subs_nodup.
  - intros a sys' Hstep.
    assert (reachable env sys') as Hreach' by (by eapply reachable_step).
    apply (inv_nodup _ _ _ _ (proj1 (reachable_inv env sys' Hreach'))).
  - intros clientID fms. rewrite run_subscribe.
    pose proof (proj1 (subs_nodup_subscribers _) Hnd (fms_Topic fms)) as Hnd'.
    destruct (decide (clientID ∈ subscribers (fm (machine sys)) (fms_Topic fms))) as [Hin|Hout].
    + exists (machine sys). rewrite run_subscribe, handleMsgSubscribe_present by done.
      split_and!; [done | done | done | by apply filter_eq_once].
    + rewrite handleMsgSubscribe_absent by done. eexists. split; [reflexivity|].
      assert (NoDup (subscribers (fm (machine sys)) (fms_Topic fms) ++ [clientID])) as Hnd1.
      { apply NoDup_app. split_and!; [done | | apply NoDup_singleton].
        intros x Hx Hx'%list_elem_of_singleton. by subst. }
      rewrite run_subscribe, handleMsgSubscribe_present.
      * split; [done|]. simpl. rewrite subscribers_insert, decide_True by done.
        split; [done|]. apply filter_eq_once; [done|].
        apply elem_of_app. right. by apply list_elem_of_singleton.
      * simpl. rewrite subscribers_insert, decide_True by done.
        apply elem_of_app. right. by apply list_elem_of_singleton.
Qed.

Lemma subscribers_are_listed_once_witness :
  subs_nodup (fm (machine example_system)) ∧
  (∀ r, subs_nodup (fm (final (run example_env r (machine example_system))))) ∧
  (∀ a sys', step example_env a example_system = Some sys' →
             subs_nodup (fm (machine sys'))) ∧
  (∀ clientID fms,
     ∃ s1,
       run example_env
           (RecvClientMsg {| clientID := clientID; cm_msg := VSubscribe fms |})
           (machine example_system) = Done None s1 ∧
       run example_env
           (RecvClientMsg {| clientID := clientID; cm_msg := VSubscribe fms |})
           s1 = Done None s1 ∧
       NoDup (subscribers (fm s1) (fms_Topic fms)) ∧
       filter (λ x, x = clientID) (subscribers (fm s1) (fms_Topic fms)) = [clientID]).
Proof.
  apply (subscribers_are_listed_once example_env example_system).
  apply example_reachable.
Defined.

(** C3. Deregistering a client returns, without a log line; it takes the
    client out of the registry and out of the list of every topic, the
    other subscribers staying in their order, and leaves the entry of a
    topic that does not list the client as it is; after it, no broadcast to
    any topic, and no bus-button broadcast, writes on the connection the
    client had, however the broadcast ends. In the system, where the
    deregistration is what the manager receives from the reader of the
    client at its end, this stays so whatever happens next: the client is
    never registered or listed again, and nothing is ever written on its
    connection. *)
Theorem deregistration_removes_client_everywhere env s clientID :
  subs_nodup (fm s) →
  conns_distinct s →
  ∃ s',
    processRemoveClient clientID s = Done tt s' ∧
    clients (fm s') = delete clientID (clients (fm s)) ∧
    (∀ topic, subscribers (fm s') topic = without clientID (subscribers (fm s) topic)) ∧
    (∀ topic, clientID ∉ subscribers (fm s') topic) ∧
    (∀ topic, clientID ∉ subscribers (fm s) topic →
              subscriptions (fm s') !! topic = subscriptions (fm s) !! topic) ∧
    trace s' = trace s ∧ objects s' = objects s ∧
    tracks (fm s') = tracks (fm s) ∧ busButtonCount (fm s') = busButtonCount (fm s) ∧
    (∀ conn, connOf s clientID = Some conn →
       (∀ sm, writes_on conn (since s' (final (processServerMessage env sm s'))) = []) ∧
       (∀ fbb, writes_on conn (since s' (final (handleMsgBusButton env fbb s'))) = [])) ∧
    (∀ sys client,
       reachable env sys → machine sys = s →
       routines sys !! client = Some (Closing clientID) →
       ∃ sys1,
         step env (ActReceive client) sys = Some sys1 ∧ machine sys1 = s' ∧
         ∀ acts sys2,
           exec env acts sys1 = Some sys2 →
           clients (fm (machine sys2)) !! clientID = None ∧
           (∀ topic, clientID ∉ subscribers (fm (machine sys2)) topic) ∧
           ∀ conn, connOf s clientID = Some conn →
                   writes_on conn (since s' (machine sys2)) = []).
Proof.
  intros Hnd Hdistinct. rewrite processRemoveClient_eq. eexists. split; [reflexivity|].
  set (s' := setFM _ s).
  assert (∀ topic, subscribers (fm s') topic = without clientID (subscribers (fm s) topic))
    as Hsubs.
  { intros topic. unfold s', subscribers. simpl. rewrite lookup_fmap.
    destruct (subscriptions (fm s) !! topic) as [subs|] eqn:E; simpl; [|done].
    apply afterCut_without. by apply (Hnd topic). }
  assert (∀ topic, clientID ∉ subscribers (fm s') topic) as Hgone.
  { intros topic. rewrite Hsubs. unfold without. rewrite list_elem_of_filter. tauto. }
  split_and!; try done.
  - intros topic Hout. unfold s'. simpl. rewrite lookup_fmap.
    unfold subscribers in Hout.
    destruct (subscriptions (fm s) !! topic) as [subs|]; simpl in *; [|done].
    unfold afterCut. by rewrite (proj2 (index_of_None clientID subs) Hout).
  - intros conn Hconn.
    assert (∀ topic, Forall (λ id', connOf s' id' ≠ Some conn) (subscribers (fm s') topic))
      as Hspared.
    { intros topic. apply Forall_forall. intros id' Hin Hc.
      assert (id' ≠ clientID) as Hne by (intros ->; by apply (Hgone topic)).
      assert (connOf s id' = Some conn) as Hc'.
      { unfold connOf in *. unfold s' in Hc. simpl in Hc.
        by rewrite lookup_delete_ne in Hc by done. }
      apply Hne. by eapply conns_distinct_inj. }
    split.
    + intros sm. by apply broadcast_spares.
    + intros fbb. rewrite handleMsgBusButton_unfold.
      set (s1 := setFM _ s').
      assert (writes_on conn (since s1 (final (processServerMessage env
                {| topic := "bus_button";
                   sm_msg := VEnvelope "bus_button" (VBusButton fbb) |} s1))) = []) as H.
      { apply broadcast_spares. exact (Hspared "bus_button"). }
      exact H.
  - intros sys client Hreach Hs Hclosing.
    destruct (closing_retires env sys client clientID (reachable_inv env sys Hreach) Hclosing)
      as (sys1 & conn0 & Hstep & Hrm & Hconn0 & Hret).
    rewrite Hs, processRemoveClient_eq in Hrm. injection Hrm as Hs1. fold s' in Hs1.
    exists sys1. split_and!; [done | done |].
    intros acts sys2 Hexec.
    assert (reachable env sys1) as Hreach1 by (by eapply reachable_step).
    destruct (retired_exec env client clientID conn0 acts sys1 sys2 Hreach1 Hret Hexec)
      as ((Hcl2 & _) & tr & Htr & Hw).
    pose proof (exec_reachable env acts sys1 sys2 Hreach1 Hexec) as Hreach2.
    pose proof (reachable_inv env sys2 Hreach2) as [Hreg2 _].
    split_and!.
    + done.
    + intros topic Hin. unfold subscribers in Hin.
      destruct (subscriptions (fm (machine sys2)) !! topic) as [subs|] eqn:E;
        simpl in Hin; [|by apply elem_of_nil in Hin].
      pose proof (proj1 (Forall_forall _ _) (inv_subs _ _ _ _ Hreg2 topic subs E) clientID Hin)
        as [l Hl].
      congruence.
    + intros conn Hconn. rewrite Hs in Hconn0.
      assert (conn = conn0) as -> by congruence.
      rewrite Hs1. by rewrite (since_app _ _ tr).
Qed.

Lemma deregistration_removes_client_everywhere_witness :
  (∃ s',
    processRemoveClient "u1" (machine example_closing) = Done tt s' ∧
    clients (fm s') = delete "u1" (clients (fm (machine example_closing))) ∧
    (∀ topic, subscribers (fm s') topic =
              without "u1" (subscribers (fm (machine example_closing)) topic)) ∧
    (∀ topic, "u1" ∉ subscribers (fm s') topic) ∧
    (∀ topic, "u1" ∉ subscribers (fm (machine example_closing)) topic →
              subscriptions (fm s') !! topic =
              subscriptions (fm (machine example_closing)) !! topic) ∧
    trace s' = trace (machine example_closing) ∧
    objects s' = objects (machine example_closing) ∧
    tracks (fm s') = tracks (fm (machine example_closing)) ∧
    busButtonCount (fm s') = busButtonCount (fm (machine example_closing)) ∧
    (∀ conn, connOf (machine example_closing) "u1" = Some conn →
       (∀ sm, writes_on conn
                (since s' (final (processServerMessage example_env sm s'))) = []) ∧
       (∀ fbb, writes_on conn
                 (since s' (final (handleMsgBusButton example_env fbb s'))) = [])) ∧
    (∀ sys client,
       reachable example_env sys → machine sys = machine example_closing →
       routines sys !! client = Some (Closing "u1") →
       ∃ sys1,
         step example_env (ActReceive client) sys = Some sys1 ∧ machine sys1 = s' ∧
         ∀ acts sys2,
           exec example_env acts sys1 = Some sys2 →
           clients (fm (machine sys2)) !! "u1" = None ∧
           (∀ topic, "u1" ∉ subscribers (fm (machine sys2)) topic) ∧
           ∀ conn, connOf (machine example_closing) "u1" = Some conn →
                   writes_on conn (since s' (machine sys2)) = [])) ∧
  reachable example_env example_closing ∧
  routines example_closing !! 0 = Some (Closing "u1") ∧
  connOf (machine example_closing) "u1" = Some 1 ∧
  subscribers (fm (machine example_closing)) "eta" = ["u1"; "u2"; "u3"].
Proof.
  split_and!.
  - apply (deregistration_removes_client_everywhere example_env
             (machine example_closing) "u1"); by_computation.
  - apply (exec_reachable example_env [ActRead 0 (FrReadError true)] example_system).
    + apply example_reachable.
    + vm_compute. reflexivity.
  - vm_compute. reflexivity.
  - vm_compute. reflexivity.
  - vm_compute. reflexivity.
Defined.

(** C4. Position payloads, handled one after the other, all return. Each
    is stored as it came but for its time, which is the reading of the
    server's clock at its turn, whatever time the client gave, and not the
    zero time when the clock never reads zero; each goes to the end of the
    track its track identifier names, and a track that was not there is
    made. So [N] positions for one unseen track identifier give a track of
    exactly these [N] positions, in the order of arrival. The reader of the
    client stamps the position as well before it sends it. *)
Theorem positions_are_stamped_and_appended env s evs :
  tracks_wf s →
  (∀ n, time_Now env n ≠ 0%Z) →
  (∃ s',
     runs env (positionEvents evs) s = Done tt s' ∧
     tracks_wf s' ∧
     Forall2 (λ fp p, p = setTime (Time_ p) fp) evs.*2 (stamped env (ticks s) evs.*2) ∧
     Forall (λ p, Time_ p ≠ 0%Z) (stamped env (ticks s) evs.*2) ∧
     (∀ k, positions s' k =
           positions s k ++ filter (λ p, Track p = k) (stamped env (ticks s) evs.*2)) ∧
     dom (tracks (fm s')) = list_to_set (Track <$> evs.*2) ∪ dom (tracks (fm s)) ∧
     (∀ k, tracks (fm s) !! k = None →
           Forall (λ fp, Track fp = k) evs.*2 →
           positions s' k = stamped env (ticks s) evs.*2 ∧
           length (positions s' k) = length evs)) ∧
  (∀ client c message fp,
     objects s !! client = Some c →
     asPosition message = Some fp →
     ∃ s1,
       handleClient env client (FrEnvelope "position" message) s =
         Done (SendClientMsg {| clientID := fc_id c;
                                cm_msg := VPosition (setTime (time_Now env (S (ticks s))) fp) |})
              s1).
Proof.
  intros Hwf Hclock. split.
  - destruct (runs_positions env evs s Hwf) as (s' & Hrun & Hwf' & Hticks & Hdom & Hpos).
    exists s'. split_and!; try done.
    + apply stamped_payload.
    + by apply stamped_nonzero.
    + intros k Hk Hall. rewrite Hpos, stamped_filter_all by done.
      assert (positions s k = []) as -> by (unfold positions; by rewrite Hk).
      rewrite app_nil_l. split; [done|]. by rewrite stamped_length, length_fmap.
  - intros client c message fp Hc Hfp. eexists.
    unfold handleClient, deref, now, tick, putObject.
    unfold mbind, M_bind, mret, M_ret. simpl. rewrite Hc. simpl. rewrite Hfp.
    reflexivity.
Qed.

Lemma positions_are_stamped_and_appended_witness :
  let evs := [("u3", example_position "t2" 1 2 777);
              ("u1", example_position "t2" 3 4 0);
              ("u3", example_position "t2" 5 6 12345)] in
  (∃ s',
     runs example_env (positionEvents evs) example_state = Done tt s' ∧
     tracks_wf s' ∧
     Forall2 (λ fp p, p = setTime (Time_ p) fp) evs.*2
             (stamped example_env (ticks example_state) evs.*2) ∧
     Forall (λ p, Time_ p ≠ 0%Z) (stamped example_env (ticks example_state) evs.*2) ∧
     (∀ k, positions s' k =
           positions example_state k ++
           filter (λ p, Track p = k) (stamped example_env (ticks example_state) evs.*2)) ∧
     dom (tracks (fm s')) =
       list_to_set (Track <$> evs.*2) ∪ dom (tracks (fm example_state)) ∧
     (∀ k, tracks (fm example_state) !! k = None →
           Forall (λ fp, Track fp = k) evs.*2 →
           positions s' k = stamped example_env (ticks example_state) evs.*2 ∧
           length (positions s' k) = length evs)) ∧
  (∀ client c message fp,
     objects example_state !! client = Some c →
     asPosition message = Some fp →
     ∃ s1,
       handleClient example_env client (FrEnvelope "position" message) example_state =
         Done (SendClientMsg
                 {| clientID := fc_id c;
                    cm_msg := VPosition
                      (setTime (time_Now example_env (S (ticks example_state))) fp) |})
              s1).
Proof.
  apply (positions_are_stamped_and_appended example_env example_state).
  - split; by_computation.
  - intros n. simpl. lia.
Defined.

(** C5. Every bus button adds one to the counter, in [uint64], and is then
    one broadcast of its envelope to the topic "bus_button":
    [handleMsgBusButton] is the increment followed by the code of
    [processServerMessage]. Bus buttons from any clients, handled one after
    the other, all return; they raise the counter by their number, and
    each marshals its envelope once and is fanned out to the subscribers of
    "bus_button": three of them from a counter at zero leave it at three,
    after three broadcasts. *)
Theorem bus_buttons_count_and_broadcast env s evs :
  wired s "bus_button" →
  (0 ≤ busButtonCount (fm s))%Z →
  (busButtonCount (fm s) + Z.of_nat (length evs) < 2 ^ 64)%Z →
  (∀ fbb,
     handleMsgBusButton env fbb s =
       processServerMessage env (busButtonMessage fbb)
         (setFM (setBusButtonCount (wrap64 (busButtonCount (fm s) + 1)) (fm s)) s) ∧
     busButtonCount (fm (final (handleMsgBusButton env fbb s))) =
       wrap64 (busButtonCount (fm s) + 1)) ∧
  ∃ s',
    runs env (busButtonEvents evs) s = Done tt s' ∧
    busButtonCount (fm s') = (busButtonCount (fm s) + Z.of_nat (length evs))%Z ∧
    (busButtonCount (fm s) = 0%Z → length evs = 3 → busButtonCount (fm s') = 3%Z) ∧
    marshals (since s s') = (λ e, busButtonEnvelope e.2) <$> evs ∧
    writes (since s s') =
      mjoin ((λ e, broadcastWrites env s "bus_button" (busButtonEnvelope e.2)) <$> evs) ∧
    subscriptions (fm s') = subscriptions (fm s) ∧
    clients (fm s') = clients (fm s) ∧
    tracks (fm s') = tracks (fm s).
Proof.
  intros Hw H0 Hmax. split.
  - intros fbb. split; [apply handleMsgBusButton_unfold|].
    rewrite handleMsgBusButton_unfold, processServerMessage_fm. done.
  - destruct (runs_busButtons env evs s Hw H0 Hmax) as (tr & Hrun & Hm & Hwr).
    eexists. split; [exact Hrun|]. simpl. split_and!; try done.
    + intros -> ->. done.
    + change (marshals (since s (logged tr s)) = (λ e, busButtonEnvelope e.2) <$> evs).
      by rewrite since_logged.
    + change (writes (since s (logged tr s)) =
        mjoin ((λ e, broadcastWrites env s "bus_button" (busButtonEnvelope e.2)) <$> evs)).
      by rewrite since_logged.
Qed.

Lemma bus_buttons_count_and_broadcast_witness :
  (∀ fbb,
     handleMsgBusButton example_env fbb example_state =
       processServerMessage example_env (busButtonMessage fbb)
         (setFM (setBusButtonCount (wrap64 (busButtonCount (fm example_state) + 1))
                   (fm example_state)) example_state) ∧
     busButtonCount (fm (final (handleMsgBusButton example_env fbb example_state))) =
       wrap64 (busButtonCount (fm example_state) + 1)) ∧
  ∃ s',
    runs example_env
      (busButtonEvents [("u1", example_button); ("u3", example_button); ("u2", example_button)])
      example_state = Done tt s' ∧
    busButtonCount (fm s') = (busButtonCount (fm example_state) + Z.of_nat 3)%Z ∧
    (busButtonCount (fm example_state) = 0%Z → 3 = 3 → busButtonCount (fm s') = 3%Z) ∧
    marshals (since example_state s') =
      [busButtonEnvelope example_button; busButtonEnvelope example_button;
       busButtonEnvelope example_button] ∧
    writes (since example_state s') =
      mjoin ((λ e, broadcastWrites example_env example_state "bus_button"
                     (busButtonEnvelope e.2)) <$>
             [("u1", example_button); ("u3", example_button); ("u2", example_button)]) ∧
    subscriptions (fm s') = subscriptions (fm example_state) ∧
    clients (fm s') = clients (fm example_state) ∧
    tracks (fm s') = tracks (fm example_state).
Proof.
  apply (bus_buttons_count_and_broadcast example_env example_state
           [("u1", example_button); ("u3", example_button); ("u2", example_button)]).
  - by_computation.
  - vm_compute. discriminate.
  - vm_compute. reflexivity.
Defined.

(** C6. A broadcast whose payload does not marshal returns without a
    single write: it logs the failure and leaves the manager and the
    memory as they are; in [handleMsgBusButton], nothing but the increment
    that came before the broadcast has happened. A broadcast whose payload
    marshals writes to every subscriber of the topic, in the order of the
    list, whatever the writes answer. *)
Theorem broadcast_failures env s sm :
  (json_Marshal env (sm_msg sm) = None →
   ∃ s', processServerMessage env sm s = Done tt s' ∧
         fm s' = fm s ∧ objects s' = objects s ∧ arrays s' = arrays s ∧
         ticks s' = ticks s ∧
         since s s' = [EvMarshal (sm_msg sm); EvLog LvlError "unable to marshal"] ∧
         writes (since s s') = []) ∧
  (∀ fbb,
     json_Marshal env (busButtonEnvelope fbb) = None →
     ∃ s', handleMsgBusButton env fbb s = Done tt s' ∧
           fm s' = setBusButtonCount (wrap64 (busButtonCount (fm s) + 1)) (fm s) ∧
           objects s' = objects s ∧ arrays s' = arrays s ∧ ticks s' = ticks s ∧
           since s s' = [EvMarshal (busButtonEnvelope fbb);
                         EvLog LvlError "unable to marshal"] ∧
           writes (since s s') = []) ∧
  (∀ b,
     json_Marshal env (sm_msg sm) = Some b →
     wired s (topic sm) →
     ∃ s', processServerMessage env sm s = Done tt s' ∧
           fm s' = fm s ∧
           writes (since s s') = fanout s b (subscribers (fm s) (topic sm)) ∧
           ∀ i clientID,
             subscribers (fm s) (topic sm) !! i = Some clientID →
             ∃ conn, connOf s clientID = Some conn ∧
                     writes (since s s') !! i = Some (conn, b)).
Proof.
  split_and!.
  - intros Hb. rewrite processServerMessage_unmarshalled by done.
    eexists. split; [reflexivity|]. rewrite since_logged. done.
  - intros fbb Hb. rewrite handleMsgBusButton_unfold.
    rewrite (processServerMessage_unmarshalled env (busButtonMessage fbb)) by done.
    eexists. split; [reflexivity|]. split_and!; try done.
    + change (since s (logged [EvMarshal (busButtonEnvelope fbb);
                               EvLog LvlError "unable to marshal"] s) = 
              [EvMarshal (busButtonEnvelope fbb); EvLog LvlError "unable to marshal"]).
      by rewrite since_logged.
    + change (writes (since s (logged [EvMarshal (busButtonEnvelope fbb);
                               EvLog LvlError "unable to marshal"] s)) = []).
      by rewrite since_logged.
  - intros b Hb Hw.
    destruct (processServerMessage_wired env sm s b Hb Hw) as (tr & Hrun & Hwr & Hm).
    eexists. split; [exact Hrun|]. rewrite since_logged.
    change (EvMarshal (sm_msg sm) :: tr) with ([EvMarshal (sm_msg sm)] ++ tr).
    rewrite writes_app, Hwr. simpl. split_and!; [done | done |].
    intros i clientID Hi. by apply fanout_lookup.
Qed.

Lemma broadcast_failures_witness :
  (∃ s', processServerMessage example_env {| topic := "eta"; sm_msg := VOpaque 0 |}
           example_state = Done tt s' ∧
         fm s' = fm example_state ∧ objects s' = objects example_state ∧
         arrays s' = arrays example_state ∧ ticks s' = ticks example_state ∧
         since example_state s' =
           [EvMarshal (VOpaque 0); EvLog LvlError "unable to marshal"] ∧
         writes (since example_state s') = []) ∧
  (∃ s', processServerMessage example_env example_message example_state = Done tt s' ∧
         fm s' = fm example_state ∧
         writes (since example_state s') =
           fanout example_state [Init.Byte.x7b; Init.Byte.x7d]
                  (subscribers (fm example_state) "bus_button") ∧
         ∀ i clientID,
           subscribers (fm example_state) "bus_button" !! i = Some clientID →
           ∃ conn, connOf example_state clientID = Some conn ∧
                   writes (since example_state s') !! i =
                     Some (conn, [Init.Byte.x7b; Init.Byte.x7d])) ∧
  since example_state
        (final (processServerMessage example_env example_message example_state)) =
    [EvMarshal (sm_msg example_message);
     EvWrite 1 [Init.Byte.x7b; Init.Byte.x7d]; EvLog LvlError "unable to write";
     EvWrite 2 [Init.Byte.x7b; Init.Byte.x7d]].
Proof.
  split_and!.
  - apply (proj1 (broadcast_failures example_env example_state
                    {| topic := "eta"; sm_msg := VOpaque 0 |})).
    reflexivity.
  - apply (proj2 (proj2 (broadcast_failures example_env example_state example_message))).
    + reflexivity.
    + by_computation.
  - vm_compute. reflexivity.
Defined.

(** C7. An unsubscription of a client that the list of the topic does not
    hold returns, leaves the manager, the client objects and the arrays as
    they are, and only logs a warning; an unsubscription of a client that
    the list holds takes that entry out of the list, and changes no other
    list and nothing else. *)
Theorem unsubscribe_removes_only_that_entry s clientID fmu :
  (clientID ∉ subscribers (fm s) (fmu_Topic fmu) →
   ∃ s', handleMsgUnsubscribe clientID fmu s = Done tt s' ∧
         fm s' = fm s ∧ objects s' = objects s ∧ arrays s' = arrays s ∧
         since s s' = [unsubscribe_warning]) ∧
  (∀ l1 l2,
     subscribers (fm s) (fmu_Topic fmu) = l1 ++ clientID :: l2 → clientID ∉ l1 →
     ∃ s', handleMsgUnsubscribe clientID fmu s = Done tt s' ∧
           subscribers (fm s') (fmu_Topic fmu) = l1 ++ l2 ∧
           (∀ topic, topic ≠ fmu_Topic fmu →
                     subscriptions (fm s') !! topic = subscriptions (fm s) !! topic) ∧
           clients (fm s') = clients (fm s) ∧ tracks (fm s') = tracks (fm s) ∧
           busButtonCount (fm s') = busButtonCount (fm s) ∧
           objects s' = objects s ∧ arrays s' = arrays s ∧
           trace s' = trace s ∧ ticks s' = ticks s).
Proof.
  split.
  - intros Hout. rewrite handleMsgUnsubscribe_absent by done.
    eexists. split; [reflexivity|]. by rewrite since_logged.
  - intros l1 l2 Hsubs Hl1.
    rewrite handleMsgUnsubscribe_present.
    + eexists. split; [reflexivity|]. simpl. split_and!; try done.
      * rewrite subscribers_insert, decide_True by done.
        rewrite Hsubs. by apply afterCut_split.
      * intros topic Hne. by rewrite lookup_insert_ne.
    + rewrite Hsubs. apply elem_of_app. right. left.
Qed.

Lemma unsubscribe_removes_only_that_entry_witness :
  (∃ s', handleMsgUnsubscribe "u3" {| fmu_Topic := "bus_button" |} example_state = Done tt s' ∧
         fm s' = fm example_state ∧ objects s' = objects example_state ∧
         arrays s' = arrays example_state ∧
         since example_state s' = [unsubscribe_warning]) ∧
  (∃ s', handleMsgUnsubscribe "u2" {| fmu_Topic := "eta" |} example_state = Done tt s' ∧
         subscribers (fm s') "eta" = ["u1"] ++ ["u3"] ∧
         (∀ topic, topic ≠ "eta" →
                   subscriptions (fm s') !! topic = subscriptions (fm example_state) !! topic) ∧
         clients (fm s') = clients (fm example_state) ∧
         tracks (fm s') = tracks (fm example_state) ∧
         busButtonCount (fm s') = busButtonCount (fm example_state) ∧
         objects s' = objects example_state ∧ arrays s' = arrays example_state ∧
         trace s' = trace example_state ∧ ticks s' = ticks example_state).
Proof.
  split.
  - apply (proj1 (unsubscribe_removes_only_that_entry
                    example_state "u3" {| fmu_Topic := "bus_button" |})).
    by_computation.
  - apply (proj2 (unsubscribe_removes_only_that_entry
                    example_state "u2" {| fmu_Topic := "eta" |}) ["u1"] ["u3"]).
    + vm_compute. reflexivity.
    + by_computation.
Defined.

(** C8, the claim as it stands fails: the removal is not a swap-delete.
    With "u1", "u2", "u3" subscribed to "eta" in that order, unsubscribing
    "u1" leaves "u2", "u3", where a swap-delete would leave "u3", "u2". *)
Lemma removal_is_not_swap_delete :
  index_of "u1" (subscribers (fm example_state) "eta") = Some 0 ∧
  subscribers (fm (final (handleMsgUnsubscribe "u1" {| fmu_Topic := "eta" |} example_state)))
              "eta" = ["u2"; "u3"] ∧
  subscribers (fm (final (processRemoveClient "u1" example_state))) "eta" = ["u2"; "u3"] ∧
  swap_delete 0 (subscribers (fm example_state) "eta") = ["u3"; "u2"] ∧
  subscribers (fm (final (handleMsgUnsubscribe "u1" {| fmu_Topic := "eta" |} example_state)))
              "eta" ≠ swap_delete 0 (subscribers (fm example_state) "eta").
Proof.
  split_and!; try (vm_compute; reflexivity).
  vm_compute. intros H. discriminate H.
Qed.

(** C8, amended. A subscription appends to the list of the topic, or leaves
    it as it is when it holds the client; an unsubscription and a
    deregistration take the entry of the client out of the list and close
    the gap, so that the subscribers before it and the subscribers after it
    stay in their order. *)
Theorem removal_keeps_the_order s clientID topic :
  (clientID ∉ subscribers (fm s) topic →
   subscribers (fm (final (handleMsgSubscribe clientID {| fms_Topic := topic |} s))) topic =
   subscribers (fm s) topic ++ [clientID]) ∧
  (clientID ∈ subscribers (fm s) topic →
   subscribers (fm (final (handleMsgSubscribe clientID {| fms_Topic := topic |} s))) topic =
   subscribers (fm s) topic) ∧
  (∀ l1 l2,
     subscribers (fm s) topic = l1 ++ clientID :: l2 → clientID ∉ l1 →
     subscribers (fm (final (handleMsgUnsubscribe clientID {| fmu_Topic := topic |} s))) topic =
       l1 ++ l2 ∧
     subscribers (fm (final (processRemoveClient clientID s))) topic = l1 ++ l2).
Proof.
  split_and!.
  - intros Hout. rewrite handleMsgSubscribe_absent by done. simpl.
    by rewrite subscribers_insert, decide_True.
  - intros Hin. by rewrite handleMsgSubscribe_present.
  - intros l1 l2 Hsubs Hl1. split.
    + rewrite handleMsgUnsubscribe_present.
      * simpl. rewrite subscribers_insert, decide_True by done.
        rewrite Hsubs. by apply afterCut_split.
      * simpl. rewrite Hsubs. apply elem_of_app. right. left.
    + rewrite processRemoveClient_eq. unfold subscribers in *. simpl.
      rewrite lookup_fmap.
      destruct (subscriptions (fm s) !! topic) as [subs|]; simpl in *.
      * rewrite Hsubs. by apply afterCut_split.
      * by destruct l1.
Qed.

Lemma removal_keeps_the_order_witness :
  subscribers (fm (final (handleMsgSubscribe "u3" {| fms_Topic := "bus_button" |}
                            example_state))) "bus_button" =
    subscribers (fm example_state) "bus_button" ++ ["u3"] ∧
  subscribers (fm (final (handleMsgUnsubscribe "u2" {| fmu_Topic := "eta" |}
                            example_state))) "eta" = ["u1"] ++ ["u3"] ∧
  subscribers (fm (final (processRemoveClient "u2" example_state))) "eta" = ["u1"] ++ ["u3"].
Proof.
  split.
  - apply (proj1 (removal_keeps_the_order example_state "u3" "bus_button")).
    by_computation.
  - apply (proj2 (proj2 (removal_keeps_the_order example_state "u2" "eta")) ["u1"] ["u3"]).
    + vm_compute. reflexivity.
    + by_computation.
Defined.

(** C9. In a state whose registry points to client objects and whose
    tracks are slices over their arrays, the snapshot returns; it leaves
    the manager, the client objects and the trace as they are and only adds
    arrays. It holds the counter; for each client of the registry, a client
    with the same identifier, last-message time and user agent and with no
    connection, and no other client; for each track, a slice with the same
    positions over an array of its own, which did not exist before and
    which no track and no other slice of the snapshot uses, and no other
    slice. Whatever the manager handles afterwards, and however that ends,
    the slices of the snapshot keep their positions. *)
Theorem snapshot_is_a_disjoint_copy env s :
  registry_ok s →
  tracks_ok s →
  ∃ d s',
    processDebug s = Done d s' ∧
    fm s' = fm s ∧ objects s' = objects s ∧ trace s' = trace s ∧
    arrays s ⊆ arrays s' ∧
    dbg_busButtonCount d = busButtonCount (fm s) ∧
    Forall (λ c, fc_conn c = None) (dbg_clients d) ∧
    Forall2 (λ kv c, ∃ v, objects s !! kv.2 = Some v ∧
                          fc_id c = fc_id v ∧
                          fc_lastMessageTime c = fc_lastMessageTime v ∧
                          fc_userAgent c = fc_userAgent v)
            (map_to_list (clients (fm s))) (dbg_clients d) ∧
    (∀ clientID l v, clients (fm s) !! clientID = Some l → objects s !! l = Some v →
                     {| fc_id := fc_id v; fc_conn := None;
                        fc_lastMessageTime := fc_lastMessageTime v;
                        fc_userAgent := fc_userAgent v |} ∈ dbg_clients d) ∧
    Forall2 (λ kv t, elements_of s' t = elements_of s kv.2)
            (map_to_list (tracks (fm s))) (dbg_tracks d) ∧
    (∀ k sl, tracks (fm s) !! k = Some sl →
             ∃ t, t ∈ dbg_tracks d ∧ elements_of s' t = positions s k) ∧
    Forall (λ t, ∃ l, ptr t = Some l ∧ arrays s !! l = None ∧
                      ∀ k sl, tracks (fm s') !! k = Some sl → ptr sl ≠ Some l)
           (dbg_tracks d) ∧
    NoDup (ptr <$> dbg_tracks d) ∧
    ∀ rs, Forall (λ t, elements_of (final (runs env rs s')) t = elements_of s' t)
                 (dbg_tracks d).
Proof.
  intros Hreg Htr.
  destruct (processDebug_spec s Hreg Htr) as (cs & ts & a & Hrun & Hsub & Hcs & Hts & Hnd).
  eexists _, _. split; [exact Hrun|]. simpl.
  assert (Forall (λ t, ∃ l, ptr t = Some l ∧ arrays s !! l = None ∧
                            is_Some (a !! l) ∧
                            ∀ k sl, tracks (fm s) !! k = Some sl → ptr sl ≠ Some l) ts)
    as Hfresh.
  { apply (Forall2_Forall_r _ _ _ _ Hts). apply Forall_forall.
    intros [k v] _ t (l & Hp & _ & Hnone & Hsome & _). exists l. split_and!; try done.
    intros k' sl Hsl Heq.
    destruct (slice_ok_inv _ _ (Htr k' sl Hsl)) as (l' & arr & Hp' & Ha' & _).
    congruence. }
  split_and!; try done.
  - apply (Forall2_Forall_r _ _ _ _ Hcs). apply Forall_forall.
    by intros kv _ c (v & _ & ->).
  - eapply Forall2_impl; [exact Hcs|]. intros kv c (v & Hv & ->). by exists v.
  - intros clientID l v Hl Hv.
    apply elem_of_map_to_list in Hl. apply list_elem_of_lookup in Hl as [i Hi].
    destruct (Forall2_lookup_l _ _ _ _ _ Hcs Hi) as (c & Hc & v' & Hv' & ->).
    simpl in Hv'. rewrite Hv in Hv'. injection Hv' as <-.
    apply list_elem_of_lookup. by exists i.
  - eapply Forall2_impl; [exact Hts|]. by intros kv t (l & _ & _ & _ & _ & Hel).
  - intros k sl Hsl.
    pose proof Hsl as Hin. apply elem_of_map_to_list in Hin.
    apply list_elem_of_lookup in Hin as [i Hi].
    destruct (Forall2_lookup_l _ _ _ _ _ Hts Hi) as (t & Ht & l & _ & _ & _ & _ & Hel).
    exists t. split; [apply list_elem_of_lookup; by exists i|].
    unfold positions. by rewrite Hsl.
  - eapply Forall_impl; [exact Hfresh|]. intros t (l & Hp & Hnone & _ & Hlive).
    by exists l.
  - intros rs.
    assert (apart (omap ptr ts) (setArrays a s)) as Hap.
    { split.
      - apply Forall_forall. intros l (t & Hin & Hp)%list_elem_of_omap.
        destruct (proj1 (Forall_forall _ _) Hfresh t Hin) as (l' & Hp' & _ & Hsome & _).
        simpl. congruence.
      - intros k sl Hsl. simpl in Hsl.
        apply Forall_forall. intros l (t & Hin & Hp)%list_elem_of_omap.
        destruct (proj1 (Forall_forall _ _) Hfresh t Hin) as (l' & Hp' & _ & _ & Hlive).
        assert (l' = l) as -> by congruence. by apply (Hlive k sl). }
    pose proof (runs_keeps env _ rs _ Hap) as Hkept.
    apply Forall_forall. intros t Hin.
    destruct (proj1 (Forall_forall _ _) Hfresh t Hin) as (l & Hp & _).
    apply (elements_of_same _ _ t l); [done|].
    apply (proj1 (Forall_forall _ _) Hkept l).
    apply list_elem_of_omap. by exists t.
Qed.

Lemma snapshot_is_a_disjoint_copy_witness :
  ∃ d s',
    processDebug example_state = Done d s' ∧
    fm s' = fm example_state ∧ objects s' = objects example_state ∧
    trace s' = trace example_state ∧
    arrays example_state ⊆ arrays s' ∧
    dbg_busButtonCount d = busButtonCount (fm example_state) ∧
    Forall (λ c, fc_conn c = None) (dbg_clients d) ∧
    Forall2 (λ kv c, ∃ v, objects example_state !! kv.2 = Some v ∧
                          fc_id c = fc_id v ∧
                          fc_lastMessageTime c = fc_lastMessageTime v ∧
                          fc_userAgent c = fc_userAgent v)
            (map_to_list (clients (fm example_state))) (dbg_clients d) ∧
    (∀ clientID l v, clients (fm example_state) !! clientID = Some l →
                     objects example_state !! l = Some v →
                     {| fc_id := fc_id v; fc_conn := None;
                        fc_lastMessageTime := fc_lastMessageTime v;
                        fc_userAgent := fc_userAgent v |} ∈ dbg_clients d) ∧
    Forall2 (λ kv t, elements_of s' t = elements_of example_state kv.2)
            (map_to_list (tracks (fm example_state))) (dbg_tracks d) ∧
    (∀ k sl, tracks (fm example_state) !! k = Some sl →
             ∃ t, t ∈ dbg_tracks d ∧ elements_of s' t = positions example_state k) ∧
    Forall (λ t, ∃ l, ptr t = Some l ∧ arrays example_state !! l = None ∧
                      ∀ k sl, tracks (fm s') !! k = Some sl → ptr sl ≠ Some l)
           (dbg_tracks d) ∧
    NoDup (ptr <$> dbg_tracks d) ∧
    ∀ rs, Forall (λ t, elements_of (final (runs example_env rs s')) t = elements_of s' t)
                 (dbg_tracks d).
Proof.
  apply (snapshot_is_a_disjoint_copy example_env example_state); by_computation.
Defined.

(** C10. In every state the system reaches, every client identifier in the
    subscriber list of any topic is a key of the registry, under which a
    client object with a connection is registered, and every step of the
    system keeps it so: a reader only sends under the identifier of its
    own client, which is registered by then, and the deregistration that
    its reader asks for takes the client out of the registry and of every
    list at once. So no broadcast and no bus-button broadcast finds a
    subscriber missing: each returns. *)
Theorem subscribers_are_registered env sys :
  reachable env sys →
  subs_registered (fm (machine sys)) ∧
  (∀ topic clientID,
     clientID ∈ subscribers (fm (machine sys)) topic →
     is_Some (clients (fm (machine sys)) !! clientID) ∧
     is_Some (connOf (machine sys) clientID)) ∧
  (∀ client cm,
     routines sys !! client = Some (Sending cm) →
     clients (fm (machine sys)) !! clientID cm = Some client) ∧
  (∀ a sys', step env a sys = Some sys' → subs_registered (fm (machine sys'))) ∧
  (∀ sm, ∃ s', processServerMessage env sm (machine sys) = Done tt s') ∧
  (∀ fbb, ∃ s', handleMsgBusButton env fbb (machine sys) = Done tt s').
Proof.
  intros Hreach. pose proof (reachable_inv env sys Hreach) as Hinv.
  pose proof Hinv as [Hreg _]. split_and!.
  - apply (inv_subs _ _ _ _ Hreg).
  - intros topic clientID Hin.
    pose proof (inv_wired sys topic Hinv) as Hw.
    pose proof (proj1 (Forall_forall _ _) Hw clientID Hin) as Hc.
    split; [|done]. destruct Hc as [conn Hc]. by eapply connOf_registered.
  - intros client cm Hcm. by eapply reg_sender.
  - intros a sys' Hstep.
    assert (reachable env sys') as Hreach' by (by eapply reachable_step).
    apply (inv_subs _ _ _ _ (proj1 (reachable_inv env sys' Hreach'))).
  - intros sm. apply broadcast_returns. by apply inv_wired.
  - intros fbb. rewrite handleMsgBusButton_unfold.
    apply (broadcast_returns env (busButtonMessage fbb)).
    exact (inv_wired sys "bus_button" Hinv).
Qed.

Lemma subscribers_are_registered_witness :
  subs_registered (fm (machine example_system)) ∧
  (∀ topic clientID,
     clientID ∈ subscribers (fm (machine example_system)) topic →
     is_Some (clients (fm (machine example_system)) !! clientID) ∧
     is_Some (connOf (machine example_system) clientID)) ∧
  (∀ client cm,
     routines example_system !! client = Some (Sending cm) →
     clients (fm (machine example_system)) !! clientID cm = Some client) ∧
  (∀ a sys', step example_env a example_system = Some sys' →
             subs_registered (fm (machine sys'))) ∧
  (∀ sm, ∃ s', processServerMessage example_env sm (machine example_system) = Done tt s') ∧
  (∀ fbb, ∃ s', handleMsgBusButton example_env fbb (machine example_system) = Done tt s').
Proof.
  apply (subscribers_are_registered example_env example_system).
  apply example_reachable.
Defined.

(** * Further properties of the code *)

Lemma afterCut_last clientID l : clientID ∉ l → afterCut clientID (l ++ [clientID]) = l.
Proof.
  intros Hl. rewrite (afterCut_split clientID l []) by done. by rewrite app_nil_r.
Qed.

Lemma afterCut_absent clientID l : clientID ∉ l → afterCut clientID l = l.
Proof. intros Hl. unfold afterCut. by rewrite (proj2 (index_of_None clientID l) Hl). Qed.

Lemma afterCut_all_absent clientID (m : gmap string (list string)) :
  map_Forall (λ _ subs, clientID ∉ subs) m → afterCut clientID <$> m = m.
Proof.
  intros Hm. apply map_eq. intros topic. rewrite lookup_fmap.
  destruct (m !! topic) as [subs|] eqn:E; simpl; [|done].
  f_equal. apply afterCut_absent. by apply (Hm topic).
Qed.

Lemma afterCut_gone clientID l : NoDup l → clientID ∉ afterCut clientID l.
Proof.
  intros Hnd. rewrite afterCut_without by done. unfold without.
  rewrite list_elem_of_filter. tauto.
Qed.

(** X1. A subscription of a client that the topic does not list, followed by
    its unsubscription, gives every topic the subscribers it had and logs
    nothing; the state is the same when the topic had an entry, and the
    topic has an empty entry otherwise. An unsubscription of a listed
    client followed by its subscription moves the client to the end of the
    list of the topic and leaves the other topics as they are. *)
Theorem subscribing_and_unsubscribing_cancel s clientID topic :
  (clientID ∉ subscribers (fm s) topic →
   ∃ s1 s2,
     handleMsgSubscribe clientID {| fms_Topic := topic |} s = Done tt s1 ∧
     handleMsgUnsubscribe clientID {| fmu_Topic := topic |} s1 = Done tt s2 ∧
     (∀ t, subscribers (fm s2) t = subscribers (fm s) t) ∧
     subscriptions (fm s2) = <[topic := subscribers (fm s) topic]> (subscriptions (fm s)) ∧
     (is_Some (subscriptions (fm s) !! topic) → s2 = s) ∧
     clients (fm s2) = clients (fm s) ∧ tracks (fm s2) = tracks (fm s) ∧
     busButtonCount (fm s2) = busButtonCount (fm s) ∧
     objects s2 = objects s ∧ arrays s2 = arrays s ∧
     trace s2 = trace s ∧ ticks s2 = ticks s) ∧
  (∀ l1 l2,
     subscribers (fm s) topic = l1 ++ clientID :: l2 →
     clientID ∉ l1 → clientID ∉ l2 →
     ∃ s1 s2,
       handleMsgUnsubscribe clientID {| fmu_Topic := topic |} s = Done tt s1 ∧
       handleMsgSubscribe clientID {| fms_Topic := topic |} s1 = Done tt s2 ∧
       subscribers (fm s2) topic = l1 ++ l2 ++ [clientID] ∧
       (∀ t, t ≠ topic → subscribers (fm s2) t = subscribers (fm s) t) ∧
       trace s2 = trace s).
Proof.
  split.
  - intros Hout. rewrite handleMsgSubscribe_absent by done. eexists _, _.
    split; [reflexivity|]. simpl.
    rewrite handleMsgUnsubscribe_present.
    2:{ simpl. rewrite subscribers_insert, decide_True by done.
        apply elem_of_app. right. by apply list_elem_of_singleton. }
    split; [reflexivity|]. simpl.
    rewrite subscribers_insert, decide_True by done.
    rewrite afterCut_last by done. rewrite insert_insert_eq.
    split_and!; try done.
    + intros t. rewrite subscribers_insert. case_decide as Ht; [by subst|done].
    + intros [subs Hsubs].
      assert (subscribers (fm s) topic = subs) as -> by (unfold subscribers; by rewrite Hsubs).
      rewrite insert_id by done. by destruct s as [[? ? ? ?] ? ? ? ?].
  - intros l1 l2 Hsubs Hl1 Hl2.
    rewrite handleMsgUnsubscribe_present.
    2:{ simpl. rewrite Hsubs. apply elem_of_app. right. left. }
    eexists _, _. split; [reflexivity|]. simpl.
    rewrite Hsubs, afterCut_split by done.
    rewrite handleMsgSubscribe_absent.
    2:{ simpl. rewrite subscribers_insert, decide_True by done.
        rewrite elem_of_app. tauto. }
    split; [reflexivity|]. simpl.
    rewrite !subscribers_insert, !decide_True by done.
    split_and!; [by rewrite <- app_assoc | | done].
    intros t Ht. rewrite !subscribers_insert. rewrite decide_False by done.
    rewrite lookup_insert_ne by done. done.
Qed.

Lemma subscribing_and_unsubscribing_cancel_witness :
  (∃ s1 s2,
     handleMsgSubscribe "u3" {| fms_Topic := "bus_button" |} example_state = Done tt s1 ∧
     handleMsgUnsubscribe "u3" {| fmu_Topic := "bus_button" |} s1 = Done tt s2 ∧
     (∀ t, subscribers (fm s2) t = subscribers (fm example_state) t) ∧
     subscriptions (fm s2) =
       <[ "bus_button" := subscribers (fm example_state) "bus_button"]>
         (subscriptions (fm example_state)) ∧
     (is_Some (subscriptions (fm example_state) !! "bus_button") → s2 = example_state) ∧
     clients (fm s2) = clients (fm example_state) ∧
     tracks (fm s2) = tracks (fm example_state) ∧
     busButtonCount (fm s2) = busButtonCount (fm example_state) ∧
     objects s2 = objects example_state ∧ arrays s2 = arrays example_state ∧
     trace s2 = trace example_state ∧ ticks s2 = ticks example_state) ∧
  (∃ s1 s2,
     handleMsgUnsubscribe "u1" {| fmu_Topic := "eta" |} example_state = Done tt s1 ∧
     handleMsgSubscribe "u1" {| fms_Topic := "eta" |} s1 = Done tt s2 ∧
     subscribers (fm s2) "eta" = [] ++ ["u2"; "u3"] ++ ["u1"] ∧
     (∀ t, t ≠ "eta" → subscribers (fm s2) t = subscribers (fm example_state) t) ∧
     trace s2 = trace example_state).
Proof.
  split.
  - apply (proj1 (subscribing_and_unsubscribing_cancel example_state "u3" "bus_button")).
    by_computation.
  - apply (proj2 (subscribing_and_unsubscribing_cancel example_state "u1" "eta")
             [] ["u2"; "u3"]).
    + vm_compute. reflexivity.
    + by_computation.
    + by_computation.
Defined.

(** X2. When no list holds a client twice, a second deregistration of a client
    changes nothing; and the deregistration of a client that is neither
    registered nor listed under any topic leaves the state as it is. *)
Theorem deregistration_is_idempotent s clientID :
  (subs_nodup (fm s) →
   ∃ s1, processRemoveClient clientID s = Done tt s1 ∧
         processRemoveClient clientID s1 = Done tt s1) ∧
  (clients (fm s) !! clientID = None →
   (∀ topic, clientID ∉ subscribers (fm s) topic) →
   processRemoveClient clientID s = Done tt s).
Proof.
  split.
  - intros Hnd. rewrite processRemoveClient_eq. eexists. split; [reflexivity|].
    rewrite processRemoveClient_eq. f_equal. simpl.
    rewrite delete_delete_eq. rewrite afterCut_all_absent; [done|].
    intros topic subs. rewrite lookup_fmap.
    destruct (subscriptions (fm s) !! topic) as [subs0|] eqn:E; simpl; [|done].
    intros [= <-]. apply afterCut_gone. by apply (Hnd topic).
  - intros Hreg Hsubs. rewrite processRemoveClient_eq. f_equal.
    rewrite delete_id by done. rewrite afterCut_all_absent.
    + by destruct s as [[? ? ? ?] ? ? ? ?].
    + intros topic subs E. specialize (Hsubs topic). unfold subscribers in Hsubs.
      by rewrite E in Hsubs.
Qed.

Lemma deregistration_is_idempotent_witness :
  (∃ s1, processRemoveClient "u2" example_state = Done tt s1 ∧
         processRemoveClient "u2" s1 = Done tt s1) ∧
  processRemoveClient "u9" example_state = Done tt example_state.
Proof.
  split.
  - apply (proj1 (deregistration_is_idempotent example_state "u2")). by_computation.
  - apply (proj2 (deregistration_is_idempotent example_state "u9")).
    + vm_compute. reflexivity.
    + intros topic. unfold subscribers.
      destruct (subscriptions (fm example_state) !! topic) as [subs|] eqn:E;
        [|apply not_elem_of_nil].
      assert (map_Forall (λ _ subs, "u9" ∉ subs) (subscriptions (fm example_state))) as H
        by by_computation.
      by apply (H topic).
Defined.

(** The order of the loop over the map. *)
Lemma dropSubscriber_foldl clientID (order : list (string * list string))
    (acc : gmap string (list string)) topic :
  NoDup order.*1 →
  foldl (λ m kv, dropSubscriber clientID kv.1 kv.2 m) acc order !! topic =
    match (list_to_map order : gmap string (list string)) !! topic with
    | Some subs =>
        match index_of clientID subs with
        | Some i => Some (cut i subs)
        | None => acc !! topic
        end
    | None => acc !! topic
    end.
Proof.
  revert acc. induction order as [|[k subs] order IH]; intros acc Hnd; [done|].
  apply NoDup_cons in Hnd as [Hk Hnd]. simpl. rewrite IH by done.
  destruct (decide (k = topic)) as [->|Hne].
  - rewrite lookup_insert_eq.
    rewrite (not_elem_of_list_to_map_1 order topic) by done.
    unfold dropSubscriber. destruct (index_of clientID subs); [|done].
    by rewrite lookup_insert_eq.
  - rewrite lookup_insert_ne by done.
    assert (dropSubscriber clientID k subs acc !! topic = acc !! topic) as ->; [|done].
    unfold dropSubscriber. destruct (index_of clientID subs); [|done].
    by rewrite lookup_insert_ne.
Qed.

Lemma dropSubscriber_foldl_all clientID (m : gmap string (list string)) order :
  order ≡ₚ map_to_list m →
  foldl (λ m kv, dropSubscriber clientID kv.1 kv.2 m) m order = afterCut clientID <$> m.
Proof.
  intros Hperm. apply map_eq. intros topic.
  rewrite dropSubscriber_foldl.
  2:{ rewrite Hperm. apply NoDup_fst_map_to_list. }
  assert ((list_to_map order : gmap string (list string)) = m) as ->.
  { transitivity (list_to_map (map_to_list m) : gmap string (list string));
      [|apply list_to_map_to_list].
    apply list_to_map_proper; [|done].
    rewrite Hperm. apply NoDup_fst_map_to_list. }
  rewrite lookup_fmap. destruct (m !! topic) as [subs|]; simpl; [|done].
  unfold afterCut. by destruct (index_of clientID subs).
Qed.

(** X3. Go leaves open in which order [range] visits the topics of
    [fm.subscriptions]: whatever the order, [processRemoveClient] has the
    same outcome. *)
Theorem deregistration_ignores_the_order_of_the_topics s clientID order :
  order ≡ₚ map_to_list (subscriptions (fm s)) →
  processRemoveClient_in order clientID s = processRemoveClient clientID s.
Proof.
  intros Hperm. rewrite processRemoveClient_eq.
  unfold processRemoveClient_in, getFM, putFM. unfold mbind, M_bind. simpl.
  by rewrite dropSubscriber_foldl_all.
Qed.

Lemma deregistration_ignores_the_order_of_the_topics_witness :
  processRemoveClient_in
    [("eta", ["u1"; "u2"; "u3"]); ("bus_button", ["u1"; "u2"])] "u1" example_state =
  processRemoveClient "u1" example_state ∧
  processRemoveClient_in
    [("bus_button", ["u1"; "u2"]); ("eta", ["u1"; "u2"; "u3"])] "u1" example_state =
  processRemoveClient "u1" example_state.
Proof.
  split.
  - apply (deregistration_ignores_the_order_of_the_topics example_state "u1").
    by_computation.
  - apply (deregistration_ignores_the_order_of_the_topics example_state "u1").
    by_computation.
Defined.

Lemma forM__app {A} (l1 l2 : list A) (body : A → M unit) s :
  forM_ (l1 ++ l2) body s =
  match forM_ l1 body s with
  | Done _ s' => forM_ l2 body s'
  | Panic w s' => Panic w s'
  end.
Proof.
  revert s. induction l1 as [|x l1 IH]; intros s; [done|].
  simpl. rewrite !bind_eq. destruct (body x s); [apply IH | done].
Qed.

Lemma deliver_stops env b l1 clientID l2 s :
  Forall (λ id, is_Some (connOf s id)) l1 →
  connOf s clientID = None →
  ∃ tr, forM_ (l1 ++ clientID :: l2) (deliver env b) s =
          Panic "nil pointer dereference" (logged tr s) ∧
        writes tr = fanout s b l1 ∧ marshals tr = [].
Proof.
  intros Hl1 Hnone.
  destruct (deliver_all env b l1 s Hl1) as (tr & Hrun & Hw & Hm).
  exists tr. rewrite forM__app, Hrun. split; [|done].
  simpl. rewrite bind_eq. by rewrite deliver_unwired.
Qed.

Lemma processServerMessage_stops env sm s b l1 clientID l2 :
  json_Marshal env (sm_msg sm) = Some b →
  subscribers (fm s) (topic sm) = l1 ++ clientID :: l2 →
  Forall (λ id, is_Some (connOf s id)) l1 →
  connOf s clientID = None →
  ∃ tr,
    processServerMessage env sm s =
      Panic "nil pointer dereference" (logged (EvMarshal (sm_msg sm) :: tr) s) ∧
    writes tr = fanout s b l1 ∧ marshals tr = [].
Proof.
  intros Hb Hsubs Hl1 Hnone.
  rewrite processServerMessage_marshalled with (b := b) by done.
  rewrite Hsubs.
  destruct (deliver_stops env b l1 clientID l2 (logged [EvMarshal (sm_msg sm)] s))
    as (tr & -> & Hw & Hm); [done | done |].
  exists tr. by rewrite logged_logged.
Qed.

(** X4. [handleMsgSubscribe] does not look at the registry, and the delivery
    loops read [fm.clients[clientID].conn] without a check: when the list of
    a topic holds a client that is not registered, a broadcast to the topic
    whose payload marshals writes to the subscribers before that client and
    then panics on the nil pointer, which ends the process; the subscribers
    after it get nothing. A bus button does the same after it has counted. *)
Theorem broadcast_stops_at_an_unregistered_subscriber env s topic l1 clientID l2 :
  subscribers (fm s) topic = l1 ++ clientID :: l2 →
  Forall (λ id, is_Some (connOf s id)) l1 →
  connOf s clientID = None →
  (∀ msg b,
     json_Marshal env msg = Some b →
     ∃ s',
       processServerMessage env (sendToTopic topic msg) s =
         Panic "nil pointer dereference" s' ∧
       fm s' = fm s ∧
       marshals (since s s') = [msg] ∧
       writes (since s s') = fanout s b l1 ∧
       length (writes (since s s')) = length l1 ∧
       ∀ sys, machine sys = s → step env (ActServer (sendToTopic topic msg)) sys = None) ∧
  (topic = "bus_button" →
   ∀ fbb b,
     json_Marshal env (busButtonEnvelope fbb) = Some b →
     ∃ s',
       handleMsgBusButton env fbb s = Panic "nil pointer dereference" s' ∧
       busButtonCount (fm s') = wrap64 (busButtonCount (fm s) + 1) ∧
       writes (since s s') = fanout s b l1).
Proof.
  intros Hsubs Hl1 Hnone. split.
  - intros msg b Hb.
    destruct (processServerMessage_stops env (sendToTopic topic msg) s b l1 clientID l2)
      as (tr & Hrun & Hw & Hm); try done.
    eexists. split; [exact Hrun|]. rewrite since_logged.
    change (EvMarshal (sm_msg (sendToTopic topic msg)) :: tr)
      with ([EvMarshal msg] ++ tr).
    rewrite marshals_app, writes_app, Hw, Hm. simpl.
    split_and!; try done.
    + by apply fanout_length.
    + intros sys <-. unfold step, received_by_run, run.
      rewrite bind_eq. by rewrite Hrun.
  - intros -> fbb b Hb. rewrite handleMsgBusButton_unfold.
    set (s1 := setFM _ s).
    destruct (processServerMessage_stops env (busButtonMessage fbb) s1 b l1 clientID l2)
      as (tr & Hrun & Hw & Hm); try done.
    fold (busButtonEnvelope fbb). fold (busButtonMessage fbb).
    eexists. split; [exact Hrun|]. split; [done|].
    change (writes (since s (logged ([EvMarshal (busButtonEnvelope fbb)] ++ tr) s)) =
            fanout s b l1).
    by rewrite since_logged, writes_app, Hw.
Qed.

Lemma broadcast_stops_at_an_unregistered_subscriber_witness :
  (∀ msg b,
     json_Marshal example_env msg = Some b →
     ∃ s',
       processServerMessage example_env (sendToTopic "bus_button" msg) example_ghost =
         Panic "nil pointer dereference" s' ∧
       fm s' = fm example_ghost ∧
       marshals (since example_ghost s') = [msg] ∧
       writes (since example_ghost s') = fanout example_ghost b ["u1"; "u2"] ∧
       length (writes (since example_ghost s')) = length ["u1"; "u2"] ∧
       ∀ sys, machine sys = example_ghost →
              step example_env (ActServer (sendToTopic "bus_button" msg)) sys = None) ∧
  (∀ fbb b,
     json_Marshal example_env (busButtonEnvelope fbb) = Some b →
     ∃ s',
       handleMsgBusButton example_env fbb example_ghost =
         Panic "nil pointer dereference" s' ∧
       busButtonCount (fm s') = wrap64 (busButtonCount (fm example_ghost) + 1) ∧
       writes (since example_ghost s') = fanout example_ghost b ["u1"; "u2"]) ∧
  subscribers (fm example_ghost) "bus_button" = ["u1"; "u2"; "ghost"; "u3"] ∧
  connOf example_ghost "u3" = Some 3.
Proof.
  assert (subscribers (fm example_ghost) "bus_button" = ["u1"; "u2"] ++ "ghost" :: ["u3"])
    as Hsubs by (vm_compute; reflexivity).
  assert (Forall (λ id, is_Some (connOf example_ghost id)) ["u1"; "u2"]) as Hl1
    by by_computation.
  assert (connOf example_ghost "ghost" = None) as Hnone by (vm_compute; reflexivity).
  split_and!.
  - apply (proj1 (broadcast_stops_at_an_unregistered_subscriber example_env example_ghost
                    "bus_button" ["u1"; "u2"] "ghost" ["u3"] Hsubs Hl1 Hnone)).
  - apply (proj2 (broadcast_stops_at_an_unregistered_subscriber example_env example_ghost
                    "bus_button" ["u1"; "u2"] "ghost" ["u3"] Hsubs Hl1 Hnone)).
    reflexivity.
  - vm_compute. reflexivity.
  - vm_compute. reflexivity.
Defined.

(** X5. [processAddClient] puts the client into the registry under its own
    identifier, in the place of any client registered under it before,
    starts its reader and returns; the connections of the clients under
    other identifiers, the subscriptions, the tracks and the counter stay.
    Deregistering a client that was new gives the manager back as it was.
    A nil client panics and changes nothing. *)
Theorem registration_is_an_insertion s client :
  (∀ c,
     objects s !! client = Some c →
     ∃ s1,
       processAddClient client s = Done tt s1 ∧
       clients (fm s1) = <[fc_id c := client]> (clients (fm s)) ∧
       connOf s1 (fc_id c) = fc_conn c ∧
       (∀ clientID, clientID ≠ fc_id c → connOf s1 clientID = connOf s clientID) ∧
       subscriptions (fm s1) = subscriptions (fm s) ∧
       tracks (fm s1) = tracks (fm s) ∧
       busButtonCount (fm s1) = busButtonCount (fm s) ∧
       objects s1 = objects s ∧ arrays s1 = arrays s ∧ ticks s1 = ticks s ∧
       since s s1 = [EvGo client] ∧
       (clients (fm s) !! fc_id c = None →
        (∀ topic, fc_id c ∉ subscribers (fm s) topic) →
        ∃ s2, processRemoveClient (fc_id c) s1 = Done tt s2 ∧ fm s2 = fm s)) ∧
  (objects s !! client = None →
   processAddClient client s = Panic "nil pointer dereference" s).
Proof.
  split; [|apply processAddClient_nil].
  intros c Hc. rewrite (processAddClient_eq client c) by done.
  eexists. split; [reflexivity|]. split_and!; try done.
  - unfold connOf. simpl. rewrite lookup_insert_eq. simpl. by rewrite Hc.
  - intros clientID Hne. unfold connOf. simpl. by rewrite lookup_insert_ne.
  - by apply since_app.
  - intros Hnew Hsubs. rewrite processRemoveClient_eq. eexists. split; [reflexivity|].
    simpl. rewrite delete_insert_eq, delete_id by done.
    rewrite (proj2 (map_eq_iff (afterCut (fc_id c) <$> subscriptions (fm s))
                      (subscriptions (fm s)))).
    + by destruct (fm s).
    + intros topic. rewrite lookup_fmap.
      destruct (subscriptions (fm s) !! topic) as [subs|] eqn:E; simpl; [|done].
      f_equal. unfold afterCut.
      rewrite (proj2 (index_of_None (fc_id c) subs)); [done|].
      specialize (Hsubs topic). unfold subscribers in Hsubs. by rewrite E in Hsubs.
Qed.

Lemma registration_is_an_insertion_witness :
  let s := machine example_connecting in
  let c := {| fc_id := "u4"; fc_conn := Some 4; fc_lastMessageTime := 1014%Z;
              fc_userAgent := "agent four" |} in
  (∃ s1,
     processAddClient 3 s = Done tt s1 ∧
     clients (fm s1) = <[fc_id c := 3]> (clients (fm s)) ∧
     connOf s1 (fc_id c) = fc_conn c ∧
     (∀ clientID, clientID ≠ fc_id c → connOf s1 clientID = connOf s clientID) ∧
     subscriptions (fm s1) = subscriptions (fm s) ∧
     tracks (fm s1) = tracks (fm s) ∧
     busButtonCount (fm s1) = busButtonCount (fm s) ∧
     objects s1 = objects s ∧ arrays s1 = arrays s ∧ ticks s1 = ticks s ∧
     since s s1 = [EvGo 3] ∧
     (clients (fm s) !! fc_id c = None →
      (∀ topic, fc_id c ∉ subscribers (fm s) topic) →
      ∃ s2, processRemoveClient (fc_id c) s1 = Done tt s2 ∧ fm s2 = fm s)) ∧
  clients (fm s) !! "u4" = None ∧
  map_Forall (λ _ subs, "u4" ∉ subs) (subscriptions (fm s)).
Proof.
  split_and!.
  - apply (proj1 (registration_is_an_insertion (machine example_connecting) 3)).
    vm_compute. reflexivity.
  - vm_compute. reflexivity.
  - by_computation.
Defined.

Lemma delivery_event_mono s b ids ids' e :
  ids ⊆ ids' → delivery_event s b ids e → delivery_event s b ids' e.
Proof.
  intros Hsub [(clientID & c & Hin & Hc & ->)| ->]; [left|by right].
  exists clientID, c. split_and!; [by apply Hsub | done | done].
Qed.

Lemma deliver_events env b ids s :
  ∃ tr, final (forM_ ids (deliver env b) s) = logged tr s ∧
        Forall (delivery_event s b ids) tr.
Proof.
  revert s. induction ids as [|x ids IH]; intros s.
  { exists []. by rewrite logged_nil. }
  simpl. rewrite bind_eq.
  destruct (connOf s x) as [c|] eqn:Hc.
  - rewrite (deliver_wired env b x s c) by done. cbn beta iota.
    destruct (IH (logged (delivery env s c b) s)) as (tr & -> & Htr).
    exists (delivery env s c b ++ tr). rewrite logged_logged. split; [done|].
    apply Forall_app. split.
    + assert (delivery_event s b (x :: ids) (EvWrite c b)) as Hw.
      { left. exists x, c. split_and!; [left | done | done]. }
      unfold delivery. destruct (conn_WriteMessage env (trace s) c b).
      * apply Forall_cons. split; [done|]. apply Forall_cons. split; [by right|constructor].
      * apply Forall_cons. split; [done|constructor].
    + eapply Forall_impl; [exact Htr|]. intros e He.
      apply (delivery_event_mono s b ids); [set_solver|].
      destruct He as [(clientID & c' & Hin & Hc' & ->)| ->]; [left|by right].
      by exists clientID, c'.
  - rewrite deliver_unwired by done. exists []. by rewrite logged_nil.
Qed.

(** What a broadcast adds to the trace. *)
Lemma processServerMessage_events env sm s :
  ∃ tr, final (processServerMessage env sm s) = logged (EvMarshal (sm_msg sm) :: tr) s ∧
        (tr = [EvLog LvlError "unable to marshal"] ∨
         ∃ b, json_Marshal env (sm_msg sm) = Some b ∧
              Forall (delivery_event s b (subscribers (fm s) (topic sm))) tr).
Proof.
  destruct (json_Marshal env (sm_msg sm)) as [b|] eqn:Hb.
  - rewrite (processServerMessage_marshalled env sm s b) by done.
    destruct (deliver_events env b (subscribers (fm s) (topic sm))
                (logged [EvMarshal (sm_msg sm)] s)) as (tr & Hrun & Htr).
    exists tr. change (fm (logged [EvMarshal (sm_msg sm)] s)) with (fm s) in Hrun.
    rewrite Hrun, logged_logged. split; [done|]. right. exists b. split; [done|].
    eapply Forall_impl; [exact Htr|].
    intros e [(clientID & c' & Hin & Hc' & ->)| ->]; [left|by right].
    by exists clientID, c'.
  - rewrite processServerMessage_unmarshalled by done. eexists. split; [done|]. by left.
Qed.

Lemma writes_delivery_events s b ids tr :
  Forall (delivery_event s b ids) tr →
  marshals tr = [] ∧
  Forall (λ w, ∃ clientID, clientID ∈ ids ∧ connOf s clientID = Some w.1 ∧ w.2 = b)
         (writes tr).
Proof.
  induction 1 as [|e tr He _ [IHm IHw]]; [by split|].
  destruct He as [(clientID & c & Hin & Hc & ->)| ->]; simpl.
  - split; [done|]. constructor; [|done]. by exists clientID.
  - done.
Qed.

(** X6. A message of a client never changes the registry or a client object;
    a message of a type without a case only logs an error and returns;
    only a position changes the tracks, the arrays and the clock, only a
    bus button changes the counter, and a subscription or unsubscription
    changes no entry but that of its topic. *)
Theorem client_messages_keep_to_their_part env cm s :
  clients (fm (final (processMessage env cm s))) = clients (fm s) ∧
  objects (final (processMessage env cm s)) = objects s ∧
  (handled (cm_msg cm) = false →
   processMessage env cm s = Done tt (logged [EvLog LvlError "unknown message type"] s)) ∧
  ((∀ fp, cm_msg cm ≠ VPosition fp) →
   tracks (fm (final (processMessage env cm s))) = tracks (fm s) ∧
   arrays (final (processMessage env cm s)) = arrays s ∧
   ticks (final (processMessage env cm s)) = ticks s) ∧
  ((∀ fbb, cm_msg cm ≠ VBusButton fbb) →
   busButtonCount (fm (final (processMessage env cm s))) = busButtonCount (fm s)) ∧
  (∀ topic,
     cm_msg cm ≠ VSubscribe {| fms_Topic := topic |} →
     cm_msg cm ≠ VUnsubscribe {| fmu_Topic := topic |} →
     subscriptions (fm (final (processMessage env cm s))) !! topic =
     subscriptions (fm s) !! topic).
Proof.
  destruct cm as [clientID msg]. unfold processMessage. simpl.
  destruct msg as [fms|fmu|fp|fbb|ty m|tok]; simpl.
  - destruct (decide (clientID ∈ subscribers (fm s) (fms_Topic fms))).
    + rewrite handleMsgSubscribe_present by done. split_and!; done.
    + rewrite handleMsgSubscribe_absent by done. simpl. split_and!; try done.
      intros topic Hne _. destruct fms as [t]. simpl.
      rewrite lookup_insert_ne; [done|]. by intros ->.
  - destruct (decide (clientID ∈ subscribers (fm s) (fmu_Topic fmu))).
    + rewrite handleMsgUnsubscribe_present by done. simpl. split_and!; try done.
      intros topic _ Hne. destruct fmu as [t]. simpl.
      rewrite lookup_insert_ne; [done|]. by intros ->.
    + rewrite handleMsgUnsubscribe_absent by done. split_and!; done.
  - destruct (handleMsgPosition_any env fp s) as [[w ->] | (l & arr & sl' & -> & _)];
      simpl; (split_and!; try done); intros H; by destruct (H fp).
  - rewrite handleMsgBusButton_unfold.
    destruct (processServerMessage_any env
      {| topic := "bus_button"; sm_msg := VEnvelope "bus_button" (VBusButton fbb) |}
      (setFM (setBusButtonCount (wrap64 (busButtonCount (fm s) + 1)) (fm s)) s))
      as (tr & -> & _).
    simpl. split_and!; try done. intros H. by destruct (H fbb).
  - split_and!; done.
  - split_and!; done.
Qed.

Lemma since_same s s' : trace s' = trace s → since s s' = [].
Proof. intros H. apply since_app. by rewrite app_nil_r. Qed.

(** X7. A pass of [run] that is neither a server message nor a bus button
    writes on no connection and marshals nothing; a pass marshals at most
    once, and whatever it writes goes to the connection of a client that
    is registered and subscribed to a topic at that time. *)
Theorem only_broadcasts_write env r s :
  (is_broadcast r = false →
   writes (since s (final (run env r s))) = [] ∧
   marshals (since s (final (run env r s))) = []) ∧
  length (marshals (since s (final (run env r s)))) ≤ 1 ∧
  Forall (λ w, ∃ clientID topic,
            clientID ∈ subscribers (fm s) topic ∧ connOf s clientID = Some w.1)
         (writes (since s (final (run env r s)))).
Proof.
  assert (∀ s' : state, trace s' = trace s →
            (writes (since s s') = [] ∧ marshals (since s s') = []) ∧
            length (marshals (since s s')) ≤ 1 ∧
            Forall (λ w, ∃ clientID topic,
                      clientID ∈ subscribers (fm s) topic ∧ connOf s clientID = Some w.1)
                   (writes (since s s'))) as Hsame.
  { intros s' Hs'. rewrite (since_same s s') by done. simpl. split_and!; [done|done|lia|done]. }
  assert (∀ sm (s1 : state), trace s1 = trace s → objects s1 = objects s →
            clients (fm s1) = clients (fm s) → subscriptions (fm s1) = subscriptions (fm s) →
            length (marshals (since s (final (processServerMessage env sm s1)))) ≤ 1 ∧
            Forall (λ w, ∃ clientID topic,
                      clientID ∈ subscribers (fm s) topic ∧ connOf s clientID = Some w.1)
                   (writes (since s (final (processServerMessage env sm s1))))) as Hcast.
  { intros sm s1 Ht Ho Hc Hsub.
    destruct (processServerMessage_events env sm s1) as (tr & -> & Htr).
    rewrite (since_app s _ (EvMarshal (sm_msg sm) :: tr)) by (simpl; by rewrite Ht).
    destruct Htr as [->|(b & _ & Htr)]; [simpl; split; [lia|done]|].
    destruct (writes_delivery_events _ _ _ _ Htr) as [Hm Hw]. simpl. rewrite Hm.
    split; [simpl; lia|].
    eapply Forall_impl; [exact Hw|]. intros w (clientID & Hin & Hconn & _).
    exists clientID, (topic sm). unfold subscribers, connOf in *.
    by rewrite Hsub, Ho, Hc in *. }
  rewrite final_run. destruct r as [c|clientID|[clientID msg]|sm|]; cbn beta iota.
  - destruct (objects s !! c) as [cl|] eqn:E.
    + rewrite (processAddClient_eq _ cl) by done.
      rewrite (since_app s _ [EvGo c]) by done. simpl. split_and!; [done|lia|done].
    + rewrite processAddClient_nil by done. destruct (Hsame s) as (H1 & H2 & H3); done.
  - rewrite processRemoveClient_eq.
    destruct (Hsame (final (Done tt (setFM (setClients (delete clientID (clients (fm s)))
                      (setSubscriptions (afterCut clientID <$> subscriptions (fm s)) (fm s))) s))))
      as (H1 & H2 & H3); done.
  - destruct msg as [fms|fmu|fp|fbb|ty m|tok]; unfold processMessage; simpl.
    + destruct (decide (clientID ∈ subscribers (fm s) (fms_Topic fms))).
      * rewrite handleMsgSubscribe_present by done.
        destruct (Hsame s) as (H1 & H2 & H3); done.
      * rewrite handleMsgSubscribe_absent by done.
        match goal with |- context [final (Done tt ?s')] =>
          destruct (Hsame s') as (H1 & H2 & H3); done end.
    + destruct (decide (clientID ∈ subscribers (fm s) (fmu_Topic fmu))).
      * rewrite handleMsgUnsubscribe_present by done.
        match goal with |- context [final (Done tt ?s')] =>
          destruct (Hsame s') as (H1 & H2 & H3); done end.
      * rewrite handleMsgUnsubscribe_absent by done. simpl.
        rewrite since_logged. simpl. split_and!; [done|lia|done].
    + destruct (handleMsgPosition_any env fp s) as [[w ->] | (l & arr & sl' & -> & _)].
      * destruct (Hsame (ticked s)) as (H1 & H2 & H3); done.
      * match goal with |- context [final (Done tt ?s')] =>
          destruct (Hsame s') as (H1 & H2 & H3); done end.
    + rewrite handleMsgBusButton_unfold. split; [done|]. by apply Hcast.
    + rewrite since_logged. simpl. split_and!; [done|lia|done].
    + rewrite since_logged. simpl. split_and!; [done|lia|done].
  - split; [done|]. by apply Hcast.
  - destruct (processDebug_any s) as (a & -> & _).
    destruct (Hsame (setArrays a s)) as (H1 & H2 & H3); done.
Qed.

Lemma without_afterCut clientID l : without clientID (afterCut clientID l) = without clientID l.
Proof.
  unfold afterCut. destruct (index_of clientID l) as [i|] eqn:E; [|done].
  destruct (index_of_Some _ _ _ E) as (l1 & l2 & -> & _ & _ & ->).
  unfold without. rewrite !filter_app, filter_cons_False; [done|]. by intros H.
Qed.

Lemma without_snoc clientID l : without clientID (l ++ [clientID]) = without clientID l.
Proof.
  unfold without. rewrite filter_app, filter_cons_False by (by intros H).
  by rewrite filter_nil, app_nil_r.
Qed.

(** X8. Whatever [run] handles for a client, the subscribers of every topic
    other than that client stay the same and in the same order; a pass
    that is about no client changes no list. *)
Theorem other_subscribers_are_left_alone env r s topic :
  match subject r with
  | Some clientID =>
      without clientID (subscribers (fm (final (run env r s))) topic) =
      without clientID (subscribers (fm s) topic)
  | None => subscribers (fm (final (run env r s))) topic = subscribers (fm s) topic
  end.
Proof.
  destruct (run_view env r s) as (Hs & _ & _). unfold subscribers. rewrite Hs.
  destruct r as [c|clientID|[clientID msg]|sm|]; simpl; try done.
  - rewrite lookup_fmap. by destruct (subscriptions (fm s) !! topic); simpl;
      [rewrite without_afterCut|].
  - destruct msg as [fms|fmu|fp|fbb|ty m|tok]; simpl; try done.
    + case_decide; [done|]. destruct (decide (fms_Topic fms = topic)) as [<-|Hne].
      * rewrite lookup_insert_eq. simpl. by rewrite without_snoc.
      * by rewrite lookup_insert_ne.
    + case_decide; [|done]. destruct (decide (fmu_Topic fmu = topic)) as [<-|Hne].
      * rewrite lookup_insert_eq. simpl. by rewrite without_afterCut.
      * by rewrite lookup_insert_ne.
Qed.

Section Readers.

Context (env : environment).

Lemma handleClient_pass client c fr s :
  objects s !! client = Some c →
  ∃ snd s',
    handleClient env client fr s = Done snd s' ∧
    fm s' = fm s ∧ arrays s' = arrays s ∧
    writes (since s s') = [] ∧ marshals (since s s') = [] ∧
    (∀ l, l ≠ client → objects s' !! l = objects s !! l) ∧
    match fr with
    | FrReadError unexpected =>
        snd = SendRemoveClient (fc_id c) ∧
        objects s' = objects s ∧ ticks s' = ticks s ∧
        since s s' = if unexpected then [EvLog LvlError "unable to get reader"] else []
    | _ =>
        objects s' !! client = Some (setLastMessageTime (time_Now env (ticks s)) c) ∧
        match snd with
        | SendNothing => ∃ lvl line, since s s' = [EvLog lvl line]
        | SendClientMsg cm =>
            clientID cm = fc_id c ∧ handled (cm_msg cm) = true ∧ since s s' = []
        | SendRemoveClient _ => False
        end
    end.
Proof.
  intros Hc. unfold handleClient, deref, now, tick, putObject, logError, logWarn, emit.
  unfold mbind, M_bind, mret, M_ret.
  destruct fr as [unexpected| |messageType message].
  - destruct unexpected; simpl; rewrite Hc; simpl; eexists _, _;
      (split; [reflexivity|]); rewrite ?since_logged, ?since_same by done;
      split_and!; done.
  - simpl. rewrite Hc. simpl. eexists _, _. split; [reflexivity|].
    rewrite (since_app s _ [EvLog LvlError "unable to decode message"]) by done.
    simpl. split_and!; try done.
    + intros l Hl. by rewrite lookup_insert_ne.
    + by rewrite lookup_insert_eq.
    + by eexists _, _.
  - simpl. rewrite Hc. simpl.
    repeat case_decide; repeat case_match; simpl; eexists _, _;
      (split; [reflexivity|]);
      first [ rewrite (since_same s) by done
            | erewrite (since_app s _ [_]) by (simpl; reflexivity) ];
      simpl; (split_and!; try done);
      first [ intros l Hl; by rewrite lookup_insert_ne
            | by rewrite lookup_insert_eq
            | by eexists _, _ ].
Qed.

Lemma handleClient_known client fr s snd s' :
  handleClient env client fr s = Done snd s' →
  (∃ tr, trace s' = trace s ++ tr ∧ unknown_type_error ∉ tr) ∧
  ∀ cm, snd = SendClientMsg cm → handled (cm_msg cm) = true.
Proof.
  assert (∀ lvl line, EvLog lvl line ≠ unknown_type_error →
            unknown_type_error ∉ [EvLog lvl line]) as Hone.
  { intros lvl line Hne Hin%list_elem_of_singleton. by apply Hne. }
  unfold handleClient, deref, now, tick, putObject, logError, logWarn, emit.
  unfold mbind, M_bind, mret, M_ret.
  destruct (objects s !! client) as [c|] eqn:Hc.
  2:{ destruct fr as [[|]| |]; simpl; rewrite Hc; done. }
  destruct fr as [unexpected| |messageType message].
  - destruct unexpected; simpl; rewrite Hc; intros [= <- <-]; simpl; (split; [|done]).
    + eexists. split; [done|]. by apply Hone.
    + exists []. rewrite app_nil_r. split; [done|]. apply not_elem_of_nil.
  - simpl. rewrite Hc. intros [= <- <-]. simpl. split; [|done].
    eexists. split; [done|]. by apply Hone.
  - simpl. rewrite Hc.
    repeat case_decide; repeat case_match; intros [= <- <-]; simpl;
      (split; [|by intros cm [= <-]]);
      first [ by (eexists; split; [done|]; apply Hone)
            | exists []; rewrite app_nil_r; split; [done|]; apply not_elem_of_nil ].
Qed.

(** What a pass of [run] adds to the trace, when its message has a case. *)
Lemma run_known r s :
  (∀ cm, r = RecvClientMsg cm → handled (cm_msg cm) = true) →
  ∃ tr, trace (final (run env r s)) = trace s ++ tr ∧ unknown_type_error ∉ tr.
Proof.
  intros Hr.
  assert (∀ s' : state, trace s' = trace s →
            ∃ tr, trace s' = trace s ++ tr ∧ unknown_type_error ∉ tr) as Hsame.
  { intros s' ->. exists []. rewrite app_nil_r. split; [done | apply not_elem_of_nil]. }
  assert (∀ sm (s1 : state), trace s1 = trace s →
            ∃ tr, trace (final (processServerMessage env sm s1)) = trace s ++ tr ∧
                  unknown_type_error ∉ tr) as Hcast.
  { intros sm s1 Ht.
    destruct (processServerMessage_events env sm s1) as (tr & -> & Htr).
    exists (EvMarshal (sm_msg sm) :: tr). simpl. rewrite Ht. split; [done|].
    intros [H|Hin]%elem_of_cons; [done|].
    destruct Htr as [->|(b & _ & Htr)].
    - apply list_elem_of_singleton in Hin. done.
    - destruct (proj1 (Forall_forall _ _) Htr _ Hin) as [(? & ? & _ & _ & ?)|?]; done. }
  rewrite final_run. destruct r as [c|clientID|[clientID msg]|sm|]; cbn beta iota.
  - destruct (objects s !! c) as [cl|] eqn:E.
    + rewrite (processAddClient_eq _ cl) by done. exists [EvGo c]. split; [done|].
      intros [H|[]%elem_of_nil]%elem_of_cons. done.
    + rewrite processAddClient_nil by done. by apply Hsame.
  - rewrite processRemoveClient_eq. by apply Hsame.
  - specialize (Hr _ eq_refl).
    destruct msg as [fms|fmu|fp|fbb|ty m|tok]; try done; unfold processMessage; simpl.
    + destruct (decide (clientID ∈ subscribers (fm s) (fms_Topic fms))).
      * rewrite handleMsgSubscribe_present by done. by apply Hsame.
      * rewrite handleMsgSubscribe_absent by done. by apply Hsame.
    + destruct (decide (clientID ∈ subscribers (fm s) (fmu_Topic fmu))).
      * rewrite handleMsgUnsubscribe_present by done. by apply Hsame.
      * rewrite handleMsgUnsubscribe_absent by done.
        eexists. split; [reflexivity|].
        intros [H|[]%elem_of_nil]%elem_of_cons. done.
    + destruct (handleMsgPosition_any env fp s) as [[w ->] | (l & arr & sl' & -> & _)];
        by apply Hsame.
    + rewrite handleMsgBusButton_unfold. by apply Hcast.
  - by apply Hcast.
  - destruct (processDebug_any s) as (a & -> & _). by apply Hsame.
Qed.

Lemma known_step a sys sys' : known_inv sys → step env a sys = Some sys' → known_inv sys'.
Proof.
  intros [Hsend Htrace]. destruct sys as [s R]. simpl in *.
  assert (∀ s' tr, trace s' = trace s ++ tr → unknown_type_error ∉ tr →
                   unknown_type_error ∉ trace s') as Hgrow.
  { intros s' tr -> Htr [H|H]%elem_of_app; done. }
  assert (∀ r after sys',
            (∀ cm, r = RecvClientMsg cm → handled (cm_msg cm) = true) →
            (∀ l cm, after !! l = Some (Sending cm) → handled (cm_msg cm) = true) →
            received_by_run env r {| machine := s; routines := R |} after = Some sys' →
            known_inv sys') as Hrun.
  { intros r after sys1 Hr Hafter (Hfin & Hrout & _)%received_by_run_Some.
    cbn [machine routines] in *. split.
    - by rewrite Hrout.
    - destruct (run_known r s Hr) as (tr & Htr & Hno). rewrite <- Hfin. by eapply Hgrow. }
  destruct a as [conn u1 userAgent|l fr|l|sm|]; unfold step; cbn [machine routines].
  - case_decide as Hunused; [|done]. rewrite webSocketHandler_eq. intros [= <-].
    split; simpl; [|done].
    intros l cm [[_ [=]]|[_ H]]%lookup_insert_Some. by eapply Hsend.
  - destruct (R !! l) as [[| | |]|] eqn:Hl; try done.
    destruct (handleClient env l fr s) as [snd s'|] eqn:Hpass; [|done].
    intros [= <-]. destruct (handleClient_known _ _ _ _ _ Hpass) as [(tr & Htr & Hno) Hsnd].
    split; simpl.
    + intros l' cm [[_ H]|[_ H]]%lookup_insert_Some; [|by eapply Hsend].
      destruct snd; try done. simpl in H. injection H as ->. by apply Hsnd.
    + by eapply Hgrow.
  - destruct (R !! l) as [[|  |cm|clientID]|] eqn:Hl; try done.
    + apply Hrun; [done|].
      intros l' cm [[_ [=]]|[_ H]]%lookup_insert_Some. by eapply Hsend.
    + apply Hrun.
      * intros cm' [= <-]. by eapply Hsend.
      * intros l' cm' [[_ [=]]|[_ H]]%lookup_insert_Some. by eapply Hsend.
    + apply Hrun; [done|].
      intros l' cm [_ H]%lookup_delete_Some. by eapply Hsend.
  - by apply Hrun.
  - by apply Hrun.
Qed.

Lemma reachable_known sys : reachable env sys → known_inv sys.
Proof.
  induction 1 as [|sys a sys' _ IH Hstep].
  - split; [done|]. apply not_elem_of_nil.
  - by eapply known_step.
Qed.

End Readers.

(** X9. In every state the system reaches, what a reader is sending has a
    case in [processMessage], so that its default case never runs: the
    error line of that case is not in the log, and no step adds it. (The
    readers answer an envelope of an unknown type with a warning of their
    own.) *)
Theorem the_manager_knows_every_message env sys :
  reachable env sys →
  (∀ l cm, routines sys !! l = Some (Sending cm) → handled (cm_msg cm) = true) ∧
  (unknown_type_error ∉ trace (machine sys)) ∧
  ∀ a sys', step env a sys = Some sys' →
            unknown_type_error ∉ since (machine sys) (machine sys').
Proof.
  intros Hreach. destruct (reachable_known env sys Hreach) as [Hsend Htrace].
  split_and!; [done | done |].
  intros a sys' Hstep.
  assert (reachable env sys') as Hreach' by (by eapply reachable_step).
  destruct (reachable_known env sys' Hreach') as [_ Htrace'].
  unfold since. intros Hin. apply Htrace'. by eapply subseteq_drop.
Qed.

Lemma the_manager_knows_every_message_witness :
  let sys := default boot (exec example_env [ActRead 1 example_unknown] example_system) in
  ((∀ l cm, routines sys !! l = Some (Sending cm) → handled (cm_msg cm) = true) ∧
   (unknown_type_error ∉ trace (machine sys)) ∧
   ∀ a sys', step example_env a sys = Some sys' →
             unknown_type_error ∉ since (machine sys) (machine sys')) ∧
  since (machine example_system) (machine sys) = [EvLog LvlWarn "unknown message type"].
Proof.
  split.
  - apply (the_manager_knows_every_message example_env).
    apply (exec_reachable example_env [ActRead 1 example_unknown] example_system).
    + apply example_reachable.
    + vm_compute. reflexivity.
  - vm_compute. reflexivity.
Defined.

(** X10. A pass of the loop of [handleClient] returns, leaves the manager and
    the arrays as they are, writes on no connection, and touches no client
    object but its own. After a read error it sends the identifier of its
    client on [fm.removeClient], having changed nothing and logged only an
    unexpected close. After any other frame the last-message time of its
    client is the reading of the clock; it then either sends one message,
    of a type that [processMessage] has a case for and under the identifier
    of its client, and logs nothing, or sends nothing and logs one line. *)
Theorem a_reader_pass_keeps_to_its_client env client c fr s :
  objects s !! client = Some c →
  ∃ snd s',
    handleClient env client fr s = Done snd s' ∧
    fm s' = fm s ∧ arrays s' = arrays s ∧
    writes (since s s') = [] ∧ marshals (since s s') = [] ∧
    (∀ l, l ≠ client → objects s' !! l = objects s !! l) ∧
    match fr with
    | FrReadError unexpected =>
        snd = SendRemoveClient (fc_id c) ∧
        objects s' = objects s ∧ ticks s' = ticks s ∧
        since s s' = if unexpected then [EvLog LvlError "unable to get reader"] else []
    | _ =>
        objects s' !! client = Some (setLastMessageTime (time_Now env (ticks s)) c) ∧
        match snd with
        | SendNothing => ∃ lvl line, since s s' = [EvLog lvl line]
        | SendClientMsg cm =>
            clientID cm = fc_id c ∧ handled (cm_msg cm) = true ∧ since s s' = []
        | SendRemoveClient _ => False
        end
    end.
Proof. apply handleClient_pass. Qed.

Lemma a_reader_pass_keeps_to_its_client_witness :
  let s := example_state in
  let c := {| fc_id := "u3"; fc_conn := Some 3; fc_lastMessageTime := 1011%Z;
              fc_userAgent := "agent three" |} in
  (∃ snd s',
     handleClient example_env 2 (example_frame (example_position "t1" 44 75 9)) s =
       Done snd s' ∧
     fm s' = fm s ∧ arrays s' = arrays s ∧
     writes (since s s') = [] ∧ marshals (since s s') = [] ∧
     (∀ l, l ≠ 2 → objects s' !! l = objects s !! l) ∧
     objects s' !! 2 = Some (setLastMessageTime (time_Now example_env (ticks s)) c) ∧
     match snd with
     | SendNothing => ∃ lvl line, since s s' = [EvLog lvl line]
     | SendClientMsg cm =>
         clientID cm = fc_id c ∧ handled (cm_msg cm) = true ∧ since s s' = []
     | SendRemoveClient _ => False
     end) ∧
  (∃ snd s',
     handleClient example_env 2 (FrReadError false) s = Done snd s' ∧
     fm s' = fm s ∧ arrays s' = arrays s ∧
     writes (since s s') = [] ∧ marshals (since s s') = [] ∧
     (∀ l, l ≠ 2 → objects s' !! l = objects s !! l) ∧
     snd = SendRemoveClient (fc_id c) ∧
     objects s' = objects s ∧ ticks s' = ticks s ∧ since s s' = []).
Proof.
  split.
  - apply (a_reader_pass_keeps_to_its_client example_env 2 _
             (example_frame (example_position "t1" 44 75 9)) example_state).
    vm_compute. reflexivity.
  - apply (a_reader_pass_keeps_to_its_client example_env 2 _
             (FrReadError false) example_state).
    vm_compute. reflexivity.
Defined.

Section Growth.

Context (env : environment).

Lemma positions_same s s' k :
  tracks (fm s') = tracks (fm s) → arrays s ⊆ arrays s' → tracks_ok s →
  positions s' k = positions s k.
Proof.
  intros Htr Hsub Hok. unfold positions. rewrite Htr.
  destruct (tracks (fm s) !! k) as [sl|] eqn:E; simpl; [|done].
  by destruct (elements_of_weaken s s' sl Hsub (Hok k sl E)).
Qed.

Lemma run_positions_prefix r s k :
  tracks_wf s → positions s k `prefix_of` positions (final (run env r s)) k.
Proof.
  intros Hwf. destruct (is_position r) eqn:Hr.
  - destruct r as [c|clientID|[clientID msg]|sm|]; try done.
    destruct msg as [fms|fmu|fp|fbb|ty m|tok]; try done.
    rewrite final_run. unfold processMessage. simpl.
    destruct (handleMsgPosition_spec env fp s Hwf) as (s' & -> & _ & Hk & Hother & _).
    simpl. destruct (decide (k = Track fp)) as [->|Hne].
    + rewrite Hk. by apply prefix_app_r.
    + by rewrite Hother.
  - destruct (run_quiet env r s Hr) as [Htr Hsub].
    rewrite (positions_same s (final (run env r s))) by (done || apply Hwf). done.
Qed.

Lemma step_positions_prefix a sys sys' k :
  sys_inv sys → step env a sys = Some sys' →
  positions (machine sys) k `prefix_of` positions (machine sys') k.
Proof.
  intros [Hreg Hwf]. destruct sys as [s R]. simpl in *.
  assert (∀ r after sys',
            received_by_run env r {| machine := s; routines := R |} after = Some sys' →
            positions s k `prefix_of` positions (machine sys') k) as Hrun.
  { intros r after sys1 (Hfin & _ & _)%received_by_run_Some. cbn [machine] in *.
    rewrite <- Hfin. by apply run_positions_prefix. }
  destruct a as [conn u1 userAgent|l fr|l|sm|]; unfold step; cbn [machine routines].
  - case_decide as Hunused; [|done]. rewrite webSocketHandler_eq. by intros [= <-].
  - destruct (R !! l) as [[| | |]|] eqn:Hl; try done.
    destruct (inv_routines _ _ _ _ Hreg _ _ Hl) as (c & Hc & _).
    destruct (handleClient env l fr s) as [snd s'|] eqn:Hpass; [|done].
    intros [= <-].
    destruct (handleClient_shape _ _ _ _ _ _ _ Hc Hpass) as (Hfm & Harr & _).
    simpl. unfold positions, elements_of, backing. by rewrite Hfm, Harr.
  - destruct (R !! l) as [[|  |cm|clientID]|] eqn:Hl; try done; apply Hrun.
  - apply Hrun.
  - apply Hrun.
Qed.

Lemma exec_positions_prefix acts sys sys' k :
  reachable env sys → exec env acts sys = Some sys' →
  positions (machine sys) k `prefix_of` positions (machine sys') k.
Proof.
  revert sys. induction acts as [|a acts IH]; intros sys Hreach; simpl.
  - by intros [= <-].
  - destruct (step env a sys) as [sys1|] eqn:Hstep; [|done]. simpl. intros Hexec.
    transitivity (positions (machine sys1) k).
    + eapply step_positions_prefix; [by apply (reachable_inv env) | done].
    + apply IH; [by eapply reachable_step | done].
Qed.

(** The manager returns from every client message in a state of the
    invariant. *)
Lemma processMessage_returns cm s :
  tracks_wf s → wired s "bus_button" →
  ∃ s', processMessage env cm s = Done tt s'.
Proof.
  intros Hwf Hw. destruct cm as [clientID msg]. unfold processMessage. simpl.
  destruct msg as [fms|fmu|fp|fbb|ty m|tok].
  - destruct (decide (clientID ∈ subscribers (fm s) (fms_Topic fms))).
    + rewrite handleMsgSubscribe_present by done. by eexists.
    + rewrite handleMsgSubscribe_absent by done. by eexists.
  - destruct (decide (clientID ∈ subscribers (fm s) (fmu_Topic fmu))).
    + rewrite handleMsgUnsubscribe_present by done. by eexists.
    + rewrite handleMsgUnsubscribe_absent by done. by eexists.
  - destruct (handleMsgPosition_spec env fp s Hwf) as (s' & -> & _). by eexists.
  - destruct (handleMsgBusButton_wired env fbb s Hw) as (tr & -> & _). by eexists.
  - by eexists.
  - by eexists.
Qed.

Lemma received_by_run_returns r sys after :
  (∃ a s', run env r (machine sys) = Done a s') →
  is_Some (received_by_run env r sys after).
Proof. intros (a & s' & H). unfold received_by_run. rewrite H. by eexists. Qed.

Lemma enabled_step a sys : sys_inv sys → enabled a sys → is_Some (step env a sys).
Proof.
  intros Hinv. pose proof Hinv as [Hreg Hwf].
  destruct a as [conn u1 userAgent|l fr|l|sm|]; unfold step; cbn [enabled].
  - intros Hunused. rewrite decide_True by done. rewrite webSocketHandler_eq. by eexists.
  - intros Hl. rewrite Hl.
    destruct (inv_routines _ _ _ _ Hreg _ _ Hl) as (c & Hc & _).
    destruct (handleClient_pass env l c fr (machine sys) Hc) as (snd & s' & -> & _).
    by eexists.
  - intros (g & Hl & Hg). rewrite Hl.
    destruct (inv_routines _ _ _ _ Hreg _ _ Hl) as (c & Hc & _).
    destruct g as [| |cm|clientID]; [|done| |]; apply received_by_run_returns; unfold run;
      rewrite bind_eq.
    + rewrite (processAddClient_eq l c) by done. by eexists _, _.
    + destruct (processMessage_returns cm (machine sys) Hwf (inv_wired sys _ Hinv))
        as (s' & ->). by eexists _, _.
    + rewrite processRemoveClient_eq. by eexists _, _.
  - intros _. apply received_by_run_returns. unfold run. rewrite bind_eq.
    destruct (broadcast_returns env sm (machine sys) (inv_wired sys _ Hinv)) as (s' & ->).
    by eexists _, _.
  - intros _. apply received_by_run_returns. unfold run. rewrite bind_eq.
    destruct (processDebug_spec (machine sys) (inv_registry_ok sys Hinv) (proj1 Hwf))
      as (cs & ts & a & -> & _).
    by eexists _, _.
Qed.

Lemma step_enabled a sys : is_Some (step env a sys) → enabled a sys.
Proof.
  destruct a as [conn u1 userAgent|l fr|l|sm|]; unfold step; cbn [enabled]; try done.
  - case_decide; [done|]. by intros [? [=]].
  - destruct (routines sys !! l) as [[| | |]|]; try done; by intros [? [=]].
  - destruct (routines sys !! l) as [[| | |]|] eqn:E; try (by intros [? [=]]);
      intros _; by eexists.
Qed.

End Growth.

(** X11. From a state the system reaches, whatever happens next, every track
    keeps the positions it has, in their order and as they are: the
    positions of a track are a prefix of its positions in every later
    state, and of its positions after any pass of [run]. *)
Theorem tracks_only_grow env sys :
  reachable env sys →
  (∀ acts sys' k,
     exec env acts sys = Some sys' →
     positions (machine sys) k `prefix_of` positions (machine sys') k) ∧
  (∀ r k,
     positions (machine sys) k `prefix_of` positions (final (run env r (machine sys))) k).
Proof.
  intros Hreach. split.
  - intros acts sys' k. by apply exec_positions_prefix.
  - intros r k. apply run_positions_prefix. apply (reachable_inv env sys Hreach).
Qed.

Lemma tracks_only_grow_witness :
  (∀ acts sys' k,
     exec example_env acts example_system = Some sys' →
     positions (machine example_system) k `prefix_of` positions (machine sys') k) ∧
  (∀ r k,
     positions (machine example_system) k `prefix_of`
     positions (final (run example_env r (machine example_system))) k).
Proof.
  apply (tracks_only_grow example_env example_system). apply example_reachable.
Defined.

(** X12. In a state the system reaches, an action happens exactly when it is
    enabled: no pass of [run], of a reader or of the handler of a new
    connection panics. *)
Theorem the_manager_and_the_readers_never_panic env sys a :
  reachable env sys → enabled a sys ↔ is_Some (step env a sys).
Proof.
  intros Hreach. split.
  - apply enabled_step. by apply (reachable_inv env).
  - apply step_enabled.
Qed.

Lemma the_manager_and_the_readers_never_panic_witness :
  enabled (ActReceive 0) example_closing ↔
  is_Some (step example_env (ActReceive 0) example_closing).
Proof.
  apply (the_manager_and_the_readers_never_panic example_env example_closing).
  apply (exec_reachable example_env [ActRead 0 (FrReadError true)] example_system).
  - apply example_reachable.
  - vm_compute. reflexivity.
Defined.

(** X13. In every state the system reaches, the registry maps an identifier to
    a client object with that identifier and a connection, whose reader is
    running; the client of every running reader is registered under its
    identifier, and a client whose handler has not yet been received is
    not registered; no two client objects share an identifier or a
    connection. *)
Theorem the_registry_matches_the_readers env sys :
  reachable env sys →
  (∀ clientID l,
     clients (fm (machine sys)) !! clientID = Some l →
     ∃ c g, objects (machine sys) !! l = Some c ∧ fc_id c = clientID ∧
            is_Some (fc_conn c) ∧
            routines sys !! l = Some g ∧ g ≠ Connecting) ∧
  (∀ l g,
     routines sys !! l = Some g →
     ∃ c, objects (machine sys) !! l = Some c ∧
          (g ≠ Connecting → clients (fm (machine sys)) !! fc_id c = Some l) ∧
          (g = Connecting → clients (fm (machine sys)) !! fc_id c = None)) ∧
  (∀ l1 l2 c1 c2,
     objects (machine sys) !! l1 = Some c1 → objects (machine sys) !! l2 = Some c2 →
     fc_id c1 = fc_id c2 ∨ fc_conn c1 = fc_conn c2 → l1 = l2).
Proof.
  intros Hreach. destruct (reachable_inv env sys Hreach) as [Hreg _]. split_and!.
  - intros clientID l Hl.
    destruct (inv_registry _ _ _ _ Hreg _ _ Hl) as (c & g & Hc & Hid & Hg & Hne).
    exists c, g. split_and!; try done. by eapply inv_conn.
  - intros l g Hg. destruct (inv_routines _ _ _ _ Hreg _ _ Hg) as (c & Hc & Ha).
    exists c. split_and!; [done | |].
    + intros Hne. destruct g; simpl in Ha; [done | done | by destruct Ha | by destruct Ha].
    + intros ->.
      destruct (clients (fm (machine sys)) !! fc_id c) as [l'|] eqn:E; [|done].
      destruct (inv_registry _ _ _ _ Hreg _ _ E) as (c' & g' & Hc' & Hid & Hg' & Hne).
      assert (l' = l) as -> by (eapply (inv_unique _ _ _ _ Hreg); eauto).
      congruence.
  - apply (inv_unique _ _ _ _ Hreg).
Qed.

Lemma the_registry_matches_the_readers_witness :
  (∀ clientID l,
     clients (fm (machine example_connecting)) !! clientID = Some l →
     ∃ c g, objects (machine example_connecting) !! l = Some c ∧ fc_id c = clientID ∧
            is_Some (fc_conn c) ∧
            routines example_connecting !! l = Some g ∧ g ≠ Connecting) ∧
  (∀ l g,
     routines example_connecting !! l = Some g →
     ∃ c, objects (machine example_connecting) !! l = Some c ∧
          (g ≠ Connecting → clients (fm (machine example_connecting)) !! fc_id c = Some l) ∧
          (g = Connecting → clients (fm (machine example_connecting)) !! fc_id c = None)) ∧
  (∀ l1 l2 c1 c2,
     objects (machine example_connecting) !! l1 = Some c1 →
     objects (machine example_connecting) !! l2 = Some c2 →
     fc_id c1 = fc_id c2 ∨ fc_conn c1 = fc_conn c2 → l1 = l2).
Proof.
  apply (the_registry_matches_the_readers example_env example_connecting).
  apply (exec_reachable example_env [ActUpgrade 4 "u4" "agent four"] example_system).
  - apply example_reachable.
  - vm_compute. reflexivity.
Defined.

Section Connecting.

Context (env : environment).

Lemma unused_unregistered sys conn u1 :
  sys_inv sys → unused (machine sys) conn u1 →
  clients (fm (machine sys)) !! u1 = None ∧
  ∀ topic, u1 ∉ subscribers (fm (machine sys)) topic.
Proof.
  intros [Hreg _] Hunused.
  assert (clients (fm (machine sys)) !! u1 = None) as Hnone.
  { destruct (clients (fm (machine sys)) !! u1) as [l|] eqn:E; [|done].
    destruct (inv_registry _ _ _ _ Hreg _ _ E) as (c & g & Hc & Hid & _).
    by destruct (Hunused l c Hc). }
  split; [done|]. intros topic Hin. unfold subscribers in Hin.
  destruct (subscriptions (fm (machine sys)) !! topic) as [subs|] eqn:E;
    simpl in Hin; [|by apply elem_of_nil in Hin].
  destruct (proj1 (Forall_forall _ _) (inv_subs _ _ _ _ Hreg topic subs E) u1 Hin) as [l Hl].
  congruence.
Qed.

End Connecting.

(** X14. In a state the system reaches, [webSocketHandler] on a new connection
    with a new identifier makes a client object of its own with the
    reading of the clock and leaves the manager as it is; once [run] has
    received the client, it is registered under the identifier, its reader
    runs, the other registrations and all subscriptions are as before, no
    topic lists it, and a broadcast that follows writes nothing on its
    connection. When the upgrade or [uuid.NewV1] fails, the handler logs
    the error, answers with status 500, makes no client and sends none. *)
Theorem a_new_client_is_registered_without_subscriptions env sys conn u1 userAgent :
  reachable env sys →
  unused (machine sys) conn u1 →
  ∃ c sys1 sys2,
    (∀ w, webSocketHandler_request env (Some conn) (Some u1) userAgent w (machine sys) =
          Done (Some c, w) (machine sys1)) ∧
    step env (ActUpgrade conn u1 userAgent) sys = Some sys1 ∧
    objects (machine sys) !! c = None ∧
    objects (machine sys1) =
      <[c := {| fc_id := u1; fc_conn := Some conn;
                fc_lastMessageTime := time_Now env (ticks (machine sys));
                fc_userAgent := userAgent |}]> (objects (machine sys)) ∧
    fm (machine sys1) = fm (machine sys) ∧
    routines sys1 = <[c := Connecting]> (routines sys) ∧
    step env (ActReceive c) sys1 = Some sys2 ∧
    clients (fm (machine sys)) !! u1 = None ∧
    clients (fm (machine sys2)) = <[u1 := c]> (clients (fm (machine sys))) ∧
    subscriptions (fm (machine sys2)) = subscriptions (fm (machine sys)) ∧
    (∀ topic, u1 ∉ subscribers (fm (machine sys2)) topic) ∧
    connOf (machine sys2) u1 = Some conn ∧
    objects (machine sys2) = objects (machine sys1) ∧
    routines sys2 = <[c := Reading]> (routines sys) ∧
    since (machine sys) (machine sys2) = [EvGo c] ∧
    (∀ sm, writes_on conn
             (since (machine sys2) (final (processServerMessage env sm (machine sys2)))) = []) ∧
    (∀ w newV1,
       webSocketHandler_request env None newV1 userAgent w (machine sys) =
         Done (None, w ++ [HttpError StatusInternalServerError])
              (logged [EvLog LvlError "unable to upgrade connection"] (machine sys))) ∧
    (∀ w,
       webSocketHandler_request env (Some conn) None userAgent w (machine sys) =
         Done (None, w ++ [HttpError StatusInternalServerError])
              (logged [EvLog LvlError "unable to generate UUID"] (machine sys))).
Proof.
  intros Hreach Hunused. pose proof (reachable_inv env sys Hreach) as Hinv.
  destruct (unused_unregistered sys conn u1 Hinv Hunused) as [Hnone Hsubs].
  destruct sys as [s R]. cbn [machine routines] in *.
  set (c := fresh (dom (objects s))).
  set (cl := {| fc_id := u1; fc_conn := Some conn;
                fc_lastMessageTime := time_Now env (ticks s); fc_userAgent := userAgent |}).
  set (s1 := setObjects (<[c := cl]> (objects s)) (ticked s)).
  set (s2 := logged [EvGo c] (setFM (setClients (<[u1 := c]> (clients (fm s))) (fm s)) s1)).
  assert (objects s !! c = None) as Hfresh by apply not_elem_of_dom, is_fresh.
  exists c, {| machine := s1; routines := <[c := Connecting]> R |},
         {| machine := s2; routines := <[c := Reading]> R |}.
  cbn [machine routines].
  assert (connOf s2 u1 = Some conn) as Hconn.
  { unfold connOf. simpl. rewrite lookup_insert_eq. simpl. by rewrite lookup_insert_eq. }
  split_and!; try done.
  - unfold step. cbn [machine routines]. rewrite decide_True by done.
    by rewrite webSocketHandler_eq.
  - unfold step. cbn [machine routines]. rewrite lookup_insert_eq.
    unfold received_by_run, run. cbn [machine routines]. rewrite bind_eq.
    rewrite (processAddClient_eq c cl) by (simpl; by rewrite lookup_insert_eq).
    simpl. by rewrite insert_insert_eq.
  - by apply since_app.
  - intros sm. apply broadcast_spares. apply Forall_forall. intros clientID Hin Hc.
    assert (clientID ≠ u1) as Hne by (intros ->; by apply (Hsubs (topic sm))).
    unfold connOf in Hc. simpl in Hc. rewrite lookup_insert_ne in Hc by done.
    destruct (clients (fm s) !! clientID) as [l|] eqn:E; [|done]. simpl in Hc.
    destruct Hinv as [Hreg _]. simpl in Hreg.
    destruct (inv_registry _ _ _ _ Hreg _ _ E) as (c' & g & Hc' & _).
    assert (l ≠ c) as Hl by congruence.
    rewrite lookup_insert_ne in Hc by done. rewrite Hc' in Hc. simpl in Hc.
    by destruct (Hunused l c' Hc').
Qed.

Lemma a_new_client_is_registered_without_subscriptions_witness :
  ∃ c sys1 sys2,
    (∀ w, webSocketHandler_request example_env (Some 4) (Some "u4") "agent four" w
            (machine example_system) = Done (Some c, w) (machine sys1)) ∧
    step example_env (ActUpgrade 4 "u4" "agent four") example_system = Some sys1 ∧
    objects (machine example_system) !! c = None ∧
    objects (machine sys1) =
      <[c := {| fc_id := "u4"; fc_conn := Some 4;
                fc_lastMessageTime := time_Now example_env (ticks (machine example_system));
                fc_userAgent := "agent four" |}]> (objects (machine example_system)) ∧
    fm (machine sys1) = fm (machine example_system) ∧
    routines sys1 = <[c := Connecting]> (routines example_system) ∧
    step example_env (ActReceive c) sys1 = Some sys2 ∧
    clients (fm (machine example_system)) !! "u4" = None ∧
    clients (fm (machine sys2)) = <["u4" := c]> (clients (fm (machine example_system))) ∧
    subscriptions (fm (machine sys2)) = subscriptions (fm (machine example_system)) ∧
    (∀ topic, "u4" ∉ subscribers (fm (machine sys2)) topic) ∧
    connOf (machine sys2) "u4" = Some 4 ∧
    objects (machine sys2) = objects (machine sys1) ∧
    routines sys2 = <[c := Reading]> (routines example_system) ∧
    since (machine example_system) (machine sys2) = [EvGo c] ∧
    (∀ sm, writes_on 4
             (since (machine sys2)
                (final (processServerMessage example_env sm (machine sys2)))) = []) ∧
    (∀ w newV1,
       webSocketHandler_request example_env None newV1 "agent four" w
         (machine example_system) =
         Done (None, w ++ [HttpError StatusInternalServerError])
              (logged [EvLog LvlError "unable to upgrade connection"]
                 (machine example_system))) ∧
    (∀ w,
       webSocketHandler_request example_env (Some 4) None "agent four" w
         (machine example_system) =
         Done (None, w ++ [HttpError StatusInternalServerError])
              (logged [EvLog LvlError "unable to generate UUID"] (machine example_system))).
Proof.
  apply (a_new_client_is_registered_without_subscriptions example_env example_system
           4 "u4" "agent four").
  - apply example_reachable.
  - by_computation.
Defined.

(** X15. In a state the system reaches, the message that [handleETA] sends is
    handled without a panic: the envelope of type "eta" is marshalled once,
    and, when it marshals, its bytes are written once on the connection of
    every subscriber of "eta" and on no other connection; the manager and
    the client objects stay as they are. *)
Theorem an_ETA_goes_to_the_subscribers_of_eta env sys eta :
  reachable env sys →
  ∃ sys',
    step env (ActServer (handleETA eta)) sys = Some sys' ∧
    fm (machine sys') = fm (machine sys) ∧
    objects (machine sys') = objects (machine sys) ∧
    routines sys' = routines sys ∧
    marshals (since (machine sys) (machine sys')) = [VEnvelope "eta" (VOpaque eta)] ∧
    writes (since (machine sys) (machine sys')) =
      broadcastWrites env (machine sys) "eta" (VEnvelope "eta" (VOpaque eta)) ∧
    ∀ clientID conn,
      connOf (machine sys) clientID = Some conn →
      writes_on conn (since (machine sys) (machine sys')) =
      match json_Marshal env (VEnvelope "eta" (VOpaque eta)) with
      | Some b => if decide (clientID ∈ subscribers (fm (machine sys)) "eta") then [b] else []
      | None => []
      end.
Proof.
  intros Hreach. pose proof (reachable_inv env sys Hreach) as Hinv.
  pose proof Hinv as [Hreg _].
  destruct sys as [s R]. cbn [machine routines] in *.
  unfold step, received_by_run, run. cbn [machine routines]. rewrite bind_eq.
  unfold broadcastWrites.
  destruct (json_Marshal env (VEnvelope "eta" (VOpaque eta))) as [b|] eqn:Hb.
  - destruct (processServerMessage_wired env (handleETA eta) s b Hb) as (tr & -> & Hw & Hm).
    { apply (inv_wired {| machine := s; routines := R |}). done. }
    eexists. split; [reflexivity|]. cbn [machine routines].
    rewrite since_logged.
    assert (marshals (EvMarshal (sm_msg (handleETA eta)) :: tr) =
              [VEnvelope "eta" (VOpaque eta)]) as Hm'.
    { change (marshals ([EvMarshal (sm_msg (handleETA eta))] ++ tr) =
              [VEnvelope "eta" (VOpaque eta)]).
      by rewrite marshals_app, Hm. }
    assert (writes (EvMarshal (sm_msg (handleETA eta)) :: tr) =
              fanout s b (subscribers (fm s) "eta")) as Hw'.
    { change (writes ([EvMarshal (sm_msg (handleETA eta))] ++ tr) =
              fanout s b (subscribers (fm s) "eta")).
      by rewrite writes_app, Hw. }
    split_and!; try done.
    + intros clientID conn Hc. unfold writes_on. rewrite Hw'.
      apply fanout_on; [| |done].
      * apply (inv_conns_distinct {| machine := s; routines := R |}). done.
      * unfold subscribers. destruct (subscriptions (fm s) !! "eta") as [subs|] eqn:E;
          simpl; [|constructor].
        apply (inv_nodup _ _ _ _ Hreg "eta" subs E).
  - rewrite (processServerMessage_unmarshalled env (handleETA eta)) by done.
    eexists. split; [reflexivity|]. cbn [machine routines]. rewrite since_logged.
    split_and!; done.
Qed.

Lemma an_ETA_goes_to_the_subscribers_of_eta_witness :
  ∃ sys',
    step example_env (ActServer (handleETA 7)) example_system = Some sys' ∧
    fm (machine sys') = fm (machine example_system) ∧
    objects (machine sys') = objects (machine example_system) ∧
    routines sys' = routines example_system ∧
    marshals (since (machine example_system) (machine sys')) =
      [VEnvelope "eta" (VOpaque 7)] ∧
    writes (since (machine example_system) (machine sys')) =
      broadcastWrites example_env (machine example_system) "eta"
        (VEnvelope "eta" (VOpaque 7)) ∧
    ∀ clientID conn,
      connOf (machine example_system) clientID = Some conn →
      writes_on conn (since (machine example_system) (machine sys')) =
      match json_Marshal example_env (VEnvelope "eta" (VOpaque 7)) with
      | Some b =>
          if decide (clientID ∈ subscribers (fm (machine example_system)) "eta")
          then [b] else []
      | None => []
      end.
Proof.
  apply (an_ETA_goes_to_the_subscribers_of_eta example_env example_system 7).
  apply example_reachable.
Defined.

(** The counter after bus buttons, in [uint64]. *)
Lemma wrap64_add n m : wrap64 (wrap64 n + m) = wrap64 (n + m).
Proof. unfold wrap64. by rewrite Zplus_mod_idemp_l. Qed.

Lemma runs_busButtons_wrap env evs s :
  wired s "bus_button" →
  (0 ≤ busButtonCount (fm s) < 2 ^ 64)%Z →
  ∃ tr,
    runs env (busButtonEvents evs) s =
      Done tt (logged tr (setFM (setBusButtonCount
                 (wrap64 (busButtonCount (fm s) + Z.of_nat (length evs))) (fm s)) s)).
Proof.
  revert s. induction evs as [|[clientID fbb] evs IH]; intros s Hw Hc.
  - exists []. simpl. rewrite Z.add_0_r, wrap64_small by done.
    by rewrite setBusButtonCount_same, logged_nil.
  - destruct (handleMsgBusButton_wired env fbb s Hw) as (tr1 & Hrun1 & _).
    set (s1 := logged tr1 _) in Hrun1.
    destruct (IH s1) as (tr & Hrun).
    { exact Hw. }
    { simpl. apply wrap64_range. }
    exists (tr1 ++ tr).
    change (runs env (busButtonEvents ((clientID, fbb) :: evs)) s) with
      ((run env (RecvClientMsg {| clientID := clientID; cm_msg := VBusButton fbb |});;
        runs env (busButtonEvents evs)) s).
    rewrite bind_eq, run_busButton, Hrun1, Hrun.
    unfold s1, logged, setFM, setBusButtonCount. simpl. f_equal. f_equal.
    + f_equal. rewrite wrap64_add. f_equal. lia.
    + by rewrite app_assoc.
Qed.

(** X16. Bus buttons, handled one after the other from a counter in the range
    of [uint64], all return and leave the counter at the sum modulo 2^64:
    the counter that reaches 2^64 is back at zero. *)
Theorem the_counter_wraps_at_the_end_of_uint64 env s evs :
  wired s "bus_button" →
  (0 ≤ busButtonCount (fm s) < 2 ^ 64)%Z →
  ∃ s',
    runs env (busButtonEvents evs) s = Done tt s' ∧
    busButtonCount (fm s') = wrap64 (busButtonCount (fm s) + Z.of_nat (length evs)) ∧
    (0 ≤ busButtonCount (fm s') < 2 ^ 64)%Z ∧
    ((busButtonCount (fm s) + Z.of_nat (length evs) = 2 ^ 64)%Z →
     busButtonCount (fm s') = 0%Z).
Proof.
  intros Hw Hc. destruct (runs_busButtons_wrap env evs s Hw Hc) as (tr & ->).
  eexists. split; [reflexivity|]. simpl.
  split; [done|]. split; [apply wrap64_range|]. intros ->. done.
Qed.

Lemma the_counter_wraps_at_the_end_of_uint64_witness :
  ∃ s',
    runs example_env (busButtonEvents [("u1", example_button); ("u2", example_button)])
      example_full = Done tt s' ∧
    busButtonCount (fm s') = wrap64 (busButtonCount (fm example_full) + Z.of_nat 2) ∧
    (0 ≤ busButtonCount (fm s') < 2 ^ 64)%Z ∧
    ((busButtonCount (fm example_full) + Z.of_nat 2 = 2 ^ 64)%Z →
     busButtonCount (fm s') = 0%Z).
Proof.
  apply (the_counter_wraps_at_the_end_of_uint64 example_env example_full
           [("u1", example_button); ("u2", example_button)]).
  - by_computation.
  - split; [vm_compute; discriminate | vm_compute; reflexivity].
Defined.

Section HttpProofs.

Context (henv : httpEnvironment).

Lemma W_bind_eq {A B} (m : W A) (k : A → W B) w s :
  (m ≫= k) w s =
  match m w s with
  | Done aw s' => k aw.1 aw.2 s'
  | Panic why s' => Panic why s'
  end.
Proof. done. Qed.

Lemma writeClients_attempts cs w s :
  writeClients henv cs w s =
    Done (tt, (attempts henv w (clientLine henv <$> cs)).1)
         (if (attempts henv w (clientLine henv <$> cs)).2
          then logged [response_error] s else s).
Proof.
  revert w. induction cs as [|client cs IH]; intros w; [done|].
  cbn [writeClients fmap list_fmap attempts]. rewrite W_bind_eq. unfold fprint at 1.
  cbn beta iota. cbn [fst snd].
  destruct (Fprint_err henv w (clientLine henv client)); [done|]. apply IH.
Qed.

Lemma debugHandler_eq w s :
  debugHandler henv w s =
  if Fprint_err henv w debugTitle
  then Done (tt, w ++ [Fprint debugTitle]) (logged [response_error] s)
  else
    match processDebug s with
    | Done d s1 =>
        Done (tt, (attempts henv (w ++ [Fprint debugTitle]) (debugLines henv d)).1)
             (if (attempts henv (w ++ [Fprint debugTitle]) (debugLines henv d)).2
              then logged [response_error] s1 else s1)
    | Panic why s1 => Panic why s1
    end.
Proof.
  unfold debugHandler. rewrite W_bind_eq. unfold fprint at 1. cbn beta iota. cbn [fst snd].
  fold debugTitle. destruct (Fprint_err henv w debugTitle); [done|].
  rewrite W_bind_eq. unfold lift at 1, debugInfo.
  destruct (processDebug s) as [d s1|]; [|done]. cbn beta iota. cbn [fst snd].
  unfold debugLines. cbn [attempts app].
  repeat (rewrite W_bind_eq; unfold fprint at 1; cbn beta iota; cbn [fst snd];
          match goal with
          | |- context [Fprint_err henv ?w ?t] => destruct (Fprint_err henv w t); [done|]
          end).
  apply writeClients_attempts.
Qed.

(** [attempts] writes every text, or stops after the first write that
    fails. *)
Lemma attempts_cases w texts :
  (attempts henv w texts = (w ++ (Fprint <$> texts), false) ∧
   ∀ i text, texts !! i = Some text →
             Fprint_err henv (w ++ (Fprint <$> take i texts)) text = false) ∨
  (∃ pre text post,
     texts = pre ++ text :: post ∧
     attempts henv w texts = (w ++ (Fprint <$> pre ++ [text]), true) ∧
     Fprint_err henv (w ++ (Fprint <$> pre)) text = true ∧
     ∀ i t, pre !! i = Some t →
            Fprint_err henv (w ++ (Fprint <$> take i pre)) t = false).
Proof.
  revert w. induction texts as [|text texts IH]; intros w.
  { left. simpl. rewrite app_nil_r. split; [done|]. by intros i text [=]. }
  simpl. destruct (Fprint_err henv w text) eqn:E.
  - right. exists [], text, texts. simpl. rewrite app_nil_r. split_and!; done.
  - destruct (IH (w ++ [Fprint text])) as [[-> Hok]|(pre & t & post & -> & -> & Herr & Hok)].
    + left. rewrite <- app_assoc. split; [done|].
      intros [|i] t; simpl.
      * intros [= <-]. by rewrite app_nil_r.
      * intros Hl. specialize (Hok i t Hl). by rewrite <- app_assoc in Hok.
    + right. exists (text :: pre), t, post. rewrite <- !app_assoc in *.
      split_and!; try done.
      intros [|i] t'; simpl.
      * intros [= <-]. by rewrite app_nil_r.
      * intros Hl. specialize (Hok i t' Hl). by rewrite <- app_assoc in Hok.
Qed.

Lemma attempts_all w texts :
  (∀ w text, Fprint_err henv w text = false) →
  attempts henv w texts = (w ++ (Fprint <$> texts), false).
Proof.
  intros Hok. revert w. induction texts as [|text texts IH]; intros w; simpl.
  - by rewrite app_nil_r.
  - rewrite Hok, IH. by rewrite <- app_assoc.
Qed.

Lemma numPositions_sum ts : numPositions ts = sum_list (len <$> ts).
Proof.
  unfold numPositions.
  assert (∀ n, foldl (λ n track, n + len track) n ts = n + sum_list (len <$> ts)) as H.
  { induction ts as [|t ts IH]; intros n; simpl; [lia|].
    rewrite IH. symmetry. apply Nat.add_assoc. }
  by rewrite H.
Qed.

Lemma track_positions s k sl :
  tracks (fm s) !! k = Some sl → positions s k = elements_of s sl.
Proof. intros H. unfold positions. by rewrite H. Qed.

Lemma copies_positions s s' (kvs : list (string * slice)) ts :
  Forall2 (λ kv t, copy_of s s' kv.2 t) kvs ts →
  Forall (λ kv, slice_ok s kv.2 ∧ positions s kv.1 = elements_of s kv.2) kvs →
  len <$> ts = (λ kv, length (positions s kv.1)) <$> kvs ∧
  elements_of s' <$> ts = (λ kv, positions s kv.1) <$> kvs.
Proof.
  induction 1 as [|[k v] t kvs ts Ht _ IH]; [done|].
  intros [[Hok Hpos] Hkv]%Forall_cons. rewrite !fmap_cons.
  destruct (IH Hkv) as [-> ->]. destruct Ht as (l & _ & Hlen & _ & _ & Hel).
  simpl in Hok, Hpos, Hlen, Hel. split; f_equal; simpl.
  - rewrite Hpos, Hlen. by rewrite elements_of_length.
  - by rewrite Hpos.
Qed.

(** The snapshot of a well-formed state, as the handlers use it. *)
Lemma processDebug_counts s :
  registry_ok s → tracks_ok s →
  ∃ d s1,
    processDebug s = Done d s1 ∧
    fm s1 = fm s ∧ objects s1 = objects s ∧ trace s1 = trace s ∧ ticks s1 = ticks s ∧
    dbg_busButtonCount d = busButtonCount (fm s) ∧
    length (dbg_clients d) = size (clients (fm s)) ∧
    length (dbg_tracks d) = size (tracks (fm s)) ∧
    numPositions (dbg_tracks d) =
      sum_list ((λ kv, length (positions s kv.1)) <$> map_to_list (tracks (fm s))) ∧
    elements_of s1 <$> dbg_tracks d =
      (λ kv, positions s kv.1) <$> map_to_list (tracks (fm s)) ∧
    Forall2 (λ kv c, ∃ v, objects s !! kv.2 = Some v ∧ c = debugClient v)
            (map_to_list (clients (fm s))) (dbg_clients d).
Proof.
  intros Hreg Htr.
  destruct (processDebug_spec s Hreg Htr) as (cs & ts & a & Hrun & Hsub & Hcs & Hts & Hnd).
  eexists _, _. split; [exact Hrun|]. cbn [dbg_clients dbg_tracks dbg_busButtonCount].
  assert (Forall (λ kv, slice_ok s kv.2 ∧ positions s kv.1 = elements_of s kv.2)
                 (map_to_list (tracks (fm s)))) as Hkv.
  { apply Forall_forall. intros [k sl] Hin%elem_of_map_to_list. simpl.
    split; [by apply (Htr k sl) | by apply track_positions]. }
  destruct (copies_positions _ _ _ _ Hts Hkv) as [Hlen Hel].
  split_and!; try done.
  - rewrite <- (Forall2_length _ _ _ Hcs). by rewrite length_map_to_list.
  - rewrite <- (Forall2_length _ _ _ Hts). by rewrite length_map_to_list.
  - by rewrite numPositions_sum, Hlen.
Qed.

End HttpProofs.

(** X17. When no write on the response fails, [debugHandler] writes the title
    and then the numbers of the state it was called in: the number of
    tracks, the number of positions of all tracks together, the counter of
    bus buttons and the number of clients, and then one line for every
    registered client, with its last-message time and user agent; it
    leaves the manager, the client objects, the log and the clock as they
    are. *)
Theorem the_debug_page_reports_the_state henv s :
  registry_ok s → tracks_ok s →
  (∀ w text, Fprint_err henv w text = false) →
  ∃ d s',
    debugHandler henv [] s = Done (tt, Fprint <$> debugTitle :: debugLines henv d) s' ∧
    fm s' = fm s ∧ objects s' = objects s ∧ trace s' = trace s ∧ ticks s' = ticks s ∧
    length (dbg_tracks d) = size (tracks (fm s)) ∧
    numPositions (dbg_tracks d) =
      sum_list ((λ kv, length (positions s kv.1)) <$> map_to_list (tracks (fm s))) ∧
    dbg_busButtonCount d = busButtonCount (fm s) ∧
    length (dbg_clients d) = size (clients (fm s)) ∧
    Forall2 (λ kv c, ∃ v, objects s !! kv.2 = Some v ∧
                          clientLine henv c = clientLine henv v)
            (map_to_list (clients (fm s))) (dbg_clients d).
Proof.
  intros Hreg Htr Hok.
  destruct (processDebug_counts s Hreg Htr)
    as (d & s1 & Hrun & Hfm & Hobj & Htrace & Hticks & Hc & Hnc & Hnt & Hnp & _ & Hcs).
  exists d, s1. rewrite debugHandler_eq, Hok, Hrun, attempts_all by done.
  split_and!; try done.
  eapply Forall2_impl; [exact Hcs|]. intros kv c (v & Hv & ->). by exists v.
Qed.

Lemma the_debug_page_reports_the_state_witness :
  ∃ d s',
    debugHandler example_henv [] example_state =
      Done (tt, Fprint <$> debugTitle :: debugLines example_henv d) s' ∧
    fm s' = fm example_state ∧ objects s' = objects example_state ∧
    trace s' = trace example_state ∧ ticks s' = ticks example_state ∧
    length (dbg_tracks d) = size (tracks (fm example_state)) ∧
    numPositions (dbg_tracks d) =
      sum_list ((λ kv, length (positions example_state kv.1)) <$>
                map_to_list (tracks (fm example_state))) ∧
    dbg_busButtonCount d = busButtonCount (fm example_state) ∧
    length (dbg_clients d) = size (clients (fm example_state)) ∧
    Forall2 (λ kv c, ∃ v, objects example_state !! kv.2 = Some v ∧
                          clientLine example_henv c = clientLine example_henv v)
            (map_to_list (clients (fm example_state))) (dbg_clients d).
Proof.
  apply (the_debug_page_reports_the_state example_henv example_state).
  - by_computation.
  - by_computation.
  - done.
Defined.

(** X18. When the write of the title fails, [debugHandler] logs the error and
    returns without asking the manager for anything. Otherwise it takes the
    snapshot and writes its texts up to the first write that fails, logs
    that one error and writes nothing more; when no write fails the whole
    page is written and nothing is logged. *)
Theorem the_debug_page_stops_at_the_first_failed_write henv w s :
  (Fprint_err henv w debugTitle = true →
   debugHandler henv w s =
     Done (tt, w ++ [Fprint debugTitle]) (logged [response_error] s)) ∧
  (Fprint_err henv w debugTitle = false →
   registry_ok s → tracks_ok s →
   ∃ d s1,
     processDebug s = Done d s1 ∧
     ((debugHandler henv w s =
         Done (tt, w ++ (Fprint <$> debugTitle :: debugLines henv d)) s1 ∧
       ∀ i text, debugLines henv d !! i = Some text →
                 Fprint_err henv (w ++ (Fprint <$> debugTitle :: take i (debugLines henv d)))
                   text = false) ∨
      (∃ pre text post,
         debugLines henv d = pre ++ text :: post ∧
         debugHandler henv w s =
           Done (tt, w ++ (Fprint <$> debugTitle :: pre ++ [text]))
                (logged [response_error] s1) ∧
         Fprint_err henv (w ++ (Fprint <$> debugTitle :: pre)) text = true ∧
         ∀ i t, pre !! i = Some t →
                Fprint_err henv (w ++ (Fprint <$> debugTitle :: take i pre)) t = false))).
Proof.
  split.
  - intros Herr. by rewrite debugHandler_eq, Herr.
  - intros Hok Hreg Htr.
    destruct (processDebug_counts s Hreg Htr) as (d & s1 & Hrun & _).
    exists d, s1. split; [done|]. rewrite debugHandler_eq, Hok, Hrun.
    destruct (attempts_cases henv (w ++ [Fprint debugTitle]) (debugLines henv d))
      as [[-> Hall]|(pre & text & post & Hlines & -> & Herr & Hall)].
    + left. simpl. rewrite <- app_assoc. split; [done|].
      intros i text Hl. specialize (Hall i text Hl). by rewrite <- app_assoc in Hall.
    + right. exists pre, text, post. simpl. rewrite <- !app_assoc in *.
      split_and!; try done.
      intros i t Hl. specialize (Hall i t Hl). by rewrite <- app_assoc in Hall.
Qed.

Lemma the_debug_page_stops_at_the_first_failed_write_witness :
  ∃ d s1,
    processDebug example_state = Done d s1 ∧
    ((debugHandler example_henv_short [] example_state =
        Done (tt, [] ++ (Fprint <$> debugTitle :: debugLines example_henv_short d)) s1 ∧
      ∀ i text, debugLines example_henv_short d !! i = Some text →
                Fprint_err example_henv_short
                  ([] ++ (Fprint <$> debugTitle :: take i (debugLines example_henv_short d)))
                  text = false) ∨
     (∃ pre text post,
        debugLines example_henv_short d = pre ++ text :: post ∧
        debugHandler example_henv_short [] example_state =
          Done (tt, [] ++ (Fprint <$> debugTitle :: pre ++ [text]))
               (logged [response_error] s1) ∧
        Fprint_err example_henv_short ([] ++ (Fprint <$> debugTitle :: pre)) text = true ∧
        ∀ i t, pre !! i = Some t →
               Fprint_err example_henv_short
                 ([] ++ (Fprint <$> debugTitle :: take i pre)) t = false)).
Proof.
  apply (proj2 (the_debug_page_stops_at_the_first_failed_write example_henv_short []
                  example_state)).
  - reflexivity.
  - by_computation.
  - by_computation.
Defined.

(** X19. [exportHandler] sets the content type, takes a snapshot and encodes
    the positions of every track of the manager, once per track and in
    their order; when the encoder fails it logs the error and answers with
    status 500. The manager, the client objects and the log of the manager
    are those of before. *)
Theorem the_export_is_the_tracks henv w s :
  registry_ok s → tracks_ok s →
  ∃ d s1,
    processDebug s = Done d s1 ∧
    fm s1 = fm s ∧ objects s1 = objects s ∧ trace s1 = trace s ∧
    exportHandler henv w s =
      let w1 := w ++ [HeaderSet "Content-Type" "application/json"] in
      let v := (λ kv, positions s kv.1) <$> map_to_list (tracks (fm s)) in
      if Encode_err henv w1 v
      then Done (tt, w1 ++ [Encode v; HttpError StatusInternalServerError])
                (logged [EvLog LvlError "unable to encode"] s1)
      else Done (tt, w1 ++ [Encode v]) s1.
Proof.
  intros Hreg Htr.
  destruct (processDebug_counts s Hreg Htr)
    as (d & s1 & Hrun & Hfm & Hobj & Htrace & _ & _ & _ & _ & _ & Hv & _).
  exists d, s1. split_and!; try done.
  unfold exportHandler. rewrite W_bind_eq. unfold headerSet at 1. cbn beta iota. cbn [fst snd].
  rewrite W_bind_eq. unfold lift at 1, debugInfo. rewrite Hrun. cbn beta iota. cbn [fst snd].
  rewrite W_bind_eq. unfold lift at 1, get. cbn beta iota. cbn [fst snd].
  rewrite W_bind_eq. unfold encode at 1. cbn beta iota. cbn [fst snd].
  rewrite Hv. cbn zeta.
  destruct (Encode_err henv _ _); [|done].
  rewrite W_bind_eq. unfold lift at 1, logError, emit. cbn beta iota. cbn [fst snd].
  unfold httpError. by rewrite <- app_assoc.
Qed.

Lemma the_export_is_the_tracks_witness :
  ∃ d s1,
    processDebug example_state = Done d s1 ∧
    fm s1 = fm example_state ∧ objects s1 = objects example_state ∧
    trace s1 = trace example_state ∧
    exportHandler example_henv_short [] example_state =
      let w1 := [] ++ [HeaderSet "Content-Type" "application/json"] in
      let v := (λ kv, positions example_state kv.1) <$>
               map_to_list (tracks (fm example_state)) in
      if Encode_err example_henv_short w1 v
      then Done (tt, w1 ++ [Encode v; HttpError StatusInternalServerError])
                (logged [EvLog LvlError "unable to encode"] s1)
      else Done (tt, w1 ++ [Encode v]) s1.
Proof.
  apply (the_export_is_the_tracks example_henv_short [] example_state); by_computation.
Defined.
